(** * SyncFlow: a shallow embedding of the synchronisation core

    The development follows the Python sources of the repository:

    - [backend/utils/file_utils.py]      : the path filter;
    - [backend/core/eol_normalizer.py]   : line-ending normalisation;
    - [backend/core/transfer.py]         : the SFTP transport;
    - [backend/core/bidirectional.py]    : endpoints and the two-way runner;
    - [backend/core/sync_engine.py]      : the one-way engine.

    Conventions.  Python [bytes] are [list byte]; [str] is [string];
    a dict used as a map is a [gmap]; a [datetime] and a [time.time()]
    reading are integers counting microseconds; code that mutates the
    runner or may raise lives in a small state-and-exception monad. *)

From Stdlib Require Import ZArith String Ascii List Bool Lia.
From Stdlib.Strings Require Import Byte.
From stdpp Require Import gmap strings list fin_maps.

Local Open Scope string_scope.
Local Open Scope list_scope.
Local Open Scope Z_scope.

(* ===================================================================== *)
(** * Part I: the model                                                   *)
(* ===================================================================== *)

(** ** Bytes *)

Abbreviation bytes := (list byte).

Definition CR : byte := x0d.
Definition LF : byte := x0a.

(** [s.startswith(old)] on bytes. *)
Fixpoint starts_with (old s : bytes) : bool :=
  match old, s with
  | [], _ => true
  | _ :: _, [] => false
  | o :: old', c :: s' => Byte.eqb o c && starts_with old' s'
  end.

(** The left-to-right, non-overlapping scan of [bytes.replace]: [skip]
    counts the bytes of the current occurrence of [old] still to be
    dropped. *)
Fixpoint replace_from (old new : bytes) (skip : nat) (s : bytes) : bytes :=
  match s with
  | [] => []
  | c :: s' =>
      match skip with
      | S k => replace_from old new k s'
      | O =>
          if starts_with old s
          then new ++ replace_from old new (length old - 1) s'
          else c :: replace_from old new 0 s'
      end
  end.

(** [s.replace(old, new)].  With an empty [old] Python puts [new] in front
    of every byte and at the end. *)
Definition bytes_replace (old new s : bytes) : bytes :=
  match old with
  | [] => flat_map (fun c => new ++ [c]) s ++ new
  | _ :: _ => replace_from old new 0 s
  end.

(** ** EOL policy ([EOLType = Literal['lf', 'crlf', 'keep']]) *)

Inductive eol := Eol_lf | Eol_crlf | Eol_keep.

(** [bidirectional._normalize_bytes]. *)
Definition _normalize_bytes (content : bytes) (target : eol) : bytes :=
  match target with
  | Eol_keep => content
  | _ =>
      let normalized := bytes_replace [CR; LF] [LF] content in
      let normalized := bytes_replace [CR] [LF] normalized in
      match target with
      | Eol_crlf => bytes_replace [LF] [CR; LF] normalized
      | _ => normalized
      end
  end.

(** ** Strings and paths

    The host is POSIX: [os.sep] is ["/"], [pathlib.Path] is
    [PurePosixPath] and [fnmatch.fnmatch] does not fold case.  Case
    conversion is modelled on the ASCII letters. *)

Definition os_sep : ascii := "/"%char.

(** [s.split(sep)] for a one-character separator. *)
Fixpoint split_on (sep : ascii) (s : string) : list string :=
  match s with
  | EmptyString => [""]
  | String c s' =>
      if Ascii.eqb c sep then "" :: split_on sep s'
      else match split_on sep s' with
           | h :: t => String c h :: t
           | [] => [String c ""]
           end
  end.

(** [s.replace(a, b)] for one-character [a] and [b]. *)
Fixpoint replace_char (a b : ascii) (s : string) : string :=
  match s with
  | EmptyString => EmptyString
  | String c s' => String (if Ascii.eqb c a then b else c) (replace_char a b s')
  end.

Definition lower_ascii (c : ascii) : ascii :=
  let n := N_of_ascii c in
  if ((65 <=? n) && (n <=? 90))%N then ascii_of_N (n + 32) else c.

(** [s.lower()]. *)
Fixpoint lower (s : string) : string :=
  match s with
  | EmptyString => EmptyString
  | String c s' => String (lower_ascii c) (lower s')
  end.

(** [sep.join(parts)]. *)
Definition join (sep : string) (parts : list string) : string :=
  String.concat sep parts.

Definition nonempty (s : string) : bool :=
  match s with EmptyString => false | _ => true end.

Definition is_absolute (p : string) : bool :=
  match p with String "/" _ => true | _ => false end.

(** [Path(p).parts] without the root: empty and ["."] components vanish. *)
Definition Path_parts (p : string) : list string :=
  filter (fun seg => seg <> "" /\ seg <> ".") (split_on "/" p).

(** [str(Path(p))]. *)
Definition Path_str (p : string) : string :=
  let body := join "/" (Path_parts p) in
  if is_absolute p then "/" +:+ body
  else match Path_parts p with [] => "." | _ => body end.

(** [Path(p).name]. *)
Definition Path_name (p : string) : string :=
  default "" (last (Path_parts p)).

(** [Path(p).suffix]: the part of the name from its last dot on, when that
    dot is neither the first nor the last character of the name. *)
Definition Path_suffix (p : string) : string :=
  let pieces := split_on "." (Path_name p) in
  match last pieces with
  | Some ext =>
      if nonempty ext && nonempty (join "." (removelast pieces))
      then "." +:+ ext else ""
  | None => ""
  end.

(** *** Shell-style patterns ([fnmatch.translate]) *)

Inductive glob_tok :=
| GStar
| GAny
| GLit (c : ascii)
| GSet (neg : bool) (items : list (ascii * ascii)).

(** The members of a bracket expression: [a-b] is a range, any other
    character stands for itself. *)
Fixpoint set_items (l : list ascii) : list (ascii * ascii) :=
  match l with
  | [] => []
  | a :: t =>
      match t with
      | "-"%char :: b :: t' => (a, b) :: set_items t'
      | _ => (a, a) :: set_items t
      end
  end.

(** Split at the first ["]"]. *)
Fixpoint find_close (l : list ascii) : option (list ascii * list ascii) :=
  match l with
  | [] => None
  | "]"%char :: t => Some ([], t)
  | c :: t =>
      match find_close t with
      | Some (mid, rest) => Some (c :: mid, rest)
      | None => None
      end
  end.

(** What follows an opening bracket: an optional ["!"], an optional
    leading ["]"], then everything up to the closing bracket. *)
Definition parse_set (l : list ascii) : option (glob_tok * list ascii) :=
  let '(neg, l1) := match l with "!"%char :: t => (true, t) | _ => (false, l) end in
  let '(lead, l2) := match l1 with "]"%char :: t => (["]"%char], t) | _ => ([], l1) end in
  match find_close l2 with
  | Some (mid, rest) => Some (GSet neg (set_items (lead ++ mid)), rest)
  | None => None
  end.

Fixpoint parse_glob (fuel : nat) (pat : list ascii) : list glob_tok :=
  match fuel, pat with
  | O, _ | _, [] => []
  | S n, "*"%char :: t => GStar :: parse_glob n t
  | S n, "?"%char :: t => GAny :: parse_glob n t
  | S n, "["%char :: t =>
      match parse_set t with
      | Some (tok, rest) => tok :: parse_glob n rest
      | None => GLit "["%char :: parse_glob n t
      end
  | S n, c :: t => GLit c :: parse_glob n t
  end.

Definition in_range (c : ascii) (r : ascii * ascii) : bool :=
  ((N_of_ascii (fst r) <=? N_of_ascii c) && (N_of_ascii c <=? N_of_ascii (snd r)))%N.

Fixpoint glob_match (toks : list glob_tok) (s : list ascii) : bool :=
  match toks with
  | [] => match s with [] => true | _ => false end
  | GStar :: toks' =>
      (fix star (s : list ascii) : bool :=
         glob_match toks' s ||
         match s with [] => false | _ :: s' => star s' end) s
  | GAny :: toks' =>
      match s with [] => false | _ :: s' => glob_match toks' s' end
  | GLit c :: toks' =>
      match s with [] => false | d :: s' => Ascii.eqb c d && glob_match toks' s' end
  | GSet neg items :: toks' =>
      match s with
      | [] => false
      | d :: s' => xorb neg (existsb (in_range d) items) && glob_match toks' s'
      end
  end.

(** [fnmatch.fnmatch(name, pat)]; on this host [os.path.normcase] is the
    identity, so the match is case-sensitive. *)
Definition fnmatch (name pat : string) : bool :=
  let p := list_ascii_of_string pat in
  glob_match (parse_glob (S (length p)) p) (list_ascii_of_string name).

(** ** The path filter ([backend/utils/file_utils.py]) *)

(** The loop of [should_exclude] over the patterns, with its three early
    returns. *)
Fixpoint should_exclude_loop (name path_str : string) (patterns : list string) : bool :=
  match patterns with
  | [] => false
  | pattern :: rest =>
      if fnmatch name pattern then true
      else if bool_decide (pattern ∈ split_on os_sep path_str) then true
      else if fnmatch path_str pattern then true
      else should_exclude_loop name path_str rest
  end.

Definition should_exclude (file_path : string) (exclude_patterns : list string) : bool :=
  should_exclude_loop (Path_name file_path) (Path_str file_path) exclude_patterns.

Definition should_include_extension (file_path : string) (allowed_extensions : list string) : bool :=
  match allowed_extensions with
  | [] => true
  | _ => bool_decide (lower (Path_suffix file_path) ∈ allowed_extensions)
  end.

(** ** File meta and per-path state ([bidirectional.py])

    A meta is the dict [{'size': .., 'mtime': .., 'hash': ..}] with every
    key optional; the empty dict is the record without any key. *)

Record meta := {
  size : option Z;
  mtime : option Z;
  hash : option string
}.

Definition empty_meta : meta := {| size := None; mtime := None; hash := None |}.

(** Truth value of the dict: it has at least one key. *)
Definition has_key {X : Type} (o : option X) : bool :=
  match o with Some _ => true | None => false end.

Definition meta_truthy (m : meta) : bool :=
  has_key (size m) || has_key (mtime m) || has_key (hash m).

(** Truth value of [d.get(key)] for a string entry. *)
Definition str_truthy (o : option string) : bool :=
  match o with Some s => nonempty s | None => false end.

(** [meta['hash'] = h]. *)
Definition with_hash (m : meta) (h : string) : meta :=
  {| size := size m; mtime := mtime m; hash := Some h |}.

(** [BidirectionalTaskRunner._meta_changed(old_meta, new_meta)];
    [new_meta] is [Optional[Dict]]. *)
Definition _meta_changed (old_meta : meta) (new_meta : option meta) : bool :=
  let new_meta := default empty_meta new_meta in
  if negb (meta_truthy old_meta) && negb (meta_truthy new_meta) then false
  else if negb (meta_truthy old_meta) || negb (meta_truthy new_meta) then true
  else
    let old_hash := hash old_meta in
    let new_hash := hash new_meta in
    if str_truthy old_hash && str_truthy new_hash
    then negb (bool_decide (old_hash = new_hash))
    else negb (bool_decide (size old_meta = size new_meta))
         || negb (bool_decide (mtime old_meta = mtime new_meta)).

Inductive side := A | B.

Definition other (s : side) : side := match s with A => B | B => A end.

(** One row of [sync_file_state], as the dict kept in [_state_cache]. *)
Record file_state := {
  a_meta : meta;
  b_meta : meta;
  a_deleted : bool;
  b_deleted : bool;
  a_seen_at : option Z;
  b_seen_at : option Z;
  last_winner : option side;
  last_sync_at : option Z
}.

(** The default row of [_handle_meta_change]; it also stands for the empty
    dict, whose every [get] yields the default. *)
Definition zero_state : file_state :=
  {| a_meta := empty_meta; b_meta := empty_meta;
     a_deleted := false; b_deleted := false;
     a_seen_at := None; b_seen_at := None;
     last_winner := None; last_sync_at := None |}.

(** [state[f"{side}_meta"]], [state[f"{side}_deleted"]],
    [state[f"{side}_seen_at"]]. *)
Definition side_meta (s : side) (st : file_state) : meta :=
  match s with A => a_meta st | B => b_meta st end.

Definition side_deleted (s : side) (st : file_state) : bool :=
  match s with A => a_deleted st | B => b_deleted st end.

Definition side_seen_at (s : side) (st : file_state) : option Z :=
  match s with A => a_seen_at st | B => b_seen_at st end.

Definition set_side_meta (s : side) (m : meta) (st : file_state) : file_state :=
  match s with
  | A => {| a_meta := m; b_meta := b_meta st; a_deleted := a_deleted st;
            b_deleted := b_deleted st; a_seen_at := a_seen_at st;
            b_seen_at := b_seen_at st; last_winner := last_winner st;
            last_sync_at := last_sync_at st |}
  | B => {| a_meta := a_meta st; b_meta := m; a_deleted := a_deleted st;
            b_deleted := b_deleted st; a_seen_at := a_seen_at st;
            b_seen_at := b_seen_at st; last_winner := last_winner st;
            last_sync_at := last_sync_at st |}
  end.

Definition set_side_deleted (s : side) (d : bool) (st : file_state) : file_state :=
  match s with
  | A => {| a_meta := a_meta st; b_meta := b_meta st; a_deleted := d;
            b_deleted := b_deleted st; a_seen_at := a_seen_at st;
            b_seen_at := b_seen_at st; last_winner := last_winner st;
            last_sync_at := last_sync_at st |}
  | B => {| a_meta := a_meta st; b_meta := b_meta st; a_deleted := a_deleted st;
            b_deleted := d; a_seen_at := a_seen_at st;
            b_seen_at := b_seen_at st; last_winner := last_winner st;
            last_sync_at := last_sync_at st |}
  end.

Definition set_side_seen_at (s : side) (t : option Z) (st : file_state) : file_state :=
  match s with
  | A => {| a_meta := a_meta st; b_meta := b_meta st; a_deleted := a_deleted st;
            b_deleted := b_deleted st; a_seen_at := t;
            b_seen_at := b_seen_at st; last_winner := last_winner st;
            last_sync_at := last_sync_at st |}
  | B => {| a_meta := a_meta st; b_meta := b_meta st; a_deleted := a_deleted st;
            b_deleted := b_deleted st; a_seen_at := a_seen_at st;
            b_seen_at := t; last_winner := last_winner st;
            last_sync_at := last_sync_at st |}
  end.

(** The three assignments [state[key_meta] = m], [state[key_deleted] = d],
    [state[key_seen] = t]. *)
Definition set_side (s : side) (m : meta) (d : bool) (t : Z) (st : file_state) : file_state :=
  set_side_seen_at s (Some t) (set_side_deleted s d (set_side_meta s m st)).

(** [state['last_winner'] = w; state['last_sync_at'] = t]. *)
Definition set_synced (w : side) (t : Z) (st : file_state) : file_state :=
  {| a_meta := a_meta st; b_meta := b_meta st; a_deleted := a_deleted st;
     b_deleted := b_deleted st; a_seen_at := a_seen_at st;
     b_seen_at := b_seen_at st; last_winner := Some w;
     last_sync_at := Some t |}.

(** ** Endpoints, the runner and its environment *)

Inductive ep_kind := Local | Ssh.

(** A regular file: contents and modification time. *)
Record file := { f_data : bytes; f_mtime : Z }.

(** An endpoint object together with the tree it gives access to.  The
    tree maps a path relative to the root to a file; [ep_denied] lists the
    paths on which open, rename and unlink are refused by the operating
    system; [ep_online] tells, for a remote endpoint, whether the SFTP
    session is alive or can be re-established. *)
Record endpoint := {
  ep_type : ep_kind;
  ep_root : string;
  exclude_patterns : list string;
  file_extensions : list string;
  trash_dir : string;
  backup_dir : string;
  ep_files : gmap string file;
  ep_denied : gset string;
  ep_online : bool
}.

Definition _internal_dirs (ep : endpoint) : list string :=
  [trash_dir ep; backup_dir ep].

Definition set_files (fs : gmap string file) (ep : endpoint) : endpoint :=
  {| ep_type := ep_type ep; ep_root := ep_root ep;
     exclude_patterns := exclude_patterns ep;
     file_extensions := file_extensions ep;
     trash_dir := trash_dir ep; backup_dir := backup_dir ep;
     ep_files := fs; ep_denied := ep_denied ep; ep_online := ep_online ep |}.

(** One row of [sync_logs]. *)
Inductive log_status := Success | Failed | Skipped.

Record sync_log := {
  event_type : string;
  file_path : string;
  dest_path : option string;
  status : log_status;
  error_message : option string
}.

(** Observable steps, in the order they happen. *)
Inductive event :=
| EvWrite (s : side) (p : string)          (* a file was created or overwritten *)
| EvRemove (s : side) (p : string)         (* a file was unlinked or moved away *)
| EvHash (s : side) (p : string)           (* [_compute_hash] was called *)
| EvMark (s : side) (p : string) (until : Z)   (* [_mark_suppressed] *)
| EvSave (p : string) (st : file_state)    (* [_save_state] committed a row *)
| EvSync (winner loser : side) (p : string).   (* [_sync_side] entered its [try] *)

(** The runner object, the two stores it writes to, and the wall clock:
    the [n]-th reading of the time returns [clock n]. *)
Record runner := {
  eol_normalize : eol;
  ep_a : endpoint;
  ep_b : endpoint;
  _init_done : bool;
  _stop_event : bool;
  _state_cache : gmap string file_state;
  _suppress_a : gmap string Z;
  _suppress_b : gmap string Z;
  _batch_queue : list string;
  _batch_event : bool;
  sync_file_state : gmap string file_state;
  sync_logs : list sync_log;
  clock : nat -> Z;
  clock_reads : nat;
  trace : list event
}.

(** [self.endpoints[s]] and [self._suppress[s]]. *)
Definition endpoints (r : runner) (s : side) : endpoint :=
  match s with A => ep_a r | B => ep_b r end.

Definition _suppress (r : runner) (s : side) : gmap string Z :=
  match s with A => _suppress_a r | B => _suppress_b r end.

Definition set_endpoint (s : side) (ep : endpoint) (r : runner) : runner :=
  {| eol_normalize := eol_normalize r;
     ep_a := match s with A => ep | B => ep_a r end;
     ep_b := match s with A => ep_b r | B => ep end;
     _init_done := _init_done r; _stop_event := _stop_event r;
     _state_cache := _state_cache r;
     _suppress_a := _suppress_a r; _suppress_b := _suppress_b r;
     _batch_queue := _batch_queue r; _batch_event := _batch_event r;
     sync_file_state := sync_file_state r; sync_logs := sync_logs r;
     clock := clock r; clock_reads := clock_reads r; trace := trace r |}.

Definition set_cache (c : gmap string file_state) (r : runner) : runner :=
  {| eol_normalize := eol_normalize r; ep_a := ep_a r; ep_b := ep_b r;
     _init_done := _init_done r; _stop_event := _stop_event r;
     _state_cache := c;
     _suppress_a := _suppress_a r; _suppress_b := _suppress_b r;
     _batch_queue := _batch_queue r; _batch_event := _batch_event r;
     sync_file_state := sync_file_state r; sync_logs := sync_logs r;
     clock := clock r; clock_reads := clock_reads r; trace := trace r |}.

Definition set_suppress (s : side) (m : gmap string Z) (r : runner) : runner :=
  {| eol_normalize := eol_normalize r; ep_a := ep_a r; ep_b := ep_b r;
     _init_done := _init_done r; _stop_event := _stop_event r;
     _state_cache := _state_cache r;
     _suppress_a := match s with A => m | B => _suppress_a r end;
     _suppress_b := match s with A => _suppress_b r | B => m end;
     _batch_queue := _batch_queue r; _batch_event := _batch_event r;
     sync_file_state := sync_file_state r; sync_logs := sync_logs r;
     clock := clock r; clock_reads := clock_reads r; trace := trace r |}.

Definition set_queue (q : list string) (ev : bool) (r : runner) : runner :=
  {| eol_normalize := eol_normalize r; ep_a := ep_a r; ep_b := ep_b r;
     _init_done := _init_done r; _stop_event := _stop_event r;
     _state_cache := _state_cache r;
     _suppress_a := _suppress_a r; _suppress_b := _suppress_b r;
     _batch_queue := q; _batch_event := ev;
     sync_file_state := sync_file_state r; sync_logs := sync_logs r;
     clock := clock r; clock_reads := clock_reads r; trace := trace r |}.

Definition set_table (t : gmap string file_state) (r : runner) : runner :=
  {| eol_normalize := eol_normalize r; ep_a := ep_a r; ep_b := ep_b r;
     _init_done := _init_done r; _stop_event := _stop_event r;
     _state_cache := _state_cache r;
     _suppress_a := _suppress_a r; _suppress_b := _suppress_b r;
     _batch_queue := _batch_queue r; _batch_event := _batch_event r;
     sync_file_state := t; sync_logs := sync_logs r;
     clock := clock r; clock_reads := clock_reads r; trace := trace r |}.

Definition set_logs (l : list sync_log) (r : runner) : runner :=
  {| eol_normalize := eol_normalize r; ep_a := ep_a r; ep_b := ep_b r;
     _init_done := _init_done r; _stop_event := _stop_event r;
     _state_cache := _state_cache r;
     _suppress_a := _suppress_a r; _suppress_b := _suppress_b r;
     _batch_queue := _batch_queue r; _batch_event := _batch_event r;
     sync_file_state := sync_file_state r; sync_logs := l;
     clock := clock r; clock_reads := clock_reads r; trace := trace r |}.

Definition set_clock_reads (n : nat) (r : runner) : runner :=
  {| eol_normalize := eol_normalize r; ep_a := ep_a r; ep_b := ep_b r;
     _init_done := _init_done r; _stop_event := _stop_event r;
     _state_cache := _state_cache r;
     _suppress_a := _suppress_a r; _suppress_b := _suppress_b r;
     _batch_queue := _batch_queue r; _batch_event := _batch_event r;
     sync_file_state := sync_file_state r; sync_logs := sync_logs r;
     clock := clock r; clock_reads := n; trace := trace r |}.

Definition set_trace (t : list event) (r : runner) : runner :=
  {| eol_normalize := eol_normalize r; ep_a := ep_a r; ep_b := ep_b r;
     _init_done := _init_done r; _stop_event := _stop_event r;
     _state_cache := _state_cache r;
     _suppress_a := _suppress_a r; _suppress_b := _suppress_b r;
     _batch_queue := _batch_queue r; _batch_event := _batch_event r;
     sync_file_state := sync_file_state r; sync_logs := sync_logs r;
     clock := clock r; clock_reads := clock_reads r; trace := t |}.

(** ** Exceptions and the runner monad *)

Inductive exn_kind :=
| FileNotFoundError
| PermissionError
| IOError
| ConnectionError.

(** An exception object; [exn_msg] is [str(e)]. *)
Record exn := { exn_kind_of : exn_kind; exn_msg : string }.

Inductive outcome (X : Type) :=
| Ret (x : X)
| Raise (e : exn).
Arguments Ret {X} x.
Arguments Raise {X} e.

(** A computation reads and updates the runner; what it changed before
    raising stays changed. *)
Definition M (X : Type) : Type := runner -> outcome X * runner.

Definition ret {X} (x : X) : M X := fun r => (Ret x, r).

Definition bind {X Y} (m : M X) (k : X -> M Y) : M Y :=
  fun r => match m r with
           | (Ret x, r') => k x r'
           | (Raise e, r') => (Raise e, r')
           end.

Definition raise {X} (k : exn_kind) (msg : string) : M X :=
  fun r => (Raise {| exn_kind_of := k; exn_msg := msg |}, r).

(** [try: m  except Exception as e: h(e)]. *)
Definition try_except {X} (m : M X) (h : exn -> M X) : M X :=
  fun r => match m r with
           | (Ret x, r') => (Ret x, r')
           | (Raise e, r') => h e r'
           end.

Definition gets {X} (f : runner -> X) : M X := fun r => (Ret (f r), r).

Definition modify (f : runner -> runner) : M unit := fun r => (Ret tt, f r).

Declare Scope runner_scope.
Delimit Scope runner_scope with M.
Notation "x <- m ;; k" := (bind m (fun x => k))
  (at level 100, m at next level, right associativity) : runner_scope.
Notation "m ;;; k" := (bind m (fun _ => k))
  (at level 100, right associativity) : runner_scope.
Local Open Scope runner_scope.

(** [if c: m] *)
Definition when (c : bool) (m : M unit) : M unit := if c then m else ret tt.

Definition emit (e : event) : M unit :=
  modify (fun r => set_trace (trace r ++ [e]) r).

(** [time.time()] and [datetime.now()]: the next reading of the clock. *)
Definition time_now : M Z :=
  fun r => (Ret (clock r (clock_reads r)), set_clock_reads (S (clock_reads r)) r).

(** The final runner and the value of a computation. *)
Definition exec {X} (m : M X) (r : runner) : runner := snd (m r).
Definition eval {X} (m : M X) (r : runner) : outcome X := fst (m r).

(** ** Operating-system primitives on an endpoint's tree

    Directories are implicit: creating parents never fails and leaves no
    trace in the tree. *)

Definition files_of (s : side) : M (gmap string file) :=
  gets (fun r => ep_files (endpoints r s)).

Definition put_files (s : side) (fs : gmap string file) : M unit :=
  modify (fun r => set_endpoint s (set_files fs (endpoints r s)) r).

Definition denied (s : side) (p : string) : M bool :=
  gets (fun r => bool_decide (p ∈ ep_denied (endpoints r s))).

(** [Path.exists()]. *)
Definition os_exists (s : side) (p : string) : M bool :=
  fs <- files_of s;; ret (has_key (fs !! p)).

(** Opening [p] for reading and reading it whole. *)
Definition os_read (s : side) (p : string) : M file :=
  fs <- files_of s;;
  d <- denied s p;;
  match fs !! p with
  | None => raise FileNotFoundError ("No such file or directory: " +:+ p)
  | Some f =>
      if d then raise PermissionError ("Permission denied: " +:+ p) else ret f
  end.

(** Creating or overwriting [p] with a file whose times are given
    ([shutil.copy2], the target of a rename). *)
Definition os_store (s : side) (p : string) (f : file) : M unit :=
  d <- denied s p;;
  if d then raise PermissionError ("Permission denied: " +:+ p)
  else
    fs <- files_of s;;
    put_files s (<[p := f]> fs);;;
    emit (EvWrite s p).

(** [open(p, 'wb').write(data)]: the file is stamped with the current
    time. *)
Definition os_create (s : side) (p : string) (data : bytes) : M unit :=
  d <- denied s p;;
  if d then raise PermissionError ("Permission denied: " +:+ p)
  else
    t <- time_now;;
    os_store s p {| f_data := data; f_mtime := t |}.

(** [os.unlink(p)] / [sftp.remove(p)]. *)
Definition os_unlink (s : side) (p : string) : M unit :=
  fs <- files_of s;;
  d <- denied s p;;
  match fs !! p with
  | None => raise FileNotFoundError ("No such file or directory: " +:+ p)
  | Some _ =>
      if d then raise PermissionError ("Permission denied: " +:+ p)
      else put_files s (delete p fs);;; emit (EvRemove s p)
  end.

(** [os.rename(src, dst)] / [sftp.rename(src, dst)] inside one tree. *)
Definition os_rename (s : side) (src dst : string) : M unit :=
  f <- os_read s src;;
  d <- denied s dst;;
  if d then raise PermissionError ("Permission denied: " +:+ dst)
  else
    fs <- files_of s;;
    put_files s (<[dst := f]> (delete src fs));;;
    emit (EvRemove s src);;;
    emit (EvWrite s dst).

(** What [stat] reports of a file. *)
Definition meta_of_file (f : file) : meta :=
  {| size := Some (Z.of_nat (length (f_data f)));
     mtime := Some (f_mtime f);
     hash := None |}.

(** [f"{dir}/{ts}/{rel_path}"]. *)
Definition stamped_path (dir ts rel_path : string) : string :=
  dir +:+ "/" +:+ ts +:+ "/" +:+ rel_path.

(** An absolute path names a tree and a path inside it:
    [endpoint._abs_path(rel_path)]. *)
Definition _abs_path (s : side) (rel_path : string) : side * string := (s, rel_path).

(** ** [SSHTransfer] ([backend/core/transfer.py]) *)

Definition ensure_connected (s : side) : M unit :=
  online <- gets (fun r => ep_online (endpoints r s));;
  if online then ret tt
  else raise ConnectionError "SSH connection failed".

Definition SSHTransfer_stat (s : side) (remote_path : string) : M meta :=
  ensure_connected s;;;
  fs <- files_of s;;
  match fs !! remote_path with
  | Some f => ret (meta_of_file f)
  | None => raise FileNotFoundError ("No such file: " +:+ remote_path)
  end.

Definition SSHTransfer_read_file_bytes (s : side) (remote_path : string) : M bytes :=
  ensure_connected s;;;
  f <- os_read s remote_path;;
  ret (f_data f).

Definition SSHTransfer_write_file_bytes (s : side) (remote_path : string) (data : bytes) : M unit :=
  ensure_connected s;;;
  os_create s remote_path data.

Definition SSHTransfer_download_file (s : side) (remote_path : string) (local_path : side * string) : M unit :=
  ensure_connected s;;;
  f <- os_read s remote_path;;
  os_create (fst local_path) (snd local_path) (f_data f).

Definition SSHTransfer_upload_file (local_file : side * string) (s : side) (remote_path : string) : M unit :=
  ensure_connected s;;;
  try_except
    (f <- os_read (fst local_file) (snd local_file);;
     os_create s remote_path (f_data f))
    (fun e => raise IOError ("upload failed: " +:+ exn_msg e)).

Definition SSHTransfer_delete_file (s : side) (remote_path : string) : M unit :=
  ensure_connected s;;;
  try_except
    (os_unlink s remote_path)
    (fun e => match exn_kind_of e with
              | FileNotFoundError => ret tt
              | _ => raise IOError ("delete failed: " +:+ exn_msg e)
              end).

Definition SSHTransfer_move_file (s : side) (remote_src remote_dest : string) : M unit :=
  ensure_connected s;;;
  try_except
    (try_except (os_unlink s remote_dest) (fun _ => ret tt);;;
     os_rename s remote_src remote_dest)
    (fun e => raise IOError ("move failed: " +:+ exn_msg e)).

(** [SSHTransfer.iter_files]: every regular file below the root. *)
Definition SSHTransfer_iter_files (s : side) : M (list (string * file)) :=
  ensure_connected s;;;
  fs <- files_of s;;
  ret (map_to_list fs).

(** ** [LocalEndpoint] *)

Definition LocalEndpoint_get_meta (s : side) (rel_path : string) : M (option meta) :=
  fs <- files_of s;;
  ret (meta_of_file <$> fs !! rel_path).

Definition LocalEndpoint_read_bytes (s : side) (rel_path : string) : M bytes :=
  f <- os_read s rel_path;;
  ret (f_data f).

Definition LocalEndpoint_write_bytes (s : side) (rel_path : string) (data : bytes) : M unit :=
  os_create s rel_path data.

(** [shutil.copy2(src_abs, dest_abs)]. *)
Definition LocalEndpoint_copy_file (s : side) (src_abs : side * string) (rel_path : string) : M unit :=
  f <- os_read (fst src_abs) (snd src_abs);;
  os_store s rel_path f.

Definition LocalEndpoint_move_to_trash (s : side) (rel_path ts : string) : M unit :=
  present <- os_exists s rel_path;;
  if negb present then ret tt
  else
    dir <- gets (fun r => trash_dir (endpoints r s));;
    os_rename s rel_path (stamped_path dir ts rel_path).

Definition LocalEndpoint_backup_file (s : side) (rel_path ts : string) : M unit :=
  present <- os_exists s rel_path;;
  if negb present then ret tt
  else
    dir <- gets (fun r => backup_dir (endpoints r s));;
    f <- os_read s rel_path;;
    os_store s (stamped_path dir ts rel_path) f.

(** ** [SshEndpoint] *)

Definition SshEndpoint_get_meta (s : side) (rel_path : string) : M (option meta) :=
  try_except
    (m <- SSHTransfer_stat s rel_path;; ret (Some m))
    (fun _ => ret None).

Definition SshEndpoint_read_bytes (s : side) (rel_path : string) : M bytes :=
  SSHTransfer_read_file_bytes s rel_path.

Definition SshEndpoint_write_bytes (s : side) (rel_path : string) (data : bytes) : M unit :=
  SSHTransfer_write_file_bytes s rel_path data.

Definition SshEndpoint_upload_file (s : side) (local_path : side * string) (rel_path : string) : M unit :=
  SSHTransfer_upload_file local_path s rel_path.

Definition SshEndpoint_download_file (s : side) (rel_path : string) (local_path : side * string) : M unit :=
  SSHTransfer_download_file s rel_path local_path.

(** Both [except] clauses swallow the error (it only goes to the
    application logger). *)
Definition SshEndpoint_move_to_trash (s : side) (rel_path ts : string) : M unit :=
  dir <- gets (fun r => trash_dir (endpoints r s));;
  try_except
    (SSHTransfer_move_file s rel_path (stamped_path dir ts rel_path))
    (fun _ =>
       try_except
         (data <- SshEndpoint_read_bytes s rel_path;;
          SshEndpoint_write_bytes s (stamped_path dir ts rel_path) data;;;
          SSHTransfer_delete_file s rel_path)
         (fun _ => ret tt)).

Definition SshEndpoint_backup_file (s : side) (rel_path ts : string) : M unit :=
  dir <- gets (fun r => backup_dir (endpoints r s));;
  try_except
    (data <- SshEndpoint_read_bytes s rel_path;;
     SshEndpoint_write_bytes s (stamped_path dir ts rel_path) data)
    (fun _ => ret tt).

(** ** Method dispatch on [endpoint.type] *)

Definition kind_of (s : side) : M ep_kind :=
  gets (fun r => ep_type (endpoints r s)).

Definition get_meta (s : side) (rel_path : string) : M (option meta) :=
  k <- kind_of s;;
  match k with
  | Local => LocalEndpoint_get_meta s rel_path
  | Ssh => SshEndpoint_get_meta s rel_path
  end.

Definition read_bytes (s : side) (rel_path : string) : M bytes :=
  k <- kind_of s;;
  match k with
  | Local => LocalEndpoint_read_bytes s rel_path
  | Ssh => SshEndpoint_read_bytes s rel_path
  end.

Definition write_bytes (s : side) (rel_path : string) (data : bytes) : M unit :=
  k <- kind_of s;;
  match k with
  | Local => LocalEndpoint_write_bytes s rel_path data
  | Ssh => SshEndpoint_write_bytes s rel_path data
  end.

Definition move_to_trash (s : side) (rel_path ts : string) : M unit :=
  k <- kind_of s;;
  match k with
  | Local => LocalEndpoint_move_to_trash s rel_path ts
  | Ssh => SshEndpoint_move_to_trash s rel_path ts
  end.

Definition backup_file (s : side) (rel_path ts : string) : M unit :=
  k <- kind_of s;;
  match k with
  | Local => LocalEndpoint_backup_file s rel_path ts
  | Ssh => SshEndpoint_backup_file s rel_path ts
  end.

(** ** Filtering and listing *)

(** [LocalEndpoint._is_excluded] and [SshEndpoint._is_excluded] (the two
    bodies are the same). *)
Definition _is_excluded (ep : endpoint) (rel_path : string) : bool :=
  let parts := split_on "/" (replace_char "\" "/" rel_path) in
  if existsb (fun p => bool_decide (p ∈ _internal_dirs ep)) parts then true
  else
    let rel_os := replace_char "/" os_sep rel_path in
    should_exclude rel_os (exclude_patterns ep).

(** The test [iter_files] applies to every file it meets: skipped when
    [_is_excluded] or when the extension is not allowed. *)
Definition iter_files_skips (ep : endpoint) (rel_path : string) : bool :=
  if _is_excluded ep rel_path then true
  else if negb (should_include_extension rel_path (file_extensions ep)) then true
  else false.

(** The directories [os.walk] has to enter to reach a file:
    ["d1"], ["d1/d2"], ... for ["d1/d2/f"]. *)
Fixpoint dir_prefixes (rel_root : string) (parts : list string) : list string :=
  match parts with
  | [] => []
  | d :: rest =>
      match rest with
      | [] => []
      | _ =>
          let here := if nonempty rel_root then rel_root +:+ "/" +:+ d else d in
          here :: dir_prefixes here rest
      end
  end.

(** [LocalEndpoint.iter_files]: [os.walk] with excluded directories
    pruned, then the per-file test. *)
Definition LocalEndpoint_iter_files (s : side) : M (list (string * meta)) :=
  ep <- gets (fun r => endpoints r s);;
  fs <- files_of s;;
  ret (omap (fun '(rel_path, f) =>
               if forallb (fun d => negb (_is_excluded ep d))
                          (dir_prefixes "" (split_on "/" rel_path))
                  && negb (iter_files_skips ep rel_path)
               then Some (rel_path, meta_of_file f) else None)
            (map_to_list fs)).

(** [SshEndpoint.iter_files]. *)
Definition SshEndpoint_iter_files (s : side) : M (list (string * meta)) :=
  ep <- gets (fun r => endpoints r s);;
  entries <- SSHTransfer_iter_files s;;
  ret (omap (fun '(rel_path, f) =>
               if negb (iter_files_skips ep rel_path)
               then Some (rel_path, meta_of_file f) else None)
            entries).

Definition iter_files (s : side) : M (list (string * meta)) :=
  k <- kind_of s;;
  match k with
  | Local => LocalEndpoint_iter_files s
  | Ssh => SshEndpoint_iter_files s
  end.

(** [endpoint.list_files()], that is [dict(self.iter_files())]. *)
Definition list_files (s : side) : M (gmap string meta) :=
  items <- iter_files s;;
  ret (list_to_map items).

(** ** Text classification and hashing *)

Definition TEXT_EXTENSIONS : list string :=
  [".py"; ".js"; ".ts"; ".java"; ".c"; ".cpp"; ".h"; ".hpp"; ".cs"; ".go";
   ".rs"; ".rb"; ".php"; ".swift"; ".kt"; ".scala"; ".r"; ".m"; ".mm";
   ".json"; ".yaml"; ".yml"; ".xml"; ".toml"; ".ini"; ".cfg"; ".conf";
   ".md"; ".markdown"; ".rst"; ".txt"; ".html"; ".htm"; ".css"; ".scss";
   ".sass"; ".less";
   ".sh"; ".bash"; ".zsh"; ".bat"; ".cmd"; ".ps1";
   ".sql"; ".csv"; ".tsv";
   ".gitignore"; ".gitattributes"; ".editorconfig"; ".env"].

(** [bidirectional._is_text_path]. *)
Definition _is_text_path (rel_path : string) : bool :=
  let ext := lower (Path_suffix rel_path) in
  if bool_decide (ext ∈ TEXT_EXTENSIONS) then true
  else
    let special_names := ["Makefile"; "Dockerfile"; "Jenkinsfile"; "README"; "LICENSE"] in
    bool_decide (Path_name rel_path ∈ special_names).

(** What the host supplies and the sources only call: the digest
    [hashlib.new(self._hash_algo, data).hexdigest()] and the token
    [now.strftime('%Y%m%d_%H%M%S')]. *)
Class Host := {
  hexdigest : bytes -> string;
  strftime : Z -> string
}.

Section Runner.
Context {host : Host}.

(** [_hash_file]: the digest of the file read in chunks. *)
Definition _hash_file (abs_path : side * string) : M string :=
  f <- os_read (fst abs_path) (snd abs_path);;
  ret (hexdigest (f_data f)).

(** [BidirectionalTaskRunner._compute_hash]. *)
Definition _compute_hash (s : side) (rel_path : string) : M (option string) :=
  emit (EvHash s rel_path);;;
  try_except
    (k <- kind_of s;;
     eol <- gets eol_normalize;;
     let raw := match eol with Eol_keep => true | _ => negb (_is_text_path rel_path) end in
     match k with
     | Local =>
         present <- os_exists s rel_path;;
         if negb present then ret None
         else if raw then h <- _hash_file (_abs_path s rel_path);; ret (Some h)
         else
           f <- os_read s rel_path;;
           ret (Some (hexdigest (_normalize_bytes (f_data f) eol)))
     | Ssh =>
         content <- read_bytes s rel_path;;
         let content := if negb raw then _normalize_bytes content eol else content in
         ret (Some (hexdigest content))
     end)
    (fun _ => ret None).

(** ** Suppression, the state store and the queue *)

(** Microseconds in a second, and [self._suppress_window = 2] seconds. *)
Definition second : Z := 1000000.
Definition _suppress_window : Z := 2 * second.

Definition _is_suppressed (s : side) (rel_path : string) : M bool :=
  ts <- gets (fun r => _suppress r s !! rel_path);;
  match ts with
  | None => ret false
  | Some ts =>
      if ts =? 0 then ret false
      else
        t <- time_now;;
        if ts <? t then
          modify (fun r => set_suppress s (delete rel_path (_suppress r s)) r);;;
          ret false
        else ret true
  end.

Definition _mark_suppressed (s : side) (rel_path : string) : M unit :=
  t <- time_now;;
  modify (fun r => set_suppress s (<[rel_path := t + _suppress_window]> (_suppress r s)) r);;;
  emit (EvMark s rel_path (t + _suppress_window)).

(** [_save_state]: the row is upserted and committed. *)
Definition _save_state (rel_path : string) (state : file_state) : M unit :=
  modify (fun r => set_table (<[rel_path := state]> (sync_file_state r)) r);;;
  emit (EvSave rel_path state).

(** [self._state_cache[rel_path] = state; self._save_state(rel_path, state)]. *)
Definition store_row (rel_path : string) (state : file_state) : M unit :=
  modify (fun r => set_cache (<[rel_path := state]> (_state_cache r)) r);;;
  _save_state rel_path state.

(** An assignment [state[key] = value] on the dict fetched from the cache:
    when the row was in the cache it is the cached object that changes;
    the default dict is private until it is stored. *)
Definition assign_in_place (rel_path : string) (cached : option file_state)
    (state : file_state) : M unit :=
  match cached with
  | Some _ => modify (fun r => set_cache (<[rel_path := state]> (_state_cache r)) r)
  | None => ret tt
  end.

(** [create_log]. *)
Definition create_log (l : sync_log) : M unit :=
  modify (fun r => set_logs (sync_logs r ++ [l]) r).

(** [_reconcile]: the path joins the batch queue. *)
Definition _reconcile (rel_path : string) : M unit :=
  ready <- gets _init_done;;
  if negb ready then ret tt
  else
    modify (fun r =>
      set_queue (if bool_decide (rel_path ∈ _batch_queue r)
                 then _batch_queue r else _batch_queue r ++ [rel_path])
                true r).

(** [_consume_hash_budget(budget, units)]: the verdict and the budget
    afterwards; [None] is no budget at all. *)
Definition _consume_hash_budget (budget : option Z) (units : Z) : bool * option Z :=
  match budget with
  | None => (true, None)
  | Some remain =>
      if remain <? units then (false, budget)
      else (true, Some (remain - units))
  end.

Definition _hash_check_max_size : Z := 2 * 1024 * 1024.
Definition _hash_budget_per_scan : Z := 50.

(** [a or b or 0] on two optional sizes. *)
Definition first_size (a b : option Z) : Z :=
  match a with
  | Some x => if x =? 0 then default 0 b else x
  | None => default 0 b
  end.

(** ** Observations *)

(** [_handle_meta_change(side, rel_path, meta, deleted, seen_at, endpoint,
    hash_budget)].  The budget dict is shared by the calls of one scan:
    the call returns it as it leaves it. *)
Definition _handle_meta_change (s : side) (rel_path : string) (new_meta : option meta)
    (deleted : bool) (seen_at : Z) (hash_budget : option Z) : M (option Z) :=
  cached <- gets (fun r => _state_cache r !! rel_path);;
  let state := default zero_state cached in
  if deleted then
    if side_deleted s state && negb (meta_truthy (side_meta s state))
    then ret hash_budget
    else
      store_row rel_path (set_side s empty_meta true seen_at state);;;
      _reconcile rel_path;;;
      ret hash_budget
  else if _meta_changed (side_meta s state) new_meta then
    new_hash <- _compute_hash s rel_path;;
    let meta1 := default empty_meta new_meta in
    let meta1 := if str_truthy new_hash then with_hash meta1 (default "" new_hash) else meta1 in
    let old_hash := hash (side_meta s state) in
    let state' := set_side s meta1 false seen_at state in
    if str_truthy old_hash && str_truthy new_hash && bool_decide (old_hash = new_hash)
    then
      store_row rel_path state';;;
      ret hash_budget
    else
      store_row rel_path state';;;
      _reconcile rel_path;;;
      ret hash_budget
  else
    k <- kind_of s;;
    match k with
    | Local => ret hash_budget
    | Ssh =>
        let old_meta := side_meta s state in
        let other_meta := side_meta (other s) state in
        let other_deleted := side_deleted (other s) state in
        let sz := first_size (size (default empty_meta new_meta)) (size old_meta) in
        if negb other_deleted && meta_truthy other_meta
           && negb (sz =? 0) && (sz <=? _hash_check_max_size)
        then
          let '(granted, hash_budget) := _consume_hash_budget hash_budget 2 in
          if granted then
            remote_hash <- _compute_hash s rel_path;;
            local_hash <- _compute_hash (other s) rel_path;;
            if str_truthy remote_hash && str_truthy local_hash
               && negb (bool_decide (remote_hash = local_hash))
            then
              (* the row is changed in place, then control reaches the
                 [return] that closes the branch: nothing is stored and
                 nothing is enqueued *)
              let meta2 := with_hash (default empty_meta new_meta) (default "" remote_hash) in
              assign_in_place rel_path cached (set_side s meta2 false seen_at state);;;
              ret hash_budget
            else if negb (str_truthy (hash old_meta)) && str_truthy remote_hash
                    && fst (_consume_hash_budget hash_budget 0)
            then
              store_row rel_path
                (set_side_meta s (with_hash old_meta (default "" remote_hash)) state);;;
              ret hash_budget
            else ret hash_budget
          else ret hash_budget
        else ret hash_budget
    end.

(** [Path(path).relative_to(root).as_posix()]; [None] stands for the
    [ValueError]. *)
Definition relative_to (root path : string) : option string :=
  let rp := Path_parts root in
  let pp := Path_parts path in
  if bool_decide (is_absolute root = is_absolute path)
     && bool_decide (take (length rp) pp = rp)
  then Some (match drop (length rp) pp with
             | [] => "."
             | rest => join "/" rest
             end)
  else None.

(** The kinds of change a watcher reports. *)
Inductive change := Created | Modified | Deleted | Moved.

(** [_on_local_event(side, event_type, src_path, dest_path)]. *)
Definition _on_local_event (s : side) (event_type : change) (src_path dest_path : string) : M unit :=
  root <- gets (fun r => ep_root (endpoints r s));;
  match relative_to root src_path with
  | None => ret tt
  | Some rel_src =>
      suppressed <- _is_suppressed s rel_src;;
      if suppressed then ret tt
      else
        try_except
          (match event_type with
           | Moved =>
               if nonempty dest_path then
                 t <- time_now;;
                 _handle_meta_change s rel_src None true t None;;;
                 match relative_to root dest_path with
                 | None => ret tt
                 | Some rel_dest =>
                     m <- get_meta s rel_dest;;
                     match m with
                     | Some m =>
                         t <- time_now;;
                         _handle_meta_change s rel_dest (Some m) false t None;;;
                         ret tt
                     | None => ret tt
                     end
                 end
               else
                 m <- get_meta s rel_src;;
                 match m with
                 | Some m =>
                     t <- time_now;;
                     _handle_meta_change s rel_src (Some m) false t None;;;
                     ret tt
                 | None => ret tt
                 end
           | Deleted =>
               t <- time_now;;
               _handle_meta_change s rel_src None true t None;;;
               ret tt
           | _ =>
               m <- get_meta s rel_src;;
               match m with
               | Some m =>
                   t <- time_now;;
                   _handle_meta_change s rel_src (Some m) false t None;;;
                   ret tt
               | None => ret tt
               end
           end)
          (fun _ => ret tt)
  end.

(** [_on_remote_event(side, event_type, rel_path)]. *)
Definition _on_remote_event (s : side) (event_type : change) (rel_path : string) : M unit :=
  suppressed <- _is_suppressed s rel_path;;
  if suppressed then ret tt
  else
    try_except
      (match event_type with
       | Deleted =>
           t <- time_now;;
           _handle_meta_change s rel_path None true t None;;;
           ret tt
       | _ =>
           m <- get_meta s rel_path;;
           match m with
           | Some m =>
               t <- time_now;;
               _handle_meta_change s rel_path (Some m) false t None;;;
               ret tt
           | None => ret tt
           end
       end)
      (fun _ => ret tt).

(** ** The poll scan *)

(** The first loop of [_scan_endpoint]: every listed file is observed.
    The result is the early [return] value, if the stop signal was seen,
    with the counters and the budget. *)
Fixpoint scan_present (s : side) (now : Z) (items : list (string * meta))
    (scanned : nat) (seen_paths : gset string) (hash_budget : option Z)
    : M (bool * nat * gset string * option Z) :=
  match items with
  | [] => ret (false, scanned, seen_paths, hash_budget)
  | (rel_path, m) :: rest =>
      stop <- gets _stop_event;;
      if stop then ret (true, scanned, seen_paths, hash_budget)
      else
        hash_budget <- _handle_meta_change s rel_path (Some m) false now hash_budget;;
        scan_present s now rest (S scanned) ({[rel_path]} ∪ seen_paths) hash_budget
  end.

(** The second loop: the known paths the listing did not show. *)
Fixpoint scan_missing (s : side) (now : Z) (state_snapshot : gmap string file_state)
    (missing : list string) (hash_budget : option Z) : M unit :=
  match missing with
  | [] => ret tt
  | rel_path :: rest =>
      stop <- gets _stop_event;;
      if stop then ret tt
      else
        let state := default zero_state (state_snapshot !! rel_path) in
        if negb (meta_truthy (side_meta s state))
           && negb (side_deleted s state)
           && negb (has_key (side_seen_at s state))
        then scan_missing s now state_snapshot rest hash_budget
        else
          hash_budget <- _handle_meta_change s rel_path None true now hash_budget;;
          scan_missing s now state_snapshot rest hash_budget
  end.

(** [_scan_endpoint(side, endpoint)]: the pair [(scanned, missing)]. *)
Definition _scan_endpoint (s : side) : M (nat * nat) :=
  now <- time_now;;
  let hash_budget := Some _hash_budget_per_scan in
  state_snapshot <- gets _state_cache;;
  let known_paths := dom state_snapshot in
  items <- iter_files s;;
  first <- scan_present s now items 0%nat ∅ hash_budget;;
  let '(stopped, scanned, seen_paths, hash_budget) := first in
  if (stopped : bool) then ret (scanned, 0%nat)
  else
    let missing := elements (known_paths ∖ seen_paths) in
    scan_missing s now state_snapshot missing hash_budget;;;
    ret (scanned, length missing).

(** ** The sync decision and its execution *)

(** The dict returned by [_prepare_sync_task]. *)
Record sync_task := {
  task_winner : side;
  task_loser : side;
  task_rel_path : string
}.

(** [seen and (not last_sync or seen > last_sync)]. *)
Definition changed_since (last_sync seen : option Z) : bool :=
  match seen with
  | None => false
  | Some t => match last_sync with None => true | Some ls => ls <? t end
  end.

(** [_prepare_sync_task(rel_path)]. *)
Definition _prepare_sync_task (rel_path : string) : M (option sync_task) :=
  ready <- gets _init_done;;
  if negb ready then ret None
  else
    state <- gets (fun r => _state_cache r !! rel_path);;
    match state with
    | None => ret None
    | Some state =>
        let last_sync := last_sync_at state in
        let a_changed := changed_since last_sync (a_seen_at state) in
        let b_changed := changed_since last_sync (b_seen_at state) in
        if negb a_changed && negb b_changed then ret None
        else
          let winner :=
            if a_changed && b_changed then
              if default 0 (b_seen_at state) <=? default 0 (a_seen_at state)
              then A else B
            else if a_changed then A
            else B in
          let loser := match winner with A => B | B => A end in
          ret (Some {| task_winner := winner; task_loser := loser;
                       task_rel_path := rel_path |})
    end.

(** [_copy_between(src_ep, dst_ep, rel_path)]. *)
Definition _copy_between (src dst : side) (rel_path : string) : M unit :=
  ks <- kind_of src;;
  kd <- kind_of dst;;
  eol <- gets eol_normalize;;
  let raw := match eol with Eol_keep => true | _ => negb (_is_text_path rel_path) end in
  match ks, kd with
  | Local, Local =>
      if raw then LocalEndpoint_copy_file dst (_abs_path src rel_path) rel_path
      else
        content <- read_bytes src rel_path;;
        write_bytes dst rel_path (_normalize_bytes content eol)
  | Local, Ssh =>
      if raw then SshEndpoint_upload_file dst (_abs_path src rel_path) rel_path
      else
        content <- read_bytes src rel_path;;
        write_bytes dst rel_path (_normalize_bytes content eol)
  | Ssh, Local =>
      if raw then SshEndpoint_download_file src rel_path (_abs_path dst rel_path)
      else
        content <- read_bytes src rel_path;;
        write_bytes dst rel_path (_normalize_bytes content eol)
  | Ssh, Ssh =>
      content <- read_bytes src rel_path;;
      let content := if negb raw then _normalize_bytes content eol else content in
      write_bytes dst rel_path content
  end.

(** The counters of [sync_all]. *)
Record stats := { synced : Z; skipped : Z; failed : Z }.

Definition count_synced (st : option stats) : option stats :=
  match st with
  | Some c => Some {| synced := synced c + 1; skipped := skipped c; failed := failed c |}
  | None => None
  end.

Definition count_failed (st : option stats) : option stats :=
  match st with
  | Some c => Some {| synced := synced c; skipped := skipped c; failed := failed c + 1 |}
  | None => None
  end.

(** The re-stat of the loser after the copy: its meta, with the hash when
    one could be computed, and a cleared tombstone. *)
Definition restat_loser (loser : side) (rel_path : string) : M (meta * bool) :=
  m <- get_meta loser rel_path;;
  let new_loser_meta := default empty_meta m in
  if meta_truthy new_loser_meta then
    new_hash <- _compute_hash loser rel_path;;
    ret (if str_truthy new_hash
         then with_hash new_loser_meta (default "" new_hash)
         else new_loser_meta, false)
  else ret (new_loser_meta, false).

(** The body of the [try] of [_sync_side] up to the new loser meta and
    tombstone. *)
Definition sync_side_transfer (winner loser : side) (rel_path ts : string)
    (state : file_state) : M (meta * bool) :=
  let winner_deleted := side_deleted winner state in
  let winner_meta := side_meta winner state in
  let loser_meta := side_meta loser state in
  let loser_deleted := side_deleted loser state in
  if winner_deleted then
    when (negb loser_deleted && meta_truthy loser_meta)
      (move_to_trash loser rel_path ts;;;
       _mark_suppressed loser rel_path);;;
    ret (empty_meta, true)
  else
    when (meta_truthy loser_meta && negb loser_deleted)
      (when (_meta_changed loser_meta (Some winner_meta))
         (backup_file loser rel_path ts));;;
    _copy_between winner loser rel_path;;;
    _mark_suppressed loser rel_path;;;
    restat_loser loser rel_path.

(** [_sync_side(winner, loser, rel_path, stats)]; the counters are
    returned as the call leaves them. *)
Definition _sync_side (winner loser : side) (rel_path : string) (st : option stats)
    : M (option stats) :=
  state <- gets (fun r => default zero_state (_state_cache r !! rel_path));;
  let winner_deleted := side_deleted winner state in
  now <- time_now;;
  let ts := strftime now in
  try_except
    (emit (EvSync winner loser rel_path);;;
     fresh <- sync_side_transfer winner loser rel_path ts state;;
     state <- gets (fun r => default zero_state (_state_cache r !! rel_path));;
     store_row rel_path
       (set_synced winner now (set_side loser (fst fresh) (snd fresh) now state));;;
     create_log {| event_type := if winner_deleted then "deleted" else "modified";
                   file_path := rel_path; dest_path := None;
                   status := Success; error_message := None |};;;
     ret (count_synced st))
    (fun e =>
       create_log {| event_type := "modified";
                     file_path := rel_path; dest_path := None;
                     status := Failed; error_message := Some (exn_msg e) |};;;
       ret (count_failed st)).

(** ** The initial baseline *)

Definition seed_only (s : side) (m : meta) (now : Z) : file_state :=
  set_side_seen_at s (Some now)
    (set_side_deleted (other s) true (set_side_meta s m zero_state)).

Definition seed_both (ma mb : meta) (now : Z) : file_state :=
  {| a_meta := ma; b_meta := mb; a_deleted := false; b_deleted := false;
     a_seen_at := Some now; b_seen_at := Some now;
     last_winner := None; last_sync_at := Some now |}.

(** Truth value of [files.get(rel_path)]. *)
Definition listed (m : option meta) : bool :=
  match m with Some m => meta_truthy m | None => false end.

(** The body of the loop of [_initial_sync] for one path. *)
Definition initial_sync_path (now : Z) (a_files b_files : gmap string meta)
    (rel_path : string) (st : option stats) : M (option stats) :=
  let a_meta := a_files !! rel_path in
  let b_meta := b_files !! rel_path in
  if listed a_meta && negb (listed b_meta) then
    store_row rel_path (seed_only A (default empty_meta a_meta) now);;;
    _sync_side A B rel_path st
  else if listed b_meta && negb (listed a_meta) then
    store_row rel_path (seed_only B (default empty_meta b_meta) now);;;
    _sync_side B A rel_path st
  else if listed a_meta && listed b_meta then
    store_row rel_path
      (seed_both (default empty_meta a_meta) (default empty_meta b_meta) now);;;
    ret st
  else ret st.

(** The loop of [_initial_sync] over [all_paths]. *)
Fixpoint initial_sync_loop (now : Z) (a_files b_files : gmap string meta)
    (all_paths : list string) (st : option stats) : M (option stats) :=
  match all_paths with
  | [] => ret st
  | rel_path :: rest =>
      stop <- gets _stop_event;;
      if stop then ret st
      else
        st <- initial_sync_path now a_files b_files rel_path st;;
        initial_sync_loop now a_files b_files rest st
  end.

(** [_initial_sync(stats)]. *)
Definition _initial_sync (st : option stats) : M (option stats) :=
  a_files <- list_files A;;
  stop <- gets _stop_event;;
  if stop then ret st
  else
    b_files <- list_files B;;
    now <- time_now;;
    let all_paths := elements (dom a_files ∪ dom b_files) in
    initial_sync_loop now a_files b_files all_paths st.

(** [sync_all(force)]. *)
Definition sync_all (force : bool) : M stats :=
  st <- _initial_sync (Some {| synced := 0; skipped := 0; failed := 0 |});;
  ret (default {| synced := 0; skipped := 0; failed := 0 |} st).

End Runner.

(** ** [backend/core/eol_normalizer.py] and the one-way engine

    Their files live in the same kind of tree; an absolute path is again
    a tree and a path inside it. *)

(** [normalize_line_endings(file_path, target, in_place)]. *)
Definition normalize_line_endings (file_path : side * string) (target : eol)
    (in_place : bool) : M (option bytes) :=
  match target with
  | Eol_keep =>
      if in_place then ret None
      else f <- os_read (fst file_path) (snd file_path);; ret (Some (f_data f))
  | _ =>
      f <- try_except (os_read (fst file_path) (snd file_path))
             (fun e => raise IOError ("read failed: " +:+ exn_msg e));;
      let normalized := bytes_replace [CR; LF] [LF] (f_data f) in
      let normalized := bytes_replace [CR] [LF] normalized in
      let normalized :=
        match target with
        | Eol_crlf => bytes_replace [LF] [CR; LF] normalized
        | _ => normalized
        end in
      if in_place then
        try_except
          (os_create (fst file_path) (snd file_path) normalized;;; ret None)
          (fun e => raise IOError ("write failed: " +:+ exn_msg e))
      else ret (Some normalized)
  end.

Module LocalSyncEngine.

(** [LocalSyncEngine._handle_delete(target)]. *)
Definition _handle_delete (target : side * string) : M unit :=
  present <- os_exists (fst target) (snd target);;
  if present then os_unlink (fst target) (snd target)
  else ret tt.

End LocalSyncEngine.

(** ** Sample configurations

    Concrete endpoints, runners and a host on which the statements of
    Part II are evaluated. *)

Definition sample_endpoint (k : ep_kind) (fs : gmap string file) : endpoint :=
  {| ep_type := k; ep_root := "/srv/data";
     exclude_patterns := []; file_extensions := [];
     trash_dir := ".tongbu_trash"; backup_dir := ".tongbu_backup";
     ep_files := fs; ep_denied := ∅; ep_online := true |}.

Definition filtering_endpoint : endpoint :=
  {| ep_type := Local; ep_root := "/srv/data";
     exclude_patterns := ["*.pyc"; "__pycache__"; "docs/*.tmp"];
     file_extensions := [".py"; ".md"];
     trash_dir := ".tongbu_trash"; backup_dir := ".tongbu_backup";
     ep_files := ∅; ep_denied := ∅; ep_online := true |}.

Definition meta_1 : meta :=
  {| size := Some 3; mtime := Some 1700000000000000; hash := Some "h1" |}.

Definition meta_2 : meta :=
  {| size := Some 3; mtime := Some 1700000000000000; hash := Some "h2" |}.

Definition sample_clock (n : nat) : Z := 1700000000000000 + 1000 * Z.of_nat n.

Definition sample_runner (a b : endpoint) (cache : gmap string file_state) : runner :=
  {| eol_normalize := Eol_lf; ep_a := a; ep_b := b;
     _init_done := true; _stop_event := false;
     _state_cache := cache;
     _suppress_a := ∅; _suppress_b := ∅;
     _batch_queue := []; _batch_event := false;
     sync_file_state := cache; sync_logs := [];
     clock := sample_clock; clock_reads := 0; trace := [] |}.

(** A host whose "digest" is the data itself and whose time token is
    constant. *)
#[local] Instance sample_host : Host :=
  {| hexdigest := string_of_list_byte;
     strftime := fun _ => "20240101_000000" |}.

(** Both sides changed after the last sync; B was seen last. *)
Definition conflict_state : file_state :=
  {| a_meta := meta_1; b_meta := meta_2;
     a_deleted := false; b_deleted := false;
     a_seen_at := Some 20; b_seen_at := Some 30;
     last_winner := None; last_sync_at := Some 10 |}.

Definition conflict_runner : runner :=
  sample_runner (sample_endpoint Local ∅) (sample_endpoint Local ∅)
    {[ "f.txt" := conflict_state ]}.

(** The [failed] row that [_sync_side] appends for the exception [e]. *)
Definition failed_entry (rel_path : string) (e : exn) : sync_log :=
  {| event_type := "modified"; file_path := rel_path; dest_path := None;
     status := Failed; error_message := Some (exn_msg e) |}.

Definition text_file (data : bytes) : file :=
  {| f_data := data; f_mtime := 1690000000000000 |}.

(** "abc" followed by a line feed. *)
Definition abc_lf : bytes := [x61; x62; x63; x0a].

Definition meta_abc : meta :=
  {| size := Some 4; mtime := Some 1690000000000000;
     hash := Some (string_of_list_byte abc_lf) |}.

(** Side A holds the file and was seen after the last sync; side B has
    never had it. *)
Definition a_only_state : file_state :=
  {| a_meta := meta_abc; b_meta := empty_meta;
     a_deleted := false; b_deleted := true;
     a_seen_at := Some 20; b_seen_at := None;
     last_winner := None; last_sync_at := Some 10 |}.

(** A local B that refuses to open ["f.txt"]. *)
Definition refusing_endpoint : endpoint :=
  {| ep_type := Local; ep_root := "/srv/data";
     exclude_patterns := []; file_extensions := [];
     trash_dir := ".tongbu_trash"; backup_dir := ".tongbu_backup";
     ep_files := ∅; ep_denied := {[ "f.txt" ]}; ep_online := true |}.

Definition refused_runner : runner :=
  sample_runner (sample_endpoint Local {[ "f.txt" := text_file abc_lf ]})
    refusing_endpoint {[ "f.txt" := a_only_state ]}.

(** Side A deleted the file; side B, a remote endpoint whose session is
    down, still holds it. *)
Definition a_deleted_state : file_state :=
  {| a_meta := empty_meta; b_meta := meta_abc;
     a_deleted := true; b_deleted := false;
     a_seen_at := Some 20; b_seen_at := Some 5;
     last_winner := None; last_sync_at := Some 10 |}.

Definition offline_endpoint : endpoint :=
  {| ep_type := Ssh; ep_root := "/srv/data";
     exclude_patterns := []; file_extensions := [];
     trash_dir := ".tongbu_trash"; backup_dir := ".tongbu_backup";
     ep_files := {[ "f.txt" := text_file abc_lf ]};
     ep_denied := ∅; ep_online := false |}.

Definition offline_runner : runner :=
  sample_runner (sample_endpoint Local ∅) offline_endpoint
    {[ "f.txt" := a_deleted_state ]}.

(** Both sides hold the same content and their metas carry the same
    hash; side A was seen after the last sync. *)
Definition both_equal_state : file_state :=
  {| a_meta := meta_abc; b_meta := meta_abc;
     a_deleted := false; b_deleted := false;
     a_seen_at := Some 20; b_seen_at := Some 5;
     last_winner := None; last_sync_at := Some 10 |}.

Definition equal_runner : runner :=
  sample_runner (sample_endpoint Local {[ "f.txt" := text_file abc_lf ]})
    (sample_endpoint Local {[ "f.txt" := text_file abc_lf ]})
    {[ "f.txt" := both_equal_state ]}.

(** ** Vocabulary of the statements *)

(** The events a computation added to the trace. *)
Definition new_events (r r' : runner) : list event :=
  drop (length (trace r)) (trace r').

(** The only change to a tree is a write of [rel_path] on side [l]. *)
Definition only_file_write (l : side) (rel_path : string) (e : event) : Prop :=
  match e with
  | EvWrite s q => s = l /\ q = rel_path
  | EvRemove _ _ => False
  | _ => True
  end.

(** The event changes the tree of side [l]. *)
Definition touches (l : side) (e : event) : Prop :=
  match e with
  | EvWrite s _ | EvRemove s _ => s = l
  | _ => False
  end.

Definition any_event (e : event) : Prop := True.

(** The row asks for a sync of a file that both sides hold with
    equivalent content: the winner holds it, the loser holds it, and the
    loser meta is not changed relative to the winner meta. *)
Definition content_equivalent (w : side) (state : file_state) : Prop :=
  side_deleted w state = false
  /\ meta_truthy (side_meta (other w) state) = true
  /\ side_deleted (other w) state = false
  /\ _meta_changed (side_meta (other w) state) (Some (side_meta w state)) = false.

(** C1 as it is worded: on such a row the engine writes no file on the
    loser. *)
Definition no_write_when_equivalent : Prop :=
  forall (host : Host) (r : runner) (w : side) (p : string) (st : option stats),
    content_equivalent w (default zero_state (_state_cache r !! p)) ->
    forall q, EvWrite (other w) q ∉
                new_events r (snd (_sync_side w (other w) p st r)).

(** C2 as it is worded: whatever changes the loser's tree comes right
    after a mark of the pair. *)
Definition marked_before (l : side) (rel_path : string) (evs : list event) : Prop :=
  forall pre e post,
    evs = pre ++ e :: post -> touches l e ->
    exists pre' until, pre = pre' ++ [EvMark l rel_path until].

Definition suppressed_before_write : Prop :=
  forall (host : Host) (r : runner) (w : side) (p : string) (st : option stats),
    marked_before (other w) p
      (new_events r (snd (_sync_side w (other w) p st r))).

(** Events other than a suppression mark. *)
Definition not_mark (e : event) : Prop :=
  match e with EvMark _ _ _ => False | _ => True end.

(** Events other than a change to a tree. *)
Definition not_fs (e : event) : Prop :=
  match e with EvWrite _ _ | EvRemove _ _ => False | _ => True end.

(** The mark of [(l, rel_path)] heads [post]: it was made at the [n]-th
    reading of the clock, runs for the suppression window from there, and
    is the entry the runner [r'] holds. *)
Definition mark_made (l : side) (rel_path : string) (r r' : runner)
    (post : list event) : Prop :=
  exists (n : nat) (post' : list event),
    (clock_reads r <= n)%nat
    /\ post = EvMark l rel_path (clock r n + _suppress_window) :: post'
    /\ Forall not_mark post'
    /\ _suppress r' l !! rel_path = Some (clock r n + _suppress_window).

(** The row makes the engine act on the loser's tree: the winner holds
    the file, or it deleted a file that the loser still holds. *)
Definition engine_touches (w : side) (state : file_state) : Prop :=
  side_deleted w state = false
  \/ (side_deleted (other w) state = false
      /\ meta_truthy (side_meta (other w) state) = true).

(** Events that neither change a tree nor mark a pair. *)
Definition quiet (e : event) : Prop := not_fs e /\ not_mark e.

(** The row gives evidence that side [s] once had the path: a meta, a
    tombstone or an observation time. *)
Definition has_evidence (s : side) (row : file_state) : Prop :=
  meta_truthy (side_meta s row) = true
  \/ side_deleted s row = true
  \/ is_Some (side_seen_at s row).

(** The rows the cache holds afterwards: the same, or the same with the
    row of [rel_path] replaced by one that [allowed] admits. *)
Definition row_update (allowed : file_state -> Prop) (rel_path : string)
    : relation runner := fun r r' =>
  _state_cache r' = _state_cache r
  \/ exists row, _state_cache r' = <[rel_path := row]> (_state_cache r)
                 /\ allowed row.

(** The rows [_handle_meta_change] may store for side [s]: the row it
    fetched with the side replaced, tombstoned only by a deletion, or
    with the meta of the side alone replaced. *)
Definition observed_row (s : side) (deleted : bool) (seen_at : Z)
    (state row : file_state) : Prop :=
  (exists m d, row = set_side s m d seen_at state /\ (d = true -> deleted = true))
  \/ (exists m, row = set_side_meta s m state).

(** Every tombstone of side [s] in the rows [c] goes back to a row of
    [c0] that had evidence for the side. *)
Definition tombstones_founded (s : side) (c0 c : gmap string file_state) : Prop :=
  forall p row',
    c !! p = Some row' -> side_deleted s row' = true ->
    exists row, c0 !! p = Some row /\ has_evidence s row.

(** Side B is a remote endpoint that holds no file at all.  The cache
    knows ["gone.txt"] from both sides and ["fresh.txt"] from side A
    only. *)
Definition known_both_state : file_state :=
  {| a_meta := meta_abc; b_meta := meta_abc;
     a_deleted := false; b_deleted := false;
     a_seen_at := Some 5; b_seen_at := Some 5;
     last_winner := Some A; last_sync_at := Some 10 |}.

Definition known_a_state : file_state :=
  {| a_meta := meta_abc; b_meta := empty_meta;
     a_deleted := false; b_deleted := false;
     a_seen_at := Some 20; b_seen_at := None;
     last_winner := None; last_sync_at := None |}.

Definition scan_runner : runner :=
  sample_runner
    (sample_endpoint Local
       {[ "gone.txt" := text_file abc_lf; "fresh.txt" := text_file abc_lf ]})
    (sample_endpoint Ssh ∅)
    {[ "gone.txt" := known_both_state; "fresh.txt" := known_a_state ]}.

(** Rows other than that of [rel_path] are the same in the cache and in
    the store. *)
Definition rows_elsewhere (rel_path : string) : relation runner := fun r r' =>
  forall p, p <> rel_path ->
    _state_cache r' !! p = _state_cache r !! p
    /\ sync_file_state r' !! p = sync_file_state r !! p.

(** The only hashes computed are hashes of [rel_path]. *)
Definition hashes_only (rel_path : string) (e : event) : Prop :=
  match e with EvHash _ p => p = rel_path | _ => True end.

(** What the baseline leaves for the path [p], given the two listings,
    the time [now] of the baseline, the runner [r'] it ends in and the
    events [new] it added. *)
Definition baseline_of (a_files b_files : gmap string meta) (now : Z)
    (p : string) (r' : runner) (new : list event) : Prop :=
  (forall ma, a_files !! p = Some ma -> b_files !! p = None ->
     exists pre post,
       new = pre ++ [EvSave p (seed_only A ma now); EvSync A B p] ++ post)
  /\ (forall mb, b_files !! p = Some mb -> a_files !! p = None ->
        exists pre post,
          new = pre ++ [EvSave p (seed_only B mb now); EvSync B A p] ++ post)
  /\ (forall ma mb, a_files !! p = Some ma -> b_files !! p = Some mb ->
        _state_cache r' !! p = Some (seed_both ma mb now)
        /\ sync_file_state r' !! p = Some (seed_both ma mb now)
        /\ forall s, EvHash s p ∉ new).

(** Side A holds ["x.txt"], side B holds ["y.txt"], both hold
    ["z.txt"]; nothing is known yet. *)
Definition baseline_runner : runner :=
  sample_runner
    (sample_endpoint Local
       {[ "x.txt" := text_file abc_lf; "z.txt" := text_file abc_lf ]})
    (sample_endpoint Local
       {[ "y.txt" := text_file abc_lf; "z.txt" := text_file [x61] ]})
    ∅.

Definition baseline_a_files : gmap string meta :=
  {[ "x.txt" := meta_of_file (text_file abc_lf);
     "z.txt" := meta_of_file (text_file abc_lf) ]}.

Definition baseline_b_files : gmap string meta :=
  {[ "y.txt" := meta_of_file (text_file abc_lf);
     "z.txt" := meta_of_file (text_file [x61]) ]}.

(** ** Further vocabulary: relations between runners *)

(** A byte string without a carriage return. *)
Definition no_cr (s : bytes) : Prop := Forall (fun c => c <> CR) s.

(** The reading of C5 as it is worded: a meta absent on either side makes
    the pair count as changed. *)
Definition absence_counts_as_changed : Prop :=
  forall (old : meta) (new : option meta),
    meta_truthy old = false \/ listed new = false ->
    _meta_changed old new = true.

(** The rule of C6 as it is worded, on the segments obtained by cutting
    the path at ["/"]. *)
Definition spec_excluded (ep : endpoint) (p : string) : Prop :=
  (exists seg, seg ∈ split_on "/" p /\ seg ∈ _internal_dirs ep)
  \/ (exists pat, pat ∈ exclude_patterns ep /\
        (fnmatch (default "" (last (split_on "/" p))) pat = true
         \/ pat ∈ split_on "/" p
         \/ fnmatch p pat = true))
  \/ (file_extensions ep <> [] /\ lower (Path_suffix p) ∉ file_extensions ep).

(** ** Relations that a computation respects

    [respects R m] says that [R] links the runner before [m] to the runner
    after it, whether [m] returns or raises. *)
Definition respects {X} (R : relation runner) (m : M X) : Prop :=
  forall r, R r (snd (m r)).

(** The rows (cache and store), the log and the queue are untouched. *)
Definition keeps_rows : relation runner := fun r r' =>
  _state_cache r' = _state_cache r
  /\ sync_file_state r' = sync_file_state r
  /\ sync_logs r' = sync_logs r
  /\ _batch_queue r' = _batch_queue r.

(** The runner as [_sync_side] has it when the transfer step starts. *)
Definition at_transfer (winner loser : side) (rel_path : string) (r : runner) : runner :=
  snd ((time_now;;; emit (EvSync winner loser rel_path)) r).

(** The configuration of an endpoint, as opposed to the files it holds. *)
Definition same_setup (ep ep' : endpoint) : Prop :=
  ep_type ep' = ep_type ep
  /\ ep_root ep' = ep_root ep
  /\ exclude_patterns ep' = exclude_patterns ep
  /\ file_extensions ep' = file_extensions ep
  /\ trash_dir ep' = trash_dir ep
  /\ backup_dir ep' = backup_dir ep
  /\ ep_denied ep' = ep_denied ep
  /\ ep_online ep' = ep_online ep.

(** [step Q r r']: [r'] comes after [r]; the configuration and the flags
    are the same, the clock was only read, every event added to the
    trace satisfies [Q], and the suppression marks are the same unless a
    mark was added. *)
Definition step (Q : event -> Prop) : relation runner := fun r r' =>
  clock r' = clock r
  /\ (clock_reads r <= clock_reads r')%nat
  /\ _stop_event r' = _stop_event r
  /\ _init_done r' = _init_done r
  /\ eol_normalize r' = eol_normalize r
  /\ (forall s, same_setup (endpoints r s) (endpoints r' s))
  /\ exists new, trace r' = trace r ++ new /\ Forall Q new
       /\ (Forall not_mark new -> forall s, _suppress r' s = _suppress r s).

(** *** Computations that are sure to emit an event when they return *)
Definition writes {X} (e : event) (m : M X) : Prop :=
  forall r x r', m r = (Ret x, r') ->
    exists new, trace r' = trace r ++ new /\ e ∈ new.

(** The value a computation returns, when it returns. *)
Definition returns {X} (P : X -> Prop) (m : M X) : Prop :=
  forall r x r', m r = (Ret x, r') -> P x.

Section Vocabulary.
Context {host : Host}.

(** What the transfer step comes to on such a row: no backup. *)
Definition transfer_without_backup (w : side) (p : string) : M (meta * bool) :=
  _copy_between w (other w) p;;;
  _mark_suppressed (other w) p;;;
  restat_loser (other w) p.

End Vocabulary.

(** ** More of [backend/core/eol_normalizer.py] *)

(** A line-break byte: a carriage return or a line feed. *)
Definition is_break (c : byte) : bool := Byte.eqb c CR || Byte.eqb c LF.

Definition has_line_break (s : bytes) : bool := existsb is_break s.

(** The bytes of [s] that are not line breaks, in their order. *)
Definition text_of (s : bytes) : bytes := List.filter (fun c => negb (is_break c)) s.

(** Every carriage return is followed by a line feed and every line feed
    follows a carriage return. *)
Fixpoint crlf_only (s : bytes) : bool :=
  match s with
  | [] => true
  | c :: t =>
      if Byte.eqb c CR then
        match t with
        | d :: t' => Byte.eqb d LF && crlf_only t'
        | [] => false
        end
      else negb (Byte.eqb c LF) && crlf_only t
  end.

Definition BINARY_EXTENSIONS : list string :=
  [".jpg"; ".jpeg"; ".png"; ".gif"; ".bmp"; ".webp"; ".ico";
   ".pdf";
   ".zip"; ".7z"; ".rar"; ".tar"; ".gz"; ".bz2"; ".xz";
   ".exe"; ".dll"; ".so"; ".dylib";
   ".whl"; ".jar";
   ".mp3"; ".wav"; ".flac"; ".mp4"; ".mkv"; ".avi"; ".mov";
   ".woff"; ".woff2"; ".ttf"; ".otf"].

(** [is_text_file(file_path)]: the extension lists, the special names,
    then the first 8192 bytes of the file. *)
Definition is_text_file (file_path : side * string) : M bool :=
  let ext := lower (Path_suffix (snd file_path)) in
  if bool_decide (ext ∈ BINARY_EXTENSIONS) then ret false
  else if bool_decide (ext ∈ TEXT_EXTENSIONS) then ret true
  else
    let special_names := ["Makefile"; "Dockerfile"; "Jenkinsfile"; "README"; "LICENSE"] in
    if bool_decide (Path_name (snd file_path) ∈ special_names) then ret true
    else
      try_except
        (f <- os_read (fst file_path) (snd file_path);;
         let chunk := take (Z.to_nat 8192) (f_data f) in
         if (length chunk =? 0)%nat then ret true
         else if existsb (Byte.eqb x00) chunk then ret false
         else ret true)
        (fun _ => ret false).

(** The left-to-right, non-overlapping scan of [bytes.count]. *)
Fixpoint count_from (sub : bytes) (skip : nat) (s : bytes) : nat :=
  match s with
  | [] => 0
  | c :: s' =>
      match skip with
      | S k => count_from sub k s'
      | O =>
          if starts_with sub s
          then S (count_from sub (length sub - 1) s')
          else count_from sub 0 s'
      end
  end.

(** [s.count(sub)].  With an empty [sub] Python counts the gaps. *)
Definition bytes_count (sub s : bytes) : Z :=
  match sub with
  | [] => Z.of_nat (length s) + 1
  | _ :: _ => Z.of_nat (count_from sub 0 s)
  end.

(** The verdict of [detect_line_ending] on the content it has read. *)
Definition line_ending_of (content : bytes) : string :=
  let crlf_count := bytes_count [CR; LF] content in
  let lf_count := bytes_count [LF] content - crlf_count in
  let cr_count := bytes_count [CR] content - crlf_count in
  if (0 <? crlf_count) && (lf_count =? 0) && (cr_count =? 0) then "crlf"
  else if (0 <? lf_count) && (crlf_count =? 0) && (cr_count =? 0) then "lf"
  else if (0 <? cr_count) && (crlf_count =? 0) && (lf_count =? 0) then "cr"
  else "mixed".

(** [detect_line_ending(file_path)]. *)
Definition detect_line_ending (file_path : side * string) : M string :=
  try_except
    (f <- os_read (fst file_path) (snd file_path);;
     ret (line_ending_of (f_data f)))
    (fun _ => ret "unknown").

Section Hashing.
Context {host : Host}.

(** [calculate_file_hash_normalized(file_path, eol_mode)] with the
    default algorithm. *)
Definition calculate_file_hash_normalized (file_path : side * string) (eol_mode : eol)
    : M string :=
  raw <- match eol_mode with
         | Eol_keep => ret true
         | _ => t <- is_text_file file_path;; ret (negb t)
         end;;
  if (raw : bool) then
    f <- os_read (fst file_path) (snd file_path);;
    ret (hexdigest (f_data f))
  else
    normalized_content <- normalize_line_endings file_path eol_mode false;;
    ret (hexdigest (default [] normalized_content)).

End Hashing.
(** Side A holds ["f.txt"] with CR LF line ends. *)
Definition abc_crlf : bytes := [x61; x62; x63; x0d; x0a].

Definition crlf_runner : runner :=
  sample_runner (sample_endpoint Local {[ "f.txt" := text_file abc_crlf ]})
    (sample_endpoint Local ∅) ∅.

(** ** Vocabulary for the effects on the trees *)

(** What a copy delivers for the content [data] of [rel_path] under the
    policy [target]: the content itself, or its normal form when the
    policy applies to the path. *)
Definition delivered (target : eol) (rel_path : string) (data : bytes) : bytes :=
  match target with
  | Eol_keep => data
  | _ => if _is_text_path rel_path then _normalize_bytes data target else data
  end.

(** [r'] is [r] with the tree of side [s] changed by [g]; the other tree,
    the configuration of both endpoints and the policy are the same. *)
Definition tree_change (s : side) (g : gmap string file -> gmap string file)
    : relation runner := fun r r' =>
  ep_files (endpoints r' s) = g (ep_files (endpoints r s))
  /\ ep_files (endpoints r' (other s)) = ep_files (endpoints r (other s))
  /\ (forall s', same_setup (endpoints r s') (endpoints r' s'))
  /\ eol_normalize r' = eol_normalize r.

(** The file that a read of [p] through the endpoint of side [s] gets:
    it is there, the system lets it be opened and, for a remote endpoint,
    the session is alive. *)
Definition readable (r : runner) (s : side) (p : string) : option file :=
  match ep_files (endpoints r s) !! p with
  | Some f =>
      if bool_decide (p ∈ ep_denied (endpoints r s)) then None
      else match ep_type (endpoints r s) with
           | Ssh => if ep_online (endpoints r s) then Some f else None
           | Local => Some f
           end
  | None => None
  end.

(** The data of [f] is safe on side [s]: the file is still at [p], or it
    is gone from [p] and a file with its content is at [dst]. *)
Definition data_kept (s : side) (p dst : string) (f : file) (r' : runner) : Prop :=
  ep_files (endpoints r' s) !! p = Some f
  \/ (ep_files (endpoints r' s) !! p = None
      /\ exists f', ep_files (endpoints r' s) !! dst = Some f'
                    /\ f_data f' = f_data f).

(** Nothing but [p] and [dst] on side [s] has changed. *)
Definition elsewhere_same (s : side) (p dst : string) (r r' : runner) : Prop :=
  ep_files (endpoints r' (other s)) = ep_files (endpoints r (other s))
  /\ forall q, q <> p -> q <> dst ->
       ep_files (endpoints r' s) !! q = ep_files (endpoints r s) !! q.

(** ** Vocabulary: what a computation may do to the trees *)

(** The two endpoints, files and configuration, are the same. *)
Definition same_trees : relation runner := fun r r' =>
  ep_a r' = ep_a r /\ ep_b r' = ep_b r.

(** Between [r] and [r'] the configuration of the endpoints is the same,
    the tree of the side other than [l] is the same, and on side [l] only
    paths that [allowed] admits may differ. *)
Definition touches_only (l : side) (allowed : string -> Prop) : relation runner :=
  fun r r' =>
    (forall s, same_setup (endpoints r s) (endpoints r' s))
    /\ ep_files (endpoints r' (other l)) = ep_files (endpoints r (other l))
    /\ forall q, ~ allowed q ->
         ep_files (endpoints r' l) !! q = ep_files (endpoints r l) !! q.

(** A relation between runners that only looks at the endpoints: it holds
    whenever they are the same. *)
Class OnTrees (R : relation runner) : Prop :=
  on_trees : forall r r', ep_a r' = ep_a r -> ep_b r' = ep_b r -> R r r'.
(** The paths a single-path sync of [p] stamped [ts] may write on the
    loser [l], as the runner [r] is configured. *)
Definition sync_paths (r : runner) (l : side) (p ts : string) (q : string) : Prop :=
  q = p
  \/ q = stamped_path (trash_dir (endpoints r l)) ts p
  \/ q = stamped_path (backup_dir (endpoints r l)) ts p.

(* ===================================================================== *)
(** * Part II: properties                                                 *)
(* ===================================================================== *)

(** ** Line endings *)

Lemma replace_cr_map s :
  bytes_replace [CR] [LF] s = map (fun c => if Byte.eqb CR c then LF else c) s.
Proof.
  unfold bytes_replace.
  induction s as [|c s IH]; simpl; [reflexivity|].
  rewrite andb_true_r. destruct (Byte.eqb CR c); simpl; now rewrite IH.
Qed.

Lemma replace_cr_no_cr s : no_cr (bytes_replace [CR] [LF] s).
Proof.
  rewrite replace_cr_map. unfold no_cr.
  induction s as [|c s IH]; simpl; constructor; [|exact IH].
  destruct (Byte.eqb CR c) eqn:E; [discriminate|].
  intros ->. now rewrite (byte_dec_lb eq_refl) in E.
Qed.

Lemma eqb_cr_false c : c <> CR -> Byte.eqb CR c = false.
Proof.
  intros Hc. destruct (Byte.eqb CR c) eqn:E; [|reflexivity].
  apply byte_dec_bl in E. congruence.
Qed.

Lemma replace_cr_id s : no_cr s -> bytes_replace [CR] [LF] s = s.
Proof.
  rewrite replace_cr_map. induction 1 as [|c s Hc _ IH]; simpl; [reflexivity|].
  now rewrite (eqb_cr_false c Hc), IH.
Qed.

Lemma replace_crlf_id s : no_cr s -> bytes_replace [CR; LF] [LF] s = s.
Proof.
  unfold bytes_replace. induction 1 as [|c s Hc _ IH]; simpl; [reflexivity|].
  now rewrite (eqb_cr_false c Hc), IH.
Qed.

Lemma replace_lf_expand s :
  bytes_replace [LF] [CR; LF] s
  = flat_map (fun c => if Byte.eqb LF c then [CR; LF] else [c]) s.
Proof.
  unfold bytes_replace.
  induction s as [|c s IH]; simpl; [reflexivity|].
  rewrite andb_true_r. destruct (Byte.eqb LF c); simpl; now rewrite IH.
Qed.

Lemma fold_crlf_hit t :
  replace_from [CR; LF] [LF] 0 (CR :: LF :: t) = LF :: replace_from [CR; LF] [LF] 0 t.
Proof. reflexivity. Qed.

Lemma fold_crlf_miss c t :
  c <> CR ->
  replace_from [CR; LF] [LF] 0 (c :: t) = c :: replace_from [CR; LF] [LF] 0 t.
Proof. intros Hc. simpl. now rewrite (eqb_cr_false c Hc). Qed.

Lemma fold_after_expand s :
  no_cr s -> bytes_replace [CR; LF] [LF] (bytes_replace [LF] [CR; LF] s) = s.
Proof.
  rewrite replace_lf_expand. unfold bytes_replace.
  induction 1 as [|c s Hc _ IH]; [reflexivity|].
  cbn [flat_map]. destruct (Byte.eqb LF c) eqn:E.
  - apply byte_dec_bl in E. subst c.
    change ([CR; LF] ++ ?t) with (CR :: LF :: t).
    now rewrite fold_crlf_hit, IH.
  - change ([c] ++ ?t) with (c :: t).
    now rewrite (fold_crlf_miss c _ Hc), IH.
Qed.

(** C7.  Normalising line endings is idempotent: for every byte string
    [x] and every policy [p] among lf, crlf and keep,
    [normalize (normalize x p) p = normalize x p]. *)
Theorem normalize_bytes_idempotent (x : bytes) (p : eol) :
  _normalize_bytes (_normalize_bytes x p) p = _normalize_bytes x p.
Proof.
  destruct p; cbn [_normalize_bytes].
  - pose proof (replace_cr_no_cr (bytes_replace [CR; LF] [LF] x)) as H.
    now rewrite (replace_crlf_id _ H), (replace_cr_id _ H).
  - pose proof (replace_cr_no_cr (bytes_replace [CR; LF] [LF] x)) as H.
    now rewrite (fold_after_expand _ H), (replace_cr_id _ H).
  - reflexivity.
Qed.

(** The file-based normaliser returns what [_normalize_bytes] computes. *)
Lemma normalize_line_endings_returns (file_path : side * string) (target : eol)
    (r : runner) (f : file) :
  target <> Eol_keep ->
  ep_files (endpoints r (fst file_path)) !! snd file_path = Some f ->
  snd file_path ∉ ep_denied (endpoints r (fst file_path)) ->
  normalize_line_endings file_path target false r
  = (Ret (Some (_normalize_bytes (f_data f) target)), r).
Proof.
  intros Hk Hf Hd.
  destruct target; [| |congruence];
    unfold normalize_line_endings, try_except, os_read, files_of, denied,
      bind, gets, ret, raise;
    rewrite Hf, (bool_decide_eq_false_2 _ Hd); reflexivity.
Qed.

(** ** Meta comparison *)

Lemma meta_changed_both_absent : _meta_changed empty_meta None = false.
Proof. reflexivity. Qed.

(** C5, counterexample: with no meta on either side [_meta_changed]
    answers "unchanged". *)
Lemma meta_changed_absence_counterexample : ~ absence_counts_as_changed.
Proof.
  intros H. specialize (H empty_meta None (or_introl eq_refl)).
  rewrite meta_changed_both_absent in H. discriminate.
Qed.

(** C5, amended.  For every pair of metas: when both are absent the
    answer is "unchanged"; when exactly one is absent it is "changed";
    when both are present and both carry a hash the hashes are compared;
    otherwise size and mtime are compared. *)
Theorem meta_changed_cases (old : meta) (new : option meta) :
  let new' := default empty_meta new in
  (meta_truthy old = false -> listed new = false ->
     _meta_changed old new = false) /\
  (meta_truthy old <> listed new -> _meta_changed old new = true) /\
  (meta_truthy old = true -> listed new = true ->
     str_truthy (hash old) = true -> str_truthy (hash new') = true ->
     (_meta_changed old new = true <-> hash old <> hash new')) /\
  (meta_truthy old = true -> listed new = true ->
     str_truthy (hash old) && str_truthy (hash new') = false ->
     (_meta_changed old new = true <->
        size old <> size new' \/ mtime old <> mtime new')).
Proof.
  assert (Hl : listed new = meta_truthy (default empty_meta new))
    by (destruct new; reflexivity).
  cbn zeta. rewrite Hl. unfold _meta_changed.
  set (n := default empty_meta new).
  split; [|split; [|split]].
  - intros -> ->. reflexivity.
  - intros Hne. destruct (meta_truthy old), (meta_truthy n); cbn; congruence.
  - intros -> -> -> ->. cbn.
    rewrite negb_true_iff, bool_decide_eq_false. tauto.
  - intros -> -> ->. cbn.
    rewrite orb_true_iff, !negb_true_iff, !bool_decide_eq_false. tauto.
Qed.

Lemma meta_changed_cases_witness :
  _meta_changed meta_1 (Some meta_2) = true /\ _meta_changed meta_1 None = true.
Proof.
  destruct (meta_changed_cases meta_1 (Some meta_2)) as (_ & _ & Hh & _).
  destruct (meta_changed_cases meta_1 None) as (_ & Ha & _).
  split.
  - apply Hh; [reflexivity | reflexivity | reflexivity | reflexivity | discriminate].
  - apply Ha. discriminate.
Defined.

(** ** The sync decision *)

Section Decision.
Context {host : Host}.

(** C3.  When both sides of a row were seen after the last sync, the side
    seen last wins, and side A wins a tie.  The decision reads the runner
    and leaves it as it was. *)
Theorem prepare_sync_task_last_writer_wins
    (r : runner) (rel_path : string) (state : file_state) (ta tb ls : Z) :
  _init_done r = true ->
  _state_cache r !! rel_path = Some state ->
  a_seen_at state = Some ta ->
  b_seen_at state = Some tb ->
  last_sync_at state = Some ls ->
  ls < ta -> ls < tb ->
  exists w : side,
    _prepare_sync_task rel_path r
    = (Ret (Some {| task_winner := w; task_loser := other w;
                    task_rel_path := rel_path |}), r)
    /\ (tb < ta -> w = A)
    /\ (ta < tb -> w = B)
    /\ (ta = tb -> w = A).
Proof.
  intros Hready Hrow Ha Hb Hls Hlta Hltb.
  unfold _prepare_sync_task, bind, gets, ret. cbn beta.
  rewrite Hready. cbn. rewrite Hrow, Ha, Hb, Hls. cbn.
  rewrite (proj2 (Z.ltb_lt ls ta) Hlta), (proj2 (Z.ltb_lt ls tb) Hltb). cbn.
  destruct (tb <=? ta) eqn:E.
  - exists A. apply Z.leb_le in E. repeat split; (reflexivity || lia).
  - exists B. apply Z.leb_gt in E. repeat split; (reflexivity || lia).
Qed.

End Decision.

Lemma prepare_sync_task_witness :
  exists w : side,
    _prepare_sync_task "f.txt" conflict_runner
    = (Ret (Some {| task_winner := w; task_loser := other w;
                    task_rel_path := "f.txt" |}), conflict_runner)
    /\ (30 < 20 -> w = A) /\ (20 < 30 -> w = B) /\ (20 = 30 -> w = A).
Proof.
  apply (prepare_sync_task_last_writer_wins conflict_runner "f.txt"
           conflict_state 20 30 10);
    [reflexivity | reflexivity | reflexivity | reflexivity | reflexivity | lia | lia].
Defined.

(** ** The path filter *)

Lemma replace_char_same a s : replace_char a a s = s.
Proof.
  induction s as [|c s IH]; simpl; [reflexivity|].
  rewrite IH. destruct (Ascii.eqb c a) eqn:E; [|reflexivity].
  apply Ascii.eqb_eq in E. now subst.
Qed.

Lemma internal_check_spec (dirs parts : list string) :
  existsb (fun p => bool_decide (p ∈ dirs)) parts = true
  <-> exists seg, seg ∈ parts /\ seg ∈ dirs.
Proof.
  rewrite existsb_exists. split.
  - intros (seg & Hin & Hd). exists seg. split.
    + now apply list_elem_of_In.
    + now apply bool_decide_eq_true in Hd.
  - intros (seg & Hin & Hd). exists seg. split.
    + now apply list_elem_of_In.
    + now apply bool_decide_eq_true.
Qed.

Lemma should_exclude_loop_spec (name path_str : string) (patterns : list string) :
  should_exclude_loop name path_str patterns = true
  <-> exists pat, pat ∈ patterns /\
        (fnmatch name pat = true \/ pat ∈ split_on "/" path_str
         \/ fnmatch path_str pat = true).
Proof.
  induction patterns as [|pat rest IH]; simpl.
  - split; [discriminate|]. intros (pat & Hin & _). now apply elem_of_nil in Hin.
  - destruct (fnmatch name pat) eqn:E1.
    { split; [|reflexivity]. intros _. exists pat. split; [left|]; auto. }
    destruct (bool_decide (pat ∈ split_on os_sep path_str)) eqn:E2.
    { apply bool_decide_eq_true in E2.
      split; [|reflexivity]. intros _. exists pat. split; [left|]; auto. }
    apply bool_decide_eq_false in E2.
    destruct (fnmatch path_str pat) eqn:E3.
    { split; [|reflexivity]. intros _. exists pat. split; [left|]; auto. }
    rewrite IH. split.
    + intros (q & Hin & Hq). exists q. split; [now right|exact Hq].
    + intros (q & Hin & Hq). apply elem_of_cons in Hin as [->|Hin].
      * destruct Hq as [Hq|[Hq|Hq]]; [congruence | contradiction | congruence].
      * exists q. split; assumption.
Qed.

Lemma should_include_extension_spec (p : string) (exts : list string) :
  should_include_extension p exts = false
  <-> exts <> [] /\ lower (Path_suffix p) ∉ exts.
Proof.
  unfold should_include_extension. destruct exts as [|e exts].
  - split; [discriminate|]. intros [H _]. congruence.
  - rewrite bool_decide_eq_false. split; [intros H; split; [discriminate|exact H]|tauto].
Qed.

(** C6, counterexample: a file whose name holds a backslash followed by
    the trash directory name is one segment, different from every
    internal name, yet the filter excludes it. *)
Lemma path_filter_backslash_counterexample :
  iter_files_skips (sample_endpoint Local ∅) "notes\.tongbu_trash" = true
  /\ ~ spec_excluded (sample_endpoint Local ∅) "notes\.tongbu_trash".
Proof.
  split; [reflexivity|].
  intros [(seg & Hs & Hd) | [(pat & Hp & _) | (Hne & _)]].
  - change (split_on "/" "notes\.tongbu_trash") with ["notes\.tongbu_trash"] in Hs.
    apply list_elem_of_singleton in Hs. subst seg.
    cbn in Hd. apply elem_of_cons in Hd as [Hd|Hd]; [discriminate|].
    apply elem_of_cons in Hd as [Hd|Hd]; [discriminate|].
    now apply elem_of_nil in Hd.
  - cbn in Hp. now apply elem_of_nil in Hp.
  - now apply Hne.
Qed.

(** C6, amended.  A path is filtered out exactly when some segment of it,
    cut at ["/"] with every backslash read as ["/"], is an internal
    directory name, or some exclude pattern matches the name by glob, is
    one of the segments of the path, or matches the whole path by glob, or
    the allowed extensions are not empty and do not hold the lowercased
    suffix.  Only the suffix is case-folded: paths whose suffixes agree up
    to case pass the extension test alike, while the segment and glob
    tests tell upper from lower case. *)
Theorem path_filter_characterisation (ep : endpoint) (p : string) :
  (iter_files_skips ep p = true <->
     (exists seg, seg ∈ split_on "/" (replace_char "\" "/" p)
                  /\ seg ∈ _internal_dirs ep)
     \/ (exists pat, pat ∈ exclude_patterns ep /\
           (fnmatch (Path_name p) pat = true
            \/ pat ∈ split_on "/" (Path_str p)
            \/ fnmatch (Path_str p) pat = true))
     \/ (file_extensions ep <> [] /\ lower (Path_suffix p) ∉ file_extensions ep))
  /\ (forall q : string,
        lower (Path_suffix q) = lower (Path_suffix p) ->
        should_include_extension q (file_extensions ep)
        = should_include_extension p (file_extensions ep))
  /\ (_is_excluded filtering_endpoint ".tongbu_trash/a.py" = true
      /\ _is_excluded filtering_endpoint ".TONGBU_TRASH/a.py" = false)
  /\ (_is_excluded filtering_endpoint "__pycache__/a.py" = true
      /\ _is_excluded filtering_endpoint "__PYCACHE__/a.py" = false)
  /\ (_is_excluded filtering_endpoint "a.pyc" = true
      /\ _is_excluded filtering_endpoint "a.PYC" = false)
  /\ (_is_excluded filtering_endpoint "docs/x.tmp" = true
      /\ _is_excluded filtering_endpoint "DOCS/x.tmp" = false).
Proof.
  split; [|split; [|repeat split; reflexivity]].
  - unfold iter_files_skips, _is_excluded.
    rewrite replace_char_same.
    pose proof (internal_check_spec (_internal_dirs ep)
                  (split_on "/" (replace_char "\" "/" p))) as H1.
    pose proof (should_exclude_loop_spec (Path_name p) (Path_str p)
                  (exclude_patterns ep)) as H2.
    pose proof (should_include_extension_spec p (file_extensions ep)) as H3.
    fold (should_exclude p (exclude_patterns ep)) in H2.
    destruct (existsb _ _); [split; [intros _; left; now apply H1|reflexivity]|].
    destruct (should_exclude p (exclude_patterns ep));
      [split; [intros _; right; left; now apply H2|reflexivity]|].
    destruct (should_include_extension p (file_extensions ep)); cbn.
    + split; [discriminate|].
      intros [H|[H|H]]; [apply H1 in H | apply H2 in H | apply H3 in H]; discriminate.
    + split; [|reflexivity]. intros _. right. right. now apply H3.
  - intros q Hq. unfold should_include_extension. now rewrite Hq.
Qed.

(** ** Deleting what is not there *)

(** C10.  Deleting or trashing a path that the target tree does not hold
    changes nothing and does not raise: the remote [delete_file] swallows
    the file-not-found error of the live session, the local
    [move_to_trash] returns at once, and the one-way delete handler skips
    the unlink. *)
Theorem delete_absent_is_noop (r : runner) (s : side) (p ts : string) :
  ep_files (endpoints r s) !! p = None ->
  (ep_online (endpoints r s) = true ->
     SSHTransfer_delete_file s p r = (Ret tt, r))
  /\ LocalEndpoint_move_to_trash s p ts r = (Ret tt, r)
  /\ LocalSyncEngine._handle_delete (s, p) r = (Ret tt, r).
Proof.
  intros Habsent. repeat split.
  - intros Honline.
    unfold SSHTransfer_delete_file, ensure_connected, try_except, os_unlink,
      files_of, denied, bind, gets, ret, raise. cbn beta.
    now rewrite Honline, Habsent.
  - unfold LocalEndpoint_move_to_trash, os_exists, files_of, bind, gets, ret.
    cbn beta. now rewrite Habsent.
  - unfold LocalSyncEngine._handle_delete, os_exists, files_of, bind, gets, ret.
    cbn. now rewrite Habsent.
Qed.

Lemma delete_absent_is_noop_witness :
  let r := sample_runner (sample_endpoint Local ∅) (sample_endpoint Ssh ∅) ∅ in
  SSHTransfer_delete_file B "gone.txt" r = (Ret tt, r)
  /\ LocalEndpoint_move_to_trash B "gone.txt" "20240101_000000" r = (Ret tt, r)
  /\ LocalSyncEngine._handle_delete (B, "gone.txt") r = (Ret tt, r).
Proof.
  destruct (delete_absent_is_noop
              (sample_runner (sample_endpoint Local ∅) (sample_endpoint Ssh ∅) ∅)
              B "gone.txt" "20240101_000000") as (H1 & H2 & H3);
    [reflexivity|].
  split; [apply H1; reflexivity|]. split; assumption.
Defined.

Section Respects.
Context (R : relation runner) `{!PreOrder R}.

Lemma respects_ret {X} (x : X) : respects R (ret x).
Proof. intros r. cbn. reflexivity. Qed.

Lemma respects_raise {X} k msg : respects R (@raise X k msg).
Proof. intros r. cbn. reflexivity. Qed.

Lemma respects_gets {X} (f : runner -> X) : respects R (gets f).
Proof. intros r. cbn. reflexivity. Qed.

Lemma respects_bind {X Y} (m : M X) (k : X -> M Y) :
  respects R m -> (forall x, respects R (k x)) -> respects R (bind m k).
Proof.
  intros Hm Hk r. unfold bind. specialize (Hm r).
  destruct (m r) as [[x|e] r1]; cbn in *; [|exact Hm].
  etransitivity; [exact Hm|]. apply Hk.
Qed.

Lemma respects_try_except {X} (m : M X) (h : exn -> M X) :
  respects R m -> (forall e, respects R (h e)) -> respects R (try_except m h).
Proof.
  intros Hm Hh r. unfold try_except. specialize (Hm r).
  destruct (m r) as [[x|e] r1]; cbn in *; [exact Hm|].
  etransitivity; [exact Hm|]. apply Hh.
Qed.

Lemma respects_when (c : bool) (m : M unit) :
  respects R m -> respects R (when c m).
Proof. intros Hm. destruct c; [exact Hm|apply respects_ret]. Qed.

Lemma respects_modify (f : runner -> runner) :
  (forall r, R r (f r)) -> respects R (modify f).
Proof. intros Hf r. apply Hf. Qed.

End Respects.

(** Breaks a goal [respects R m] down along the structure of [m]. *)
Ltac respects_step :=
  match goal with
  | |- respects _ (bind _ _) => apply respects_bind; [try apply _| |intros ?]
  | |- respects _ (try_except _ _) => apply respects_try_except; [try apply _| |intros ?]
  | |- respects _ (when _ _) => apply respects_when; [try apply _|]
  | |- respects _ (ret _) => apply respects_ret; try apply _
  | |- respects _ (raise _ _) => apply respects_raise; try apply _
  | |- respects _ (gets _) => apply respects_gets; try apply _
  | |- respects _ (match ?x with _ => _ end) => destruct x
  | |- respects _ (if ?x then _ else _) => destruct x
  end.

Ltac respects_tac := repeat respects_step.

(** *** What the file operations leave alone *)

#[local] Instance keeps_rows_preorder : PreOrder keeps_rows.
Proof.
  split.
  - intros r. repeat split.
  - intros a b c (H1 & H2 & H3 & H4) (H5 & H6 & H7 & H8).
    repeat split; congruence.
Qed.

Create HintDb respects.

Ltac respects_leaf :=
  solve [ auto with respects
        | intros ?; hnf; cbn; auto
        | intros ?; hnf; cbn; repeat split; auto ].

Ltac respects_auto := repeat (respects_leaf || respects_step).

Section KeepsRows.
Context {host : Host}.

Lemma keeps_rows_os_read s p : respects keeps_rows (os_read s p).
Proof. unfold os_read, files_of, denied. respects_auto. Qed.

Lemma keeps_rows_emit e : respects keeps_rows (emit e).
Proof. unfold emit. respects_auto. Qed.

Lemma keeps_rows_time_now : respects keeps_rows time_now.
Proof. respects_auto. Qed.

Lemma keeps_rows_put_files s fs : respects keeps_rows (put_files s fs).
Proof. unfold put_files. respects_auto. Qed.

Hint Resolve keeps_rows_os_read keeps_rows_emit keeps_rows_time_now
  keeps_rows_put_files : respects.

Lemma keeps_rows_os_store s p f : respects keeps_rows (os_store s p f).
Proof. unfold os_store, files_of, denied. respects_auto. Qed.

Hint Resolve keeps_rows_os_store : respects.

Lemma keeps_rows_os_create s p d : respects keeps_rows (os_create s p d).
Proof. unfold os_create, denied. respects_auto. Qed.

Lemma keeps_rows_os_unlink s p : respects keeps_rows (os_unlink s p).
Proof. unfold os_unlink, files_of, denied. respects_auto. Qed.

Lemma keeps_rows_os_rename s p q : respects keeps_rows (os_rename s p q).
Proof. unfold os_rename, files_of, denied. respects_auto. Qed.

Lemma keeps_rows_os_exists s p : respects keeps_rows (os_exists s p).
Proof. unfold os_exists, files_of. respects_auto. Qed.

Lemma keeps_rows_ensure_connected s : respects keeps_rows (ensure_connected s).
Proof. unfold ensure_connected. respects_auto. Qed.

Hint Resolve keeps_rows_os_create keeps_rows_os_unlink keeps_rows_os_rename
  keeps_rows_os_exists keeps_rows_ensure_connected : respects.

Lemma keeps_rows_read_bytes s p : respects keeps_rows (read_bytes s p).
Proof.
  unfold read_bytes, kind_of, LocalEndpoint_read_bytes, SshEndpoint_read_bytes,
    SSHTransfer_read_file_bytes.
  respects_auto.
Qed.

Lemma keeps_rows_write_bytes s p d : respects keeps_rows (write_bytes s p d).
Proof.
  unfold write_bytes, kind_of, LocalEndpoint_write_bytes, SshEndpoint_write_bytes,
    SSHTransfer_write_file_bytes.
  respects_auto.
Qed.

Lemma keeps_rows_get_meta s p : respects keeps_rows (get_meta s p).
Proof.
  unfold get_meta, kind_of, LocalEndpoint_get_meta, SshEndpoint_get_meta,
    SSHTransfer_stat, files_of.
  respects_auto.
Qed.

Hint Resolve keeps_rows_read_bytes keeps_rows_write_bytes keeps_rows_get_meta
  : respects.

Lemma keeps_rows_move_to_trash s p ts : respects keeps_rows (move_to_trash s p ts).
Proof.
  unfold move_to_trash, kind_of, LocalEndpoint_move_to_trash,
    SshEndpoint_move_to_trash, SSHTransfer_move_file, SSHTransfer_delete_file,
    SshEndpoint_read_bytes, SshEndpoint_write_bytes,
    SSHTransfer_read_file_bytes, SSHTransfer_write_file_bytes.
  respects_auto.
Qed.

Lemma keeps_rows_backup_file s p ts : respects keeps_rows (backup_file s p ts).
Proof.
  unfold backup_file, kind_of, LocalEndpoint_backup_file,
    SshEndpoint_backup_file, SshEndpoint_read_bytes, SshEndpoint_write_bytes,
    SSHTransfer_read_file_bytes, SSHTransfer_write_file_bytes.
  respects_auto.
Qed.

Lemma keeps_rows_copy_between w l p : respects keeps_rows (_copy_between w l p).
Proof.
  unfold _copy_between, kind_of, LocalEndpoint_copy_file,
    SshEndpoint_upload_file, SshEndpoint_download_file,
    SSHTransfer_upload_file, SSHTransfer_download_file.
  respects_auto.
Qed.

Lemma keeps_rows_compute_hash s p : respects keeps_rows (_compute_hash s p).
Proof.
  unfold _compute_hash, kind_of, _hash_file.
  respects_auto.
Qed.

Lemma keeps_rows_mark_suppressed s p : respects keeps_rows (_mark_suppressed s p).
Proof. unfold _mark_suppressed. respects_auto. Qed.

Hint Resolve keeps_rows_move_to_trash keeps_rows_backup_file
  keeps_rows_copy_between keeps_rows_compute_hash keeps_rows_mark_suppressed
  : respects.

Lemma keeps_rows_transfer w l p ts state :
  respects keeps_rows (sync_side_transfer w l p ts state).
Proof. unfold sync_side_transfer, restat_loser. respects_auto. Qed.

End KeepsRows.

(** ** Errors inside a single-path sync *)

Section SyncErrors.
Context {host : Host}.

Lemma sync_side_unfold (w l : side) (p : string) (st : option stats) (r : runner) :
  _sync_side w l p st r =
  let state := default zero_state (_state_cache r !! p) in
  let now := clock r (clock_reads r) in
  match sync_side_transfer w l p (strftime now) state (at_transfer w l p r) with
  | (Ret fresh, r1) =>
      ((store_row p (set_synced w now
          (set_side l (fst fresh) (snd fresh) now
             (default zero_state (_state_cache r1 !! p))));;;
        create_log {| event_type := if side_deleted w state then "deleted" else "modified";
                      file_path := p; dest_path := None;
                      status := Success; error_message := None |};;;
        ret (count_synced st)) r1)
  | (Raise e, r1) =>
      (Ret (count_failed st), set_logs (sync_logs r1 ++ [failed_entry p e]) r1)
  end.
Proof.
  unfold _sync_side, at_transfer, try_except, bind, gets, ret, time_now, emit,
    modify, create_log. cbn.
  destruct (sync_side_transfer _ _ _ _ _ _) as [[fresh|e] r1]; reflexivity.
Qed.


End SyncErrors.



(** *** Steps: what never changes, and what is added to the trace *)

Lemma same_setup_refl ep : same_setup ep ep.
Proof. repeat split. Qed.

Lemma same_setup_trans a b c : same_setup a b -> same_setup b c -> same_setup a c.
Proof.
  intros (H1 & H2 & H3 & H4 & H5 & H6 & H7 & H8)
         (G1 & G2 & G3 & G4 & G5 & G6 & G7 & G8).
  repeat split; congruence.
Qed.

Lemma step_preorder Q : PreOrder (step Q).
Proof.
  split.
  - intros r. repeat split; auto using same_setup_refl.
    exists []. split; [now rewrite app_nil_r|]. split; [constructor|auto].
  - intros a b c (H1 & H2 & H3 & H4 & H5 & H6 & n1 & Hn1 & HQ1 & HS1)
                 (G1 & G2 & G3 & G4 & G5 & G6 & n2 & Hn2 & HQ2 & HS2).
    split; [congruence|]. split; [lia|]. split; [congruence|].
    split; [congruence|]. split; [congruence|].
    split; [intros s; eapply same_setup_trans; eauto|].
    exists (n1 ++ n2). split; [|split].
    + rewrite Hn2, Hn1. now rewrite app_assoc.
    + apply Forall_app. now split.
    + intros Hnm s. apply Forall_app in Hnm as [Hnm1 Hnm2].
      rewrite (HS2 Hnm2 s). apply (HS1 Hnm1 s).
Qed.

#[local] Existing Instance step_preorder.

Lemma step_weaken (Q Q' : event -> Prop) r r' :
  (forall e, Q e -> Q' e) -> step Q r r' -> step Q' r r'.
Proof.
  intros HQ (H1 & H2 & H3 & H4 & H5 & H6 & n & Hn & Hall & HS).
  repeat split; auto; try apply H6.
  exists n. split; [exact Hn|]. split; [|exact HS]. eapply Forall_impl; eauto.
Qed.

Lemma respects_step_weaken {X} (Q Q' : event -> Prop) (m : M X) :
  (forall e, Q e -> Q' e) -> respects (step Q) m -> respects (step Q') m.
Proof. intros HQ Hm r. eapply step_weaken; eauto. Qed.

Section Steps.
Context {host : Host} (Q : event -> Prop).

Lemma step_silent (f : runner -> runner) :
  (forall r, clock (f r) = clock r) ->
  (forall r, (clock_reads r <= clock_reads (f r))%nat) ->
  (forall r, _stop_event (f r) = _stop_event r) ->
  (forall r, _init_done (f r) = _init_done r) ->
  (forall r, eol_normalize (f r) = eol_normalize r) ->
  (forall r s, same_setup (endpoints r s) (endpoints (f r) s)) ->
  (forall r, trace (f r) = trace r) ->
  (forall r s, _suppress (f r) s = _suppress r s) ->
  respects (step Q) (modify f).
Proof.
  intros H1 H2 H3 H4 H5 H6 H7 H8 r. cbn. repeat split; auto; try apply H6.
  exists []. rewrite H7, app_nil_r. split; [reflexivity|].
  split; [constructor|auto].
Qed.

Lemma step_emit e : Q e -> respects (step Q) (emit e).
Proof.
  intros HQ r. cbn. repeat split; auto.
  exists [e]. split; [reflexivity|]. split; [|intros _ s; now destruct s].
  constructor; [exact HQ|constructor].
Qed.

Lemma step_time_now : respects (step Q) time_now.
Proof.
  intros r. cbn. repeat split; cbn; auto; try lia.
  exists []. split; [now rewrite app_nil_r|].
  split; [constructor|intros _ s; now destruct s].
Qed.

Lemma step_put_files s fs : respects (step Q) (put_files s fs).
Proof.
  unfold put_files.
  apply step_silent; try reflexivity; auto;
    intros r s'; destruct s, s'; repeat split.
Qed.

Hint Resolve step_emit step_time_now step_put_files : respects.

Lemma step_os_read s p : respects (step Q) (os_read s p).
Proof. unfold os_read, files_of, denied. respects_auto. Qed.

Lemma step_os_exists s p : respects (step Q) (os_exists s p).
Proof. unfold os_exists, files_of. respects_auto. Qed.

Lemma step_ensure_connected s : respects (step Q) (ensure_connected s).
Proof. unfold ensure_connected. respects_auto. Qed.

Hint Resolve step_os_read step_os_exists step_ensure_connected : respects.

Lemma step_os_store s p f : Q (EvWrite s p) -> respects (step Q) (os_store s p f).
Proof. intros HQ. unfold os_store, files_of, denied. respects_auto. Qed.

Hint Resolve step_os_store : respects.

Lemma step_os_create s p d : Q (EvWrite s p) -> respects (step Q) (os_create s p d).
Proof. intros HQ. unfold os_create, denied. respects_auto. Qed.

Lemma step_os_unlink s p : Q (EvRemove s p) -> respects (step Q) (os_unlink s p).
Proof. intros HQ. unfold os_unlink, files_of, denied. respects_auto. Qed.

Lemma step_os_rename s p q :
  Q (EvRemove s p) -> Q (EvWrite s q) -> respects (step Q) (os_rename s p q).
Proof. intros H1 H2. unfold os_rename, files_of, denied. respects_auto. Qed.

Hint Resolve step_os_create step_os_unlink step_os_rename : respects.

Lemma step_read_bytes s p : respects (step Q) (read_bytes s p).
Proof.
  unfold read_bytes, kind_of, LocalEndpoint_read_bytes, SshEndpoint_read_bytes,
    SSHTransfer_read_file_bytes.
  respects_auto.
Qed.

Lemma step_write_bytes s p d : Q (EvWrite s p) -> respects (step Q) (write_bytes s p d).
Proof.
  intros HQ.
  unfold write_bytes, kind_of, LocalEndpoint_write_bytes, SshEndpoint_write_bytes,
    SSHTransfer_write_file_bytes.
  respects_auto.
Qed.

Lemma step_get_meta s p : respects (step Q) (get_meta s p).
Proof.
  unfold get_meta, kind_of, LocalEndpoint_get_meta, SshEndpoint_get_meta,
    SSHTransfer_stat, files_of.
  respects_auto.
Qed.

Hint Resolve step_read_bytes step_write_bytes step_get_meta : respects.

Lemma step_move_to_trash s p ts :
  (forall q, Q (EvWrite s q)) -> (forall q, Q (EvRemove s q)) ->
  respects (step Q) (move_to_trash s p ts).
Proof.
  intros H1 H2.
  unfold move_to_trash, kind_of, LocalEndpoint_move_to_trash,
    SshEndpoint_move_to_trash, SSHTransfer_move_file, SSHTransfer_delete_file,
    SshEndpoint_read_bytes, SshEndpoint_write_bytes,
    SSHTransfer_read_file_bytes, SSHTransfer_write_file_bytes.
  respects_auto.
Qed.

Lemma step_backup_file s p ts :
  (forall q, Q (EvWrite s q)) -> respects (step Q) (backup_file s p ts).
Proof.
  intros H1.
  unfold backup_file, kind_of, LocalEndpoint_backup_file,
    SshEndpoint_backup_file, SshEndpoint_read_bytes, SshEndpoint_write_bytes,
    SSHTransfer_read_file_bytes, SSHTransfer_write_file_bytes.
  respects_auto.
Qed.

Lemma step_copy_between w l p :
  Q (EvWrite l p) -> respects (step Q) (_copy_between w l p).
Proof.
  intros H1.
  unfold _copy_between, kind_of, LocalEndpoint_copy_file,
    SshEndpoint_upload_file, SshEndpoint_download_file,
    SSHTransfer_upload_file, SSHTransfer_download_file, _abs_path.
  respects_auto.
Qed.

Lemma step_compute_hash s p : Q (EvHash s p) -> respects (step Q) (_compute_hash s p).
Proof.
  intros H1. unfold _compute_hash, kind_of, _hash_file, _abs_path.
  respects_auto.
Qed.

Lemma step_mark_suppressed s p :
  (forall t, Q (EvMark s p t)) -> respects (step Q) (_mark_suppressed s p).
Proof.
  intros H1 r. cbn.
  split; [reflexivity|]. split; [cbn; lia|]. split; [reflexivity|].
  split; [reflexivity|]. split; [reflexivity|].
  split; [intros s'; destruct s, s'; repeat split|].
  eexists. split; [reflexivity|]. split.
  - constructor; [apply H1|constructor].
  - intros Hnm. now apply Forall_cons in Hnm as [[] _].
Qed.

Lemma step_set_cache (g : runner -> gmap string file_state) :
  respects (step Q) (modify (fun r => set_cache (g r) r)).
Proof.
  apply step_silent; try reflexivity; auto;
    intros r s'; destruct s'; repeat split.
Qed.

Lemma step_set_table (g : runner -> gmap string file_state) :
  respects (step Q) (modify (fun r => set_table (g r) r)).
Proof.
  apply step_silent; try reflexivity; auto;
    intros r s'; destruct s'; repeat split.
Qed.

Lemma step_set_logs (g : runner -> list sync_log) :
  respects (step Q) (modify (fun r => set_logs (g r) r)).
Proof.
  apply step_silent; try reflexivity; auto;
    intros r s'; destruct s'; repeat split.
Qed.

Lemma step_set_queue (g : runner -> list string) b :
  respects (step Q) (modify (fun r => set_queue (g r) b r)).
Proof.
  apply step_silent; try reflexivity; auto;
    intros r s'; destruct s'; repeat split.
Qed.

Hint Resolve step_set_cache step_set_table step_set_logs step_set_queue : respects.

Lemma step_store_row p st : Q (EvSave p st) -> respects (step Q) (store_row p st).
Proof. intros H1. unfold store_row, _save_state. respects_auto. Qed.

Lemma step_create_log l : respects (step Q) (create_log l).
Proof. unfold create_log. respects_auto. Qed.

Lemma step_reconcile p : respects (step Q) (_reconcile p).
Proof. unfold _reconcile. respects_auto. Qed.

End Steps.

#[local] Hint Resolve step_emit step_time_now step_put_files step_os_read
  step_os_exists step_ensure_connected step_os_store step_os_create
  step_os_unlink step_os_rename step_read_bytes step_write_bytes
  step_get_meta step_move_to_trash step_backup_file step_copy_between
  step_compute_hash step_mark_suppressed step_set_cache
  step_set_table step_set_logs step_set_queue step_store_row step_create_log
  step_reconcile : respects.

Lemma any_event_I e : any_event e.
Proof. exact I. Qed.

#[local] Hint Resolve any_event_I : respects.

Lemma writes_raise {X} e k msg : writes e (@raise X k msg).
Proof. intros r x r' H. discriminate H. Qed.

Lemma writes_emit e : writes e (emit e).
Proof.
  intros r x r' H. injection H as _ <-. exists [e].
  split; [reflexivity|]. apply list_elem_of_singleton. reflexivity.
Qed.

Lemma writes_bind_r {X Y} e (m : M X) (k : X -> M Y) :
  respects (step any_event) m -> (forall x, writes e (k x)) ->
  writes e (bind m k).
Proof.
  intros Hm Hk r y r' H. unfold bind in H. specialize (Hm r).
  destruct (m r) as [[x|ex] r1]; [|discriminate H].
  destruct Hm as (_ & _ & _ & _ & _ & _ & n1 & Hn1 & _).
  destruct (Hk x r1 y r' H) as (n2 & Hn2 & Hin).
  exists (n1 ++ n2). cbn in Hn1. rewrite Hn2, Hn1, app_assoc.
  split; [reflexivity|]. apply elem_of_app. now right.
Qed.

Lemma writes_bind_l {X Y} e (m : M X) (k : X -> M Y) :
  writes e m -> (forall x, respects (step any_event) (k x)) ->
  writes e (bind m k).
Proof.
  intros Hm Hk r y r' H. unfold bind in H.
  destruct (m r) as [[x|ex] r1] eqn:E; [|discriminate H].
  destruct (Hm r x r1 E) as (n1 & Hn1 & Hin).
  pose proof (Hk x r1) as (_ & _ & _ & _ & _ & _ & n2 & Hn2 & _).
  rewrite H in Hn2. cbn in Hn2.
  exists (n1 ++ n2). rewrite Hn2, Hn1, app_assoc.
  split; [reflexivity|]. apply elem_of_app. now left.
Qed.

Lemma writes_try_raise {X} e (m : M X) k (f : exn -> string) :
  writes e m -> writes e (try_except m (fun ex => raise k (f ex))).
Proof.
  intros Hm r x r' H. unfold try_except in H.
  destruct (m r) as [[x0|ex] r1] eqn:E; [|discriminate H].
  injection H as <- <-. eauto.
Qed.

Ltac writes_step :=
  match goal with
  | |- writes _ (bind _ _) =>
      apply writes_bind_r; [solve [respects_auto] | intros ?]
  | |- writes _ (try_except _ _) => apply writes_try_raise
  | |- writes _ (raise _ _) => apply writes_raise
  | |- writes _ (emit _) => apply writes_emit
  | |- writes _ (match ?x with _ => _ end) => destruct x
  | |- writes _ (if ?x then _ else _) => destruct x
  end.

Section Writes.
Context {host : Host}.

Lemma writes_os_store s p f : writes (EvWrite s p) (os_store s p f).
Proof. unfold os_store, files_of, denied. repeat writes_step. Qed.

Lemma writes_os_create s p d : writes (EvWrite s p) (os_create s p d).
Proof.
  unfold os_create, denied. repeat writes_step. apply writes_os_store.
Qed.

Lemma writes_write_bytes s p d : writes (EvWrite s p) (write_bytes s p d).
Proof.
  unfold write_bytes, kind_of, LocalEndpoint_write_bytes, SshEndpoint_write_bytes,
    SSHTransfer_write_file_bytes, ensure_connected.
  repeat writes_step; apply writes_os_create.
Qed.

(** A copy that returns has written the file on the destination. *)
Lemma writes_copy_between w l p : writes (EvWrite l p) (_copy_between w l p).
Proof.
  unfold _copy_between, kind_of, LocalEndpoint_copy_file,
    SshEndpoint_upload_file, SshEndpoint_download_file,
    SSHTransfer_upload_file, SSHTransfer_download_file, _abs_path,
    ensure_connected.
  repeat writes_step;
    first [ apply writes_write_bytes | apply writes_os_store
          | apply writes_os_create ].
Qed.

End Writes.

(** ** A loser that already holds equivalent content *)

Lemma only_file_write_here l p : only_file_write l p (EvWrite l p).
Proof. split; reflexivity. Qed.

Lemma only_file_write_hash l p s q : only_file_write l p (EvHash s q).
Proof. exact I. Qed.

Lemma only_file_write_mark l p s q t : only_file_write l p (EvMark s q t).
Proof. exact I. Qed.

Lemma only_file_write_save l p q st : only_file_write l p (EvSave q st).
Proof. exact I. Qed.

Lemma only_file_write_sync l p a b q : only_file_write l p (EvSync a b q).
Proof. exact I. Qed.

#[local] Hint Resolve only_file_write_here only_file_write_hash
  only_file_write_mark only_file_write_save only_file_write_sync : respects.

Lemma step_trace Q r r' :
  step Q r r' -> exists new, trace r' = trace r ++ new /\ Forall Q new.
Proof. intros (_ & _ & _ & _ & _ & _ & n & Hn & HQ & _). eauto. Qed.

Section Equivalent.
Context {host : Host}.

Lemma transfer_when_equivalent w p ts state :
  content_equivalent w state ->
  sync_side_transfer w (other w) p ts state = transfer_without_backup w p.
Proof.
  intros (H1 & H2 & H3 & H4).
  unfold sync_side_transfer, transfer_without_backup.
  rewrite H1, H2, H3, H4. reflexivity.
Qed.

Lemma step_transfer_without_backup Q w p :
  Q (EvWrite (other w) p) -> (forall t, Q (EvMark (other w) p t)) ->
  Q (EvHash (other w) p) ->
  respects (step Q) (transfer_without_backup w p).
Proof.
  intros H1 H2 H3. unfold transfer_without_backup, restat_loser. respects_auto.
Qed.

Lemma writes_transfer_without_backup w p :
  writes (EvWrite (other w) p) (transfer_without_backup w p).
Proof.
  unfold transfer_without_backup, restat_loser. apply writes_bind_l.
  - apply writes_copy_between.
  - intros _. respects_auto.
Qed.

Lemma keeps_rows_transfer_without_backup w p :
  respects keeps_rows (transfer_without_backup w p).
Proof.
  unfold transfer_without_backup, restat_loser.
  repeat (respects_step
          || apply keeps_rows_copy_between || apply keeps_rows_mark_suppressed
          || apply keeps_rows_get_meta || apply keeps_rows_compute_hash).
Qed.

Lemma returns_bind {X Y} (P : Y -> Prop) (m : M X) (k : X -> M Y) :
  (forall x, returns P (k x)) -> returns P (bind m k).
Proof.
  intros Hk r y r' H. unfold bind in H.
  destruct (m r) as [[x|e] r1]; [|discriminate H]. eapply Hk; eauto.
Qed.

Lemma returns_ret {X} (P : X -> Prop) (x : X) : P x -> returns P (ret x).
Proof. intros HP r y r' H. injection H as <- _. exact HP. Qed.

Lemma returns_transfer_without_backup w p :
  returns (fun fresh => snd fresh = false) (transfer_without_backup w p).
Proof.
  unfold transfer_without_backup, restat_loser.
  repeat (apply returns_bind; intros ?).
  destruct (meta_truthy _).
  - apply returns_bind. intros ?. now apply returns_ret.
  - now apply returns_ret.
Qed.

Lemma step_at_transfer Q w l p r :
  Q (EvSync w l p) -> step Q r (at_transfer w l p r).
Proof.
  intros HQ. unfold at_transfer.
  assert (H : respects (step Q) (time_now;;; emit (EvSync w l p)))
    by respects_auto.
  apply H.
Qed.


End Equivalent.



(** ** The suppression window *)


Lemma bind_run {X Y} (m : M X) (k : X -> M Y) (r : runner) :
  bind m k r = match m r with
               | (Ret x, r1) => k x r1
               | (Raise e, r1) => (Raise e, r1)
               end.
Proof. reflexivity. Qed.

Lemma quiet_not_mark e : quiet e -> not_mark e.
Proof. now intros [_ H]. Qed.

Lemma quiet_not_fs e : quiet e -> not_fs e.
Proof. now intros [H _]. Qed.

Lemma quiet_hash s p : quiet (EvHash s p).
Proof. split; exact I. Qed.

Lemma not_mark_write s p : not_mark (EvWrite s p).
Proof. exact I. Qed.

Lemma not_mark_remove s p : not_mark (EvRemove s p).
Proof. exact I. Qed.

#[local] Hint Resolve quiet_hash not_mark_write not_mark_remove : respects.

Section Suppression.
Context {host : Host}.

Lemma mark_suppressed_run s p r :
  _mark_suppressed s p r =
  (Ret tt,
   set_trace (trace r ++ [EvMark s p (clock r (clock_reads r) + _suppress_window)])
     (set_suppress s
        (<[p := clock r (clock_reads r) + _suppress_window]> (_suppress r s))
        (set_clock_reads (S (clock_reads r)) r))).
Proof. destruct s; reflexivity. Qed.

Lemma step_restat_loser Q l p :
  Q (EvHash l p) -> respects (step Q) (restat_loser l p).
Proof. intros H. unfold restat_loser. respects_auto. Qed.

(** A mark, then the re-stat of the loser. *)
Lemma mark_then_restat l p r0 ra :
  clock ra = clock r0 -> (clock_reads r0 <= clock_reads ra)%nat ->
  let res := (_mark_suppressed l p;;; restat_loser l p) ra in
  exists post,
    trace (snd res) = trace ra ++ post
    /\ Forall not_fs post
    /\ clock (snd res) = clock r0
    /\ mark_made l p r0 (snd res) post.
Proof.
  intros Hclk Hreads res. subst res.
  rewrite bind_run, mark_suppressed_run.
  set (rb := set_trace _ _).
  pose proof (step_restat_loser quiet l p (quiet_hash l p) rb)
    as (Hc & Hr & _ & _ & _ & _ & nd & Hnd & HQd & HSd).
  exists (EvMark l p (clock r0 (clock_reads ra) + _suppress_window) :: nd).
  split; [|split; [|split]].
  - rewrite Hnd. subst rb. cbn. rewrite Hclk. now rewrite <- app_assoc.
  - constructor; [exact I|]. eapply Forall_impl; [exact HQd|apply quiet_not_fs].
  - rewrite Hc. subst rb. cbn. exact Hclk.
  - exists (clock_reads ra), nd.
    assert (Hnm : Forall not_mark nd)
      by (eapply Forall_impl; [exact HQd|apply quiet_not_mark]).
    split; [exact Hreads|]. split; [reflexivity|]. split; [exact Hnm|].
    rewrite (HSd Hnm l). subst rb. rewrite <- Hclk.
    destruct l; cbn; apply lookup_insert_eq.
Qed.

End Suppression.

Section SuppressionOrder.
Context {host : Host}.

Lemma step_backup_guard Q l p ts (c1 c2 : bool) :
  (forall q, Q (EvWrite l q)) ->
  respects (step Q) (when c1 (when c2 (backup_file l p ts))).
Proof. intros H. respects_auto. Qed.

(** The transfer step: what changes the trees comes first, the mark
    after it, and nothing changes a tree once the mark is made. *)
Lemma transfer_shape w p ts state r0 :
  let l := other w in
  let res := sync_side_transfer w l p ts state r0 in
  exists pre post,
    trace (snd res) = trace r0 ++ pre ++ post
    /\ Forall not_mark pre
    /\ Forall not_fs post
    /\ clock (snd res) = clock r0
    /\ (mark_made l p r0 (snd res) post \/ post = [])
    /\ ((exists x, fst res = Ret x) -> engine_touches w state ->
        mark_made l p r0 (snd res) post).
Proof.
  intros l res. subst res. unfold sync_side_transfer. fold l.
  destruct (side_deleted w state) eqn:Hwd.
  - destruct (negb (side_deleted l state) && meta_truthy (side_meta l state)) eqn:Hc;
      cbn [when].
    + rewrite !bind_run.
      pose proof (step_move_to_trash not_mark l p ts
                    (fun q => I) (fun q => I) r0)
        as (Hclk & Hreads & _ & _ & _ & _ & na & Hna & HQa & _).
      destruct (move_to_trash l p ts r0) as [[[]|e] ra]; cbn [snd] in *.
      * rewrite mark_suppressed_run. cbn.
        exists na, [EvMark l p (clock r0 (clock_reads ra) + _suppress_window)].
        assert (Hm : mark_made l p r0
                  (set_trace
                     (trace ra ++ [EvMark l p (clock ra (clock_reads ra) + _suppress_window)])
                     (set_suppress l
                        (<[p:=clock ra (clock_reads ra) + _suppress_window]>
                           (_suppress ra l))
                        (set_clock_reads (S (clock_reads ra)) ra)))
                  [EvMark l p (clock r0 (clock_reads ra) + _suppress_window)]).
        { exists (clock_reads ra), []. split; [exact Hreads|].
          split; [reflexivity|]. split; [constructor|].
          rewrite <- Hclk. destruct l; cbn; apply lookup_insert_eq. }
        split; [rewrite Hna, Hclk; now rewrite <- app_assoc|].
        split; [exact HQa|]. split; [repeat constructor|].
        split; [exact Hclk|]. split; [now left|]. intros _ _. exact Hm.
      * cbn. exists na, []. rewrite app_nil_r.
        split; [exact Hna|]. split; [exact HQa|]. split; [constructor|].
        split; [exact Hclk|]. split; [now right|].
        intros [x Hx]. discriminate Hx.
    + cbn. exists [], []. rewrite app_nil_r.
      split; [reflexivity|]. split; [constructor|]. split; [constructor|].
      split; [reflexivity|]. split; [now right|].
      intros _ [Ht|[Hd Ht]]; [congruence|].
      fold l in Hd, Ht. rewrite Hd, Ht in Hc. discriminate Hc.
  - rewrite bind_run.
    pose proof (step_backup_guard not_mark l p ts
                  (meta_truthy (side_meta l state) && negb (side_deleted l state))
                  (_meta_changed (side_meta l state) (Some (side_meta w state)))
                  (fun q => I) r0)
      as (Hclk & Hreads & _ & _ & _ & _ & na & Hna & HQa & _).
    destruct (when _ _ r0) as [[[]|e] ra]; cbn [snd] in *.
    + rewrite bind_run.
      pose proof (step_copy_between not_mark w l p I ra)
        as (Hclk2 & Hreads2 & _ & _ & _ & _ & nb & Hnb & HQb & _).
      destruct (_copy_between w l p ra) as [[[]|e] rb]; cbn [snd] in *.
      * destruct (mark_then_restat l p r0 rb) as (post & Hp & Hfs & Hc & Hm);
          [congruence | lia |].
        cbn zeta in Hp, Hc, Hm.
        exists (na ++ nb), post.
        split; [rewrite Hp, Hnb, Hna; now rewrite <- !app_assoc|].
        split; [apply Forall_app; now split|]. split; [exact Hfs|].
        split; [exact Hc|]. split; [now left|]. intros _ _. exact Hm.
      * cbn. exists (na ++ nb), []. rewrite app_nil_r.
        split; [rewrite Hnb, Hna; now rewrite <- app_assoc|].
        split; [apply Forall_app; now split|]. split; [constructor|].
        split; [congruence|]. split; [now right|].
        intros [x Hx]. discriminate Hx.
    + cbn. exists na, []. rewrite app_nil_r.
      split; [exact Hna|]. split; [exact HQa|]. split; [constructor|].
      split; [exact Hclk|]. split; [now right|].
      intros [x Hx]. discriminate Hx.
Qed.

End SuppressionOrder.

Lemma mark_made_extend l p r0 r1 r r' post extra :
  mark_made l p r0 r1 post ->
  clock r0 = clock r -> (clock_reads r <= clock_reads r0)%nat ->
  _suppress r' l = _suppress r1 l ->
  Forall not_mark extra ->
  mark_made l p r r' (post ++ extra).
Proof.
  intros (n & post' & Hn & -> & Hnm & Hs) Hclk Hreads Hsup Hextra.
  exists n, (post' ++ extra). rewrite <- Hclk, Hsup.
  split; [lia|]. split; [reflexivity|]. split; [|exact Hs].
  apply Forall_app. now split.
Qed.

Section SuppressionWindow.
Context {host : Host}.


End SuppressionWindow.


(** ** Tombstones set by a poll scan *)

Lemma row_update_preorder allowed p : PreOrder (row_update allowed p).
Proof.
  split.
  - intros r. now left.
  - intros a b c [H1|(row1 & H1 & A1)] [H2|(row2 & H2 & A2)].
    + left. congruence.
    + right. exists row2. split; [congruence|exact A2].
    + right. exists row1. split; [congruence|exact A1].
    + right. exists row2. split; [|exact A2].
      rewrite H2, H1. apply insert_insert_eq.
Qed.

#[local] Existing Instance row_update_preorder.

Lemma keeps_rows_row_update {X} allowed p (m : M X) :
  respects keeps_rows m -> respects (row_update allowed p) m.
Proof. intros H r. left. apply (H r). Qed.

Section RowUpdate.
Context {host : Host}.

Lemma row_update_store_row allowed p row :
  allowed row -> respects (row_update allowed p) (store_row p row).
Proof. intros H r. right. exists row. split; [reflexivity|exact H]. Qed.

Lemma row_update_assign allowed p cached row :
  allowed row -> respects (row_update allowed p) (assign_in_place p cached row).
Proof.
  intros H r. destruct cached; [|now left].
  right. exists row. split; [reflexivity|exact H].
Qed.

Lemma row_update_compute_hash allowed p s q :
  respects (row_update allowed p) (_compute_hash s q).
Proof. apply keeps_rows_row_update, keeps_rows_compute_hash. Qed.

Lemma row_update_reconcile allowed p q :
  respects (row_update allowed p) (_reconcile q).
Proof.
  unfold _reconcile. respects_auto.
Qed.

Lemma row_update_kind_of allowed p s :
  respects (row_update allowed p) (kind_of s).
Proof. unfold kind_of. respects_auto. Qed.

Lemma observed_row_side s deleted seen_at state m d :
  (d = true -> deleted = true) ->
  observed_row s deleted seen_at state (set_side s m d seen_at state).
Proof. intros H. left. eauto. Qed.

Lemma observed_row_meta s deleted seen_at state m :
  observed_row s deleted seen_at state (set_side_meta s m state).
Proof. right. eauto. Qed.

(** The effect of one observation on the cache. *)
Lemma handle_meta_change_rows s p new_meta deleted seen_at budget r :
  row_update
    (observed_row s deleted seen_at (default zero_state (_state_cache r !! p))) p
    r (snd (_handle_meta_change s p new_meta deleted seen_at budget r)).
Proof.
  unfold _handle_meta_change. rewrite bind_run. cbn [gets].
  set (cached := _state_cache r !! p). clearbody cached. revert r.
  set (allowed := observed_row s deleted seen_at (default zero_state cached)).
  match goal with
  | |- forall r, row_update _ _ r (snd (?m r)) =>
      change (respects (row_update allowed p) m)
  end.
  destruct deleted.
  - repeat (respects_step
            || (apply row_update_store_row; apply observed_row_side; auto)
            || apply row_update_reconcile).
  - destruct (_meta_changed _ _).
    + repeat (respects_step
              || apply row_update_compute_hash
              || (apply row_update_store_row; apply observed_row_side; discriminate)
              || apply row_update_reconcile).
    + repeat (respects_step
              || apply row_update_kind_of
              || apply row_update_compute_hash
              || (apply row_update_store_row; apply observed_row_meta)
              || (apply row_update_assign; apply observed_row_side; discriminate)
              || apply row_update_reconcile).
Qed.

End RowUpdate.

Lemma side_deleted_set_side s m d t st :
  side_deleted s (set_side s m d t st) = d.
Proof. now destruct s. Qed.

Lemma side_deleted_set_side_meta s m st :
  side_deleted s (set_side_meta s m st) = side_deleted s st.
Proof. now destruct s. Qed.

Lemma tombstones_founded_refl s c : tombstones_founded s c c.
Proof. intros p row Hrow Hd. exists row. split; [exact Hrow|]. right. now left. Qed.

Section Scan.
Context {host : Host}.

(** An observation that is not a deletion sets no tombstone. *)
Lemma founded_after_observation s c0 p m seen_at budget r :
  tombstones_founded s c0 (_state_cache r) ->
  tombstones_founded s c0
    (_state_cache (snd (_handle_meta_change s p (Some m) false seen_at budget r))).
Proof.
  intros Hinv.
  destruct (handle_meta_change_rows s p (Some m) false seen_at budget r)
    as [->|(row & -> & Hrow)]; [exact Hinv|].
  intros q row' Hq Hd.
  destruct (decide (p = q)) as [<-|Hne].
  - rewrite lookup_insert_eq in Hq. injection Hq as <-.
    destruct Hrow as [(m' & d & -> & Hdel)|(m' & ->)].
    + rewrite side_deleted_set_side in Hd. subst d.
      specialize (Hdel eq_refl). discriminate Hdel.
    + rewrite side_deleted_set_side_meta in Hd.
      destruct (_state_cache r !! p) as [st0|] eqn:E; cbn in Hd.
      * eapply Hinv; eauto.
      * destruct s; discriminate Hd.
  - rewrite lookup_insert_ne in Hq by exact Hne. eapply Hinv; eauto.
Qed.

(** A deletion observed for a path that had evidence. *)
Lemma founded_after_deletion s c0 p seen_at budget r :
  tombstones_founded s c0 (_state_cache r) ->
  (exists row, c0 !! p = Some row /\ has_evidence s row) ->
  tombstones_founded s c0
    (_state_cache (snd (_handle_meta_change s p None true seen_at budget r))).
Proof.
  intros Hinv Hev.
  destruct (handle_meta_change_rows s p None true seen_at budget r)
    as [->|(row & -> & Hrow)]; [exact Hinv|].
  intros q row' Hq Hd.
  destruct (decide (p = q)) as [<-|Hne]; [exact Hev|].
  rewrite lookup_insert_ne in Hq by exact Hne. eapply Hinv; eauto.
Qed.

Lemma scan_present_founded s c0 now items :
  forall scanned seen_paths budget r,
    tombstones_founded s c0 (_state_cache r) ->
    tombstones_founded s c0
      (_state_cache (snd (scan_present s now items scanned seen_paths budget r))).
Proof.
  induction items as [|[p m] rest IH]; intros scanned seen_paths budget r Hinv.
  - exact Hinv.
  - cbn [scan_present]. rewrite bind_run. cbn [gets].
    destruct (_stop_event r); [exact Hinv|].
    rewrite bind_run.
    pose proof (founded_after_observation s c0 p m now budget r Hinv) as H1.
    destruct (_handle_meta_change s p (Some m) false now budget r) as [[b|e] r1];
      cbn [snd] in H1.
    + apply IH. exact H1.
    + exact H1.
Qed.

Lemma scan_missing_founded s c0 now missing :
  forall budget r,
    tombstones_founded s c0 (_state_cache r) ->
    tombstones_founded s c0
      (_state_cache (snd (scan_missing s now c0 missing budget r))).
Proof.
  induction missing as [|p rest IH]; intros budget r Hinv.
  - exact Hinv.
  - cbn [scan_missing]. rewrite bind_run. cbn [gets].
    destruct (_stop_event r); [exact Hinv|].
    destruct (negb (meta_truthy (side_meta s (default zero_state (c0 !! p))))
              && negb (side_deleted s (default zero_state (c0 !! p)))
              && negb (has_key (side_seen_at s (default zero_state (c0 !! p)))))
      eqn:Hguard.
    + apply IH. exact Hinv.
    + rewrite bind_run.
      assert (Hev : exists row, c0 !! p = Some row /\ has_evidence s row).
      { destruct (c0 !! p) as [row|] eqn:E.
        - exists row. split; [reflexivity|]. cbn in Hguard. unfold has_evidence.
          destruct (meta_truthy (side_meta s row)); [now left|].
          destruct (side_deleted s row); [right; now left|].
          destruct (side_seen_at s row); [right; right; eauto|discriminate Hguard].
        - cbn in Hguard. destruct s; discriminate Hguard. }
      pose proof (founded_after_deletion s c0 p now budget r Hinv Hev) as H1.
      destruct (_handle_meta_change s p None true now budget r) as [[b|e] r1];
        cbn [snd] in H1.
      * apply IH. exact H1.
      * exact H1.
Qed.

Lemma keeps_rows_iter_files s : respects keeps_rows (iter_files s).
Proof.
  unfold iter_files, kind_of, LocalEndpoint_iter_files, SshEndpoint_iter_files,
    SSHTransfer_iter_files, files_of, ensure_connected.
  respects_auto.
Qed.

Lemma scan_endpoint_founded s r :
  tombstones_founded s (_state_cache r)
    (_state_cache (snd (_scan_endpoint s r))).
Proof.
  unfold _scan_endpoint. rewrite bind_run. cbn [time_now]. rewrite bind_run.
  cbn [gets]. rewrite bind_run.
  set (r0 := set_clock_reads (S (clock_reads r)) r).
  change (_state_cache r0) with (_state_cache r).
  pose proof (keeps_rows_iter_files s r0) as (Hc & _).
  destruct (iter_files s r0) as [[items|e] r1]; cbn [snd] in Hc.
  - rewrite bind_run.
    pose proof (scan_present_founded s (_state_cache r) (clock r (clock_reads r))
                  items 0%nat ∅ (Some _hash_budget_per_scan) r1) as H1.
    rewrite Hc in H1. specialize (H1 (tombstones_founded_refl s _)).
    destruct (scan_present s _ items 0%nat ∅ _ r1) as [[first|e] r2];
      cbn [snd] in H1; [|exact H1].
    destruct first as [[[stopped scanned] seen_paths] budget].
    destruct stopped; [exact H1|].
    rewrite bind_run.
    pose proof (scan_missing_founded s (_state_cache r) (clock r (clock_reads r))
                  (elements (dom (_state_cache r) ∖ seen_paths)) budget r2 H1) as H2.
    destruct (scan_missing s _ _ _ budget r2) as [[[]|e] r3]; exact H2.
  - cbn. rewrite Hc. apply tombstones_founded_refl.
Qed.

(** C9.  After a poll scan of side [s], a path is tombstoned on that side
    only if its row already had evidence for the side before the scan: a
    meta, a tombstone or an observation time.  A path whose row has none,
    known from the other side only, is not tombstoned by the scan. *)
Theorem scan_tombstones_need_evidence (r : runner) (s : side) (p : string) :
  let r' := snd (_scan_endpoint s r) in
  (forall row',
     _state_cache r' !! p = Some row' -> side_deleted s row' = true ->
     exists row, _state_cache r !! p = Some row /\ has_evidence s row)
  /\ ((forall row, _state_cache r !! p = Some row -> ~ has_evidence s row) ->
      forall row', _state_cache r' !! p = Some row' -> side_deleted s row' = false).
Proof.
  intros r'. pose proof (scan_endpoint_founded s r) as Hinv. fold r' in Hinv.
  split.
  - intros row' Hrow Hd. exact (Hinv p row' Hrow Hd).
  - intros Hnone row' Hrow.
    destruct (side_deleted s row') eqn:Hd; [|reflexivity].
    destruct (Hinv p row' Hrow Hd) as (row & Hr & Hev).
    destruct (Hnone row Hr Hev).
Qed.

End Scan.

Lemma scan_tombstones_need_evidence_witness :
  let r' := snd (_scan_endpoint B scan_runner) in
  (exists row',
     _state_cache r' !! "gone.txt" = Some row' /\ side_deleted B row' = true
     /\ exists row, _state_cache scan_runner !! "gone.txt" = Some row
                    /\ has_evidence B row)
  /\ (forall row',
        _state_cache r' !! "fresh.txt" = Some row' -> side_deleted B row' = false).
Proof.
  split.
  - destruct (scan_tombstones_need_evidence scan_runner B "gone.txt") as [H1 _].
    destruct (_state_cache (snd (_scan_endpoint B scan_runner)) !! "gone.txt")
      as [row'|] eqn:E; vm_compute in E; [|discriminate E].
    injection E as E. exists row'. split; [reflexivity|].
    assert (Hd : side_deleted B row' = true) by (rewrite <- E; reflexivity).
    split; [exact Hd|]. apply (H1 row'); [|exact Hd].
    rewrite <- E. vm_compute. reflexivity.
  - destruct (scan_tombstones_need_evidence scan_runner B "fresh.txt") as [_ H2].
    apply H2. intros row Hr Hev. vm_compute in Hr. injection Hr as <-.
    destruct Hev as [H|[H|[x H]]]; vm_compute in H; discriminate H.
Defined.

(** ** The initial baseline *)

Lemma rows_elsewhere_preorder q : PreOrder (rows_elsewhere q).
Proof.
  split.
  - intros r p _. split; reflexivity.
  - intros a b c H1 H2 p Hp.
    destruct (H1 p Hp) as [E1 E2]. destruct (H2 p Hp) as [E3 E4].
    split; congruence.
Qed.

#[local] Existing Instance rows_elsewhere_preorder.

Lemma keeps_rows_rows_elsewhere {X} q (m : M X) :
  respects keeps_rows m -> respects (rows_elsewhere q) m.
Proof.
  intros H r p _. destruct (H r) as (E1 & E2 & _). now rewrite E1, E2.
Qed.

#[local] Hint Extern 1 (hashes_only _ _) => (cbn; auto) : respects.
#[local] Hint Extern 1 (not_mark _) => exact I : respects.

Section Baseline.
Context {host : Host}.

Lemma rows_elsewhere_store_row q row : respects (rows_elsewhere q) (store_row q row).
Proof.
  intros r p Hp. cbn. split; apply lookup_insert_ne; congruence.
Qed.

Lemma rows_elsewhere_sync_side w l q st :
  respects (rows_elsewhere q) (_sync_side w l q st).
Proof.
  unfold _sync_side, create_log.
  repeat (respects_step
          || apply rows_elsewhere_store_row
          || (apply keeps_rows_rows_elsewhere;
              first [ apply keeps_rows_transfer | apply keeps_rows_time_now
                    | apply keeps_rows_emit ])
          || (intros ? ? ?; split; reflexivity)).
Qed.

Lemma step_sync_side Q w l q st :
  (forall a b p, Q (EvSync a b p)) -> (forall p row, Q (EvSave p row)) ->
  (forall s p, Q (EvWrite s p)) -> (forall s p, Q (EvRemove s p)) ->
  (forall s p t, Q (EvMark s p t)) -> Q (EvHash l q) ->
  respects (step Q) (_sync_side w l q st).
Proof.
  intros Hy Hs Hw Hr Hm Hh.
  unfold _sync_side, sync_side_transfer, restat_loser. respects_auto.
Qed.

Lemma step_sync_side_hashes w l q st :
  respects (step (hashes_only q)) (_sync_side w l q st).
Proof. apply step_sync_side; intros; cbn; auto. Qed.

Lemma sync_side_returns w l p st r :
  exists x r', _sync_side w l p st r = (Ret x, r').
Proof.
  rewrite sync_side_unfold. cbn zeta.
  destruct (sync_side_transfer _ _ _ _ _ _) as [[fresh|e] r1]; [|eauto].
  unfold store_row, _save_state, create_log, emit, modify, bind, ret. cbn. eauto.
Qed.

(** A sync opens the trace it adds with its own start. *)
Lemma sync_side_starts w l p st r :
  exists post, trace (snd (_sync_side w l p st r)) = trace r ++ EvSync w l p :: post.
Proof.
  rewrite sync_side_unfold. cbn zeta.
  pose proof (keeps_rows_transfer w l p (strftime (clock r (clock_reads r)))
                (default zero_state (_state_cache r !! p)) (at_transfer w l p r)) as _.
  assert (S1 : respects (step any_event)
                 (sync_side_transfer w l p (strftime (clock r (clock_reads r)))
                    (default zero_state (_state_cache r !! p))))
    by (unfold sync_side_transfer, restat_loser; respects_auto).
  specialize (S1 (at_transfer w l p r)).
  apply step_trace in S1 as (n1 & Hn1 & _).
  assert (Ht0 : trace (at_transfer w l p r) = trace r ++ [EvSync w l p]) by reflexivity.
  destruct (sync_side_transfer _ _ _ _ _ _) as [[fresh|e] r1]; cbn [snd] in Hn1.
  - unfold store_row, _save_state, create_log, emit, modify, bind, ret. cbn.
    eexists (n1 ++ [_]). rewrite Hn1, Ht0. now rewrite <- !app_assoc.
  - cbn. exists n1. rewrite Hn1, Ht0. now rewrite <- app_assoc.
Qed.

End Baseline.

Lemma hashes_only_elsewhere q p s l :
  Forall (hashes_only q) l -> p <> q -> EvHash s p ∉ l.
Proof.
  intros Hall Hne Hin. rewrite Forall_forall in Hall.
  apply Hall in Hin. cbn in Hin. contradiction.
Qed.

Section BaselineLoop.
Context {host : Host}.

(** One path of the baseline. *)
Lemma baseline_path a b now q st r :
  (forall p m, a !! p = Some m -> meta_truthy m = true) ->
  (forall p m, b !! p = Some m -> meta_truthy m = true) ->
  exists st1 r1 new_q,
    initial_sync_path now a b q st r = (Ret st1, r1)
    /\ trace r1 = trace r ++ new_q
    /\ Forall (hashes_only q) new_q
    /\ rows_elsewhere q r r1
    /\ _stop_event r1 = _stop_event r
    /\ (forall ma, a !! q = Some ma -> b !! q = None ->
          exists post, new_q = [EvSave q (seed_only A ma now); EvSync A B q] ++ post)
    /\ (forall mb, b !! q = Some mb -> a !! q = None ->
          exists post, new_q = [EvSave q (seed_only B mb now); EvSync B A q] ++ post)
    /\ (forall ma mb, a !! q = Some ma -> b !! q = Some mb ->
          _state_cache r1 !! q = Some (seed_both ma mb now)
          /\ sync_file_state r1 !! q = Some (seed_both ma mb now)
          /\ new_q = [EvSave q (seed_both ma mb now)]).
Proof.
  intros Ha Hb. unfold initial_sync_path.
  assert (Hseed : forall w l row,
    exists st1 r1 post,
      (store_row q row;;; _sync_side w l q st) r = (Ret st1, r1)
      /\ trace r1 = trace r ++ [EvSave q row; EvSync w l q] ++ post
      /\ Forall (hashes_only q) ([EvSave q row; EvSync w l q] ++ post)
      /\ rows_elsewhere q r r1
      /\ _stop_event r1 = _stop_event r).
  { intros w l row. rewrite bind_run.
    pose proof (rows_elsewhere_store_row q row r) as F0.
    assert (T0 : trace (snd (store_row q row r)) = trace r ++ [EvSave q row])
      by reflexivity.
    assert (S0 : _stop_event (snd (store_row q row r)) = _stop_event r)
      by reflexivity.
    assert (E0 : store_row q row r = (Ret tt, snd (store_row q row r)))
      by reflexivity.
    rewrite E0. remember (snd (store_row q row r)) as r0 eqn:Er0. clear Er0 E0.
    destruct (sync_side_returns w l q st r0) as (st1 & r1 & E).
    destruct (sync_side_starts w l q st r0) as (post & Hpost).
    pose proof (step_sync_side_hashes w l q st r0)
      as (_ & _ & Hstop & _ & _ & _ & n1 & Hn1 & HQ1 & _).
    pose proof (rows_elsewhere_sync_side w l q st r0) as F1.
    rewrite E in *. cbn [snd] in *.
    exists st1, r1, post.
    assert (n1 = EvSync w l q :: post) as ->
      by (rewrite Hn1 in Hpost; now apply app_inv_head in Hpost).
    split; [reflexivity|].
    split; [rewrite Hpost, T0; now rewrite <- app_assoc|].
    split; [constructor; [exact I|exact HQ1]|].
    split; [etransitivity; eauto|congruence]. }
  destruct (a !! q) as [ma|] eqn:Ea; destruct (b !! q) as [mb|] eqn:Eb; cbn.
  - rewrite (Ha q ma Ea), (Hb q mb Eb). cbn.
    eexists st, _, [EvSave q (seed_both ma mb now)].
    split; [reflexivity|]. cbn.
    split; [reflexivity|]. split; [repeat constructor|].
    split; [apply (rows_elsewhere_store_row q (seed_both ma mb now) r)|].
    split; [reflexivity|].
    split; [intros ? _ H; discriminate H|]. split; [intros ? _ H; discriminate H|].
    intros ? ? H1 H2. injection H1 as <-. injection H2 as <-.
    split; [apply lookup_insert_eq|]. split; [apply lookup_insert_eq|reflexivity].
  - rewrite (Ha q ma Ea). cbn.
    destruct (Hseed A B (seed_only A ma now)) as (st1 & r1 & post & E & Ht & HQ & HF & Hs).
    exists st1, r1, ([EvSave q (seed_only A ma now); EvSync A B q] ++ post).
    split; [exact E|]. split; [exact Ht|]. split; [exact HQ|].
    split; [exact HF|]. split; [exact Hs|].
    split; [intros ? H1 _; injection H1 as <-; eauto|].
    split; [intros ? H _; discriminate H|]. intros ? ? _ H. discriminate H.
  - rewrite (Hb q mb Eb). cbn.
    destruct (Hseed B A (seed_only B mb now)) as (st1 & r1 & post & E & Ht & HQ & HF & Hs).
    exists st1, r1, ([EvSave q (seed_only B mb now); EvSync B A q] ++ post).
    split; [exact E|]. split; [exact Ht|]. split; [exact HQ|].
    split; [exact HF|]. split; [exact Hs|].
    split; [intros ? H _; discriminate H|].
    split; [intros ? H1 _; injection H1 as <-; eauto|]. intros ? ? H _. discriminate H.
  - exists st, r, []. rewrite app_nil_r.
    split; [reflexivity|]. split; [reflexivity|]. split; [constructor|].
    split; [reflexivity|]. split; [reflexivity|].
    split; [intros ? H _; discriminate H|].
    split; [intros ? H _; discriminate H|]. intros ? ? H _. discriminate H.
Qed.

End BaselineLoop.

Section BaselineTheorem.
Context {host : Host}.

Lemma baseline_loop a b now paths :
  (forall p m, a !! p = Some m -> meta_truthy m = true) ->
  (forall p m, b !! p = Some m -> meta_truthy m = true) ->
  NoDup paths ->
  forall st r, _stop_event r = false ->
    exists new,
      trace (snd (initial_sync_loop now a b paths st r)) = trace r ++ new
      /\ (forall p, p ∉ paths ->
            _state_cache (snd (initial_sync_loop now a b paths st r)) !! p
            = _state_cache r !! p
            /\ sync_file_state (snd (initial_sync_loop now a b paths st r)) !! p
               = sync_file_state r !! p
            /\ forall s, EvHash s p ∉ new)
      /\ (forall p, p ∈ paths ->
            baseline_of a b now p
              (snd (initial_sync_loop now a b paths st r)) new).
Proof.
  intros Ha Hb Hnd. induction Hnd as [|q rest Hq Hnd IH]; intros st r Hstop.
  - exists []. cbn. rewrite app_nil_r. split; [reflexivity|]. split.
    + intros p _. split; [reflexivity|]. split; [reflexivity|].
      intros s H. now apply elem_of_nil in H.
    + intros p H. now apply elem_of_nil in H.
  - cbn [initial_sync_loop]. rewrite bind_run. cbn [gets]. rewrite Hstop.
    rewrite bind_run.
    destruct (baseline_path a b now q st r Ha Hb)
      as (st1 & r1 & new_q & E & Ht & HQ & HF & Hs & HA & HB & HAB).
    rewrite E.
    destruct (IH st1 r1) as (new_r & Htr & Hframe & Hpost); [congruence|].
    set (r' := snd (initial_sync_loop now a b rest st1 r1)) in *.
    exists (new_q ++ new_r). split; [rewrite Htr, Ht; now rewrite <- app_assoc|].
    split.
    + intros p Hp. apply not_elem_of_cons in Hp as [Hne Hp].
      destruct (Hframe p Hp) as (C1 & C2 & C3). destruct (HF p Hne) as (D1 & D2).
      split; [congruence|]. split; [congruence|].
      intros s Hin. apply elem_of_app in Hin as [Hin|Hin].
      * exact (hashes_only_elsewhere q p s new_q HQ Hne Hin).
      * exact (C3 s Hin).
    + intros p Hp. apply elem_of_cons in Hp as [->|Hp].
      * destruct (Hframe q Hq) as (C1 & C2 & C3).
        split; [|split].
        -- intros ma H1 H2. destruct (HA ma H1 H2) as (post & ->).
           exists [], (post ++ new_r). cbn. rewrite <- ?app_assoc. reflexivity.
        -- intros mb H1 H2. destruct (HB mb H1 H2) as (post & ->).
           exists [], (post ++ new_r). cbn. rewrite <- ?app_assoc. reflexivity.
        -- intros ma mb H1 H2. destruct (HAB ma mb H1 H2) as (G1 & G2 & ->).
           split; [congruence|]. split; [congruence|].
           intros s Hin. apply elem_of_app in Hin as [Hin|Hin].
           ++ apply list_elem_of_singleton in Hin. discriminate Hin.
           ++ exact (C3 s Hin).
      * assert (Hne : p <> q) by (intros ->; contradiction).
        destruct (Hpost p Hp) as (PA & PB & PAB).
        split; [|split].
        -- intros ma H1 H2. destruct (PA ma H1 H2) as (pre & post & ->).
           exists (new_q ++ pre), post. now rewrite <- app_assoc.
        -- intros mb H1 H2. destruct (PB mb H1 H2) as (pre & post & ->).
           exists (new_q ++ pre), post. now rewrite <- app_assoc.
        -- intros ma mb H1 H2. destruct (PAB ma mb H1 H2) as (G1 & G2 & G3).
           split; [exact G1|]. split; [exact G2|].
           intros s Hin. apply elem_of_app in Hin as [Hin|Hin].
           ++ exact (hashes_only_elsewhere q p s new_q HQ Hne Hin).
           ++ exact (G3 s Hin).
Qed.

(** Listing an endpoint reads the runner and leaves it as it is. *)
Lemma list_files_pure s r : snd (list_files s r) = r.
Proof.
  assert (PO : PreOrder (fun r r' : runner => r' = r))
    by (split; [intros x; reflexivity | intros x y z -> ->; reflexivity]).
  assert (H : respects (fun r r' : runner => r' = r) (list_files s)).
  { unfold list_files, iter_files, kind_of, LocalEndpoint_iter_files,
      SshEndpoint_iter_files, SSHTransfer_iter_files, files_of, ensure_connected.
    respects_auto. }
  apply H.
Qed.

(** A listed meta is what [stat] reports: a size and a time, no hash. *)
Lemma list_files_metas s r files p m :
  fst (list_files s r) = Ret files -> files !! p = Some m ->
  exists f, m = meta_of_file f.
Proof.
  unfold list_files, iter_files, kind_of, LocalEndpoint_iter_files,
    SshEndpoint_iter_files, SSHTransfer_iter_files, files_of, ensure_connected,
    bind, gets, ret, raise.
  cbn. intros Hl Hp.
  destruct (ep_type (endpoints r s)); cbn in Hl.
  - injection Hl as <-. apply elem_of_list_to_map_2 in Hp.
    apply list_elem_of_omap in Hp as ([q f] & _ & Hf).
    destruct (_ && _); [|discriminate Hf]. injection Hf as _ <-. eauto.
  - destruct (ep_online (endpoints r s)); cbn in Hl; [|discriminate Hl].
    injection Hl as <-. apply elem_of_list_to_map_2 in Hp.
    apply list_elem_of_omap in Hp as ([q f] & _ & Hf).
    destruct (negb _); [|discriminate Hf]. injection Hf as _ <-. eauto.
Qed.

End BaselineTheorem.

Lemma new_events_app r r' new :
  trace r' = trace r ++ new -> new_events r r' = new.
Proof. intros H. unfold new_events. rewrite H. apply drop_app_length. Qed.

Section InitialSync.
Context {host : Host}.


End InitialSync.


Lemma replace_from_skip (old new : bytes) (s : bytes) :
  forall k, replace_from old new k s = replace_from old new 0 (drop k s).
Proof.
  induction s as [|c s IH]; intros [|k]; try reflexivity.
  cbn [replace_from drop]. apply IH.
Qed.

Lemma eqb_refl_byte (c : byte) : Byte.eqb c c = true.
Proof. now apply byte_dec_lb. Qed.

Lemma is_break_lf : is_break LF = true.
Proof. reflexivity. Qed.

Lemma text_of_fold_crlf (s : bytes) :
  forall k, text_of (replace_from [CR; LF] [LF] k s) = text_of (drop k s).
Proof.
  induction s as [|c s IH]; intros [|k]; try reflexivity.
  - cbn [replace_from drop].
    destruct (starts_with [CR; LF] (c :: s)) eqn:E.
    + cbn [starts_with] in E. apply andb_prop in E as [Ec E].
      apply byte_dec_bl in Ec. subst c.
      destruct s as [|d s]; [discriminate|].
      cbn [starts_with] in E.
      apply andb_prop in E as [Ed _]. apply byte_dec_bl in Ed. subst d.
      change (text_of (replace_from [CR; LF] [LF] 1 (LF :: s)) = text_of (drop 1 (LF :: s))).
      apply IH.
    + unfold text_of. cbn [List.filter]. fold (text_of (replace_from [CR; LF] [LF] 0 s)).
      rewrite (IH 0%nat). reflexivity.
  - cbn [replace_from drop]. apply IH.
Qed.

Lemma text_of_replace_cr (s : bytes) : text_of (bytes_replace [CR] [LF] s) = text_of s.
Proof.
  rewrite replace_cr_map. unfold text_of.
  induction s as [|c s IH]; [reflexivity|]. cbn [map List.filter].
  rewrite IH. destruct (Byte.eqb CR c) eqn:E; [|reflexivity].
  apply byte_dec_bl in E. subst c. reflexivity.
Qed.

Lemma text_of_expand (s : bytes) : text_of (bytes_replace [LF] [CR; LF] s) = text_of s.
Proof.
  rewrite replace_lf_expand. unfold text_of.
  induction s as [|c s IH]; [reflexivity|]. cbn [flat_map].
  rewrite List.filter_app, IH. destruct (Byte.eqb LF c) eqn:E.
  - apply byte_dec_bl in E. subst c. reflexivity.
  - cbn [List.filter]. now destruct (negb (is_break c)).
Qed.

(** X1.  Normalisation only rewrites line breaks: the
    bytes other than CR and LF are the same, in the same order, before and
    after, whatever the policy. *)
Theorem normalize_bytes_keeps_text (x : bytes) (p : eol) :
  text_of (_normalize_bytes x p) = text_of x.
Proof.
  assert (H : text_of (bytes_replace [CR] [LF] (bytes_replace [CR; LF] [LF] x)) = text_of x).
  { rewrite text_of_replace_cr. unfold bytes_replace. apply (text_of_fold_crlf x 0%nat). }
  destruct p; cbn [_normalize_bytes]; [exact H | | reflexivity].
  now rewrite text_of_expand.
Qed.

Lemma crlf_only_expand (s : bytes) :
  no_cr s -> crlf_only (bytes_replace [LF] [CR; LF] s) = true.
Proof.
  rewrite replace_lf_expand.
  induction 1 as [|c s Hc _ IH]; [reflexivity|]. cbn [flat_map].
  destruct (Byte.eqb LF c) eqn:E.
  - cbn. exact IH.
  - cbn [app crlf_only].
    assert (Byte.eqb c CR = false) as ->.
    { destruct (Byte.eqb c CR) eqn:E'; [|reflexivity]. apply byte_dec_bl in E'. congruence. }
    assert (Byte.eqb c LF = false) as ->.
    { destruct (Byte.eqb c LF) eqn:E'; [|reflexivity]. apply byte_dec_bl in E'.
      subst c. discriminate E. }
    exact IH.
Qed.

(** X2.  The normal form for lf holds no carriage return; in
    the normal form for crlf every carriage return is followed by a line
    feed and every line feed follows a carriage return. *)
Theorem normalize_bytes_shape (x : bytes) :
  no_cr (_normalize_bytes x Eol_lf)
  /\ crlf_only (_normalize_bytes x Eol_crlf) = true.
Proof.
  cbn [_normalize_bytes]. split; [apply replace_cr_no_cr|].
  apply crlf_only_expand, replace_cr_no_cr.
Qed.

Lemma normalize_lf_twice (x : bytes) (t : eol) :
  _normalize_bytes (_normalize_bytes x t) Eol_lf = _normalize_bytes x Eol_lf.
Proof.
  pose proof (replace_cr_no_cr (bytes_replace [CR; LF] [LF] x)) as H.
  destruct t; cbn [_normalize_bytes]; [| |reflexivity].
  - now rewrite (replace_crlf_id _ H), (replace_cr_id _ H).
  - now rewrite (fold_after_expand _ H), (replace_cr_id _ H).
Qed.

(** X3.  Normalising content that was already normalised,
    for whatever policy, gives what normalising the original gives: the
    outcome depends on the last policy only (a policy other than keep). *)
Theorem normalize_bytes_switch (x : bytes) (t1 t2 : eol) :
  t2 <> Eol_keep ->
  _normalize_bytes (_normalize_bytes x t1) t2 = _normalize_bytes x t2.
Proof.
  intros Hk. pose proof (normalize_lf_twice x t1) as H.
  destruct t2; [exact H | | congruence].
  cbn [_normalize_bytes] in *. now rewrite H.
Qed.

Lemma normalize_bytes_switch_witness :
  _normalize_bytes (_normalize_bytes [x61; x0d; x0a; x62; x0d; x63; x0a] Eol_crlf) Eol_lf
  = [x61; x0a; x62; x0a; x63; x0a].
Proof.
  rewrite (normalize_bytes_switch _ Eol_crlf Eol_lf); [reflexivity|discriminate].
Defined.

(** ** Text files and line endings of whole files *)

Lemma text_not_binary (e : string) :
  e ∈ TEXT_EXTENSIONS -> e ∉ BINARY_EXTENSIONS.
Proof.
  intros He.
  assert (H : Forall (fun e => e ∉ BINARY_EXTENSIONS) TEXT_EXTENSIONS).
  { apply Forall_forall. intros x Hx.
    assert (Hb : forallb (fun e => negb (bool_decide (e ∈ BINARY_EXTENSIONS)))
                   TEXT_EXTENSIONS = true) by (vm_compute; reflexivity).
    rewrite forallb_forall in Hb. apply list_elem_of_In in Hx.
    specialize (Hb x Hx). apply negb_true_iff, bool_decide_eq_false in Hb. exact Hb. }
  rewrite Forall_forall in H. now apply H.
Qed.

Lemma special_name_suffix (p : string) :
  Path_name p ∈ ["Makefile"; "Dockerfile"; "Jenkinsfile"; "README"; "LICENSE"] ->
  Path_suffix p = "".
Proof.
  intros H. unfold Path_suffix.
  repeat (apply elem_of_cons in H as [->|H]; [reflexivity|]).
  now apply elem_of_nil in H.
Qed.

Lemma text_extension_is_text_file (fp : side * string) (r : runner) :
  lower (Path_suffix (snd fp)) ∈ TEXT_EXTENSIONS -> is_text_file fp r = (Ret true, r).
Proof.
  intros Ht. unfold is_text_file.
  rewrite (bool_decide_eq_false_2 _ (text_not_binary _ Ht)).
  now rewrite (bool_decide_eq_true_2 _ Ht).
Qed.

(** X4.  Whatever the two-way engine takes for a text path, the one-way
    engine takes for a text file, without looking at the file. *)
Theorem text_path_is_text_file (s : side) (p : string) (r : runner) :
  _is_text_path p = true -> is_text_file (s, p) r = (Ret true, r).
Proof.
  unfold _is_text_path.
  destruct (bool_decide (lower (Path_suffix p) ∈ TEXT_EXTENSIONS)) eqn:Et.
  - intros _. apply bool_decide_eq_true in Et.
    now apply text_extension_is_text_file.
  - intros Hs. apply bool_decide_eq_true in Hs.
    unfold is_text_file. cbn [fst snd].
    rewrite (special_name_suffix p Hs). cbn [lower].
    rewrite (bool_decide_eq_true_2 _ Hs).
    reflexivity.
Qed.

Lemma text_path_is_text_file_witness :
  is_text_file (A, "docs/README") (sample_runner (sample_endpoint Local ∅) (sample_endpoint Local ∅) ∅)
  = (Ret true, sample_runner (sample_endpoint Local ∅) (sample_endpoint Local ∅) ∅).
Proof. apply text_path_is_text_file. reflexivity. Defined.

Lemma os_read_run (s : side) (p : string) (r : runner) (f : file) :
  ep_files (endpoints r s) !! p = Some f ->
  p ∉ ep_denied (endpoints r s) ->
  os_read s p r = (Ret f, r).
Proof.
  intros Hf Hd. unfold os_read, files_of, denied, bind, gets, ret. cbn beta.
  now rewrite Hf, (bool_decide_eq_false_2 _ Hd).
Qed.

Section HashingFacts.
Context {host : Host}.

Lemma hash_normalized_text (fp : side * string) (mode : eol) (r : runner) (f : file) :
  mode <> Eol_keep ->
  lower (Path_suffix (snd fp)) ∈ TEXT_EXTENSIONS ->
  ep_files (endpoints r (fst fp)) !! snd fp = Some f ->
  snd fp ∉ ep_denied (endpoints r (fst fp)) ->
  calculate_file_hash_normalized fp mode r
  = (Ret (hexdigest (_normalize_bytes (f_data f) mode)), r).
Proof.
  intros Hk Ht Hf Hd.
  assert (Htext : is_text_file fp r = (Ret true, r)).
  { now apply text_extension_is_text_file. }
  pose proof (normalize_line_endings_returns fp mode r f Hk Hf Hd) as Hn.
  unfold calculate_file_hash_normalized.
  destruct mode; [| |congruence];
    rewrite !bind_run, Htext; cbn [ret negb]; rewrite bind_run, Hn; reflexivity.
Qed.

(** X5.  For a file with a text extension, the normalised hash does not
    depend on the line-ending convention the file is stored in: the file
    and its conversion to any convention hash alike. *)
Theorem hash_ignores_line_endings
    (fp : side * string) (mode stored : eol) (r1 r2 : runner) (f1 f2 : file) :
  mode <> Eol_keep ->
  lower (Path_suffix (snd fp)) ∈ TEXT_EXTENSIONS ->
  ep_files (endpoints r1 (fst fp)) !! snd fp = Some f1 ->
  snd fp ∉ ep_denied (endpoints r1 (fst fp)) ->
  ep_files (endpoints r2 (fst fp)) !! snd fp = Some f2 ->
  snd fp ∉ ep_denied (endpoints r2 (fst fp)) ->
  f_data f2 = _normalize_bytes (f_data f1) stored ->
  let h := hexdigest (_normalize_bytes (f_data f1) mode) in
  fst (calculate_file_hash_normalized fp mode r1) = Ret h
  /\ fst (calculate_file_hash_normalized fp mode r2) = Ret h.
Proof.
  intros Hk Ht Hf1 Hd1 Hf2 Hd2 Hdata h.
  rewrite (hash_normalized_text fp mode r1 f1), (hash_normalized_text fp mode r2 f2)
    by assumption.
  cbn [fst]. split; [reflexivity|]. rewrite Hdata. subst h.
  destruct mode; [| |congruence].
  - now rewrite normalize_lf_twice.
  - cbn [_normalize_bytes].
    pose proof (normalize_lf_twice (f_data f1) stored) as H.
    cbn [_normalize_bytes] in H. now rewrite H.
Qed.

End HashingFacts.

(** *** Counting line breaks *)

Lemma count_from_skip (sub s : bytes) :
  forall k, count_from sub k s = count_from sub 0 (drop k s).
Proof.
  induction s as [|c s IH]; intros [|k]; try reflexivity.
  cbn [count_from drop]. apply IH.
Qed.

Lemma count_one (b c : byte) (s : bytes) :
  count_from [b] 0 (c :: s)
  = ((if Byte.eqb b c then 1 else 0) + count_from [b] 0 s)%nat.
Proof. cbn. rewrite andb_true_r. now destruct (Byte.eqb b c). Qed.

Lemma count_pair_hit (t : bytes) :
  count_from [CR; LF] 0 (CR :: LF :: t) = S (count_from [CR; LF] 0 t).
Proof. reflexivity. Qed.

Lemma count_pair_miss (c : byte) (t : bytes) :
  starts_with [CR; LF] (c :: t) = false ->
  count_from [CR; LF] 0 (c :: t) = count_from [CR; LF] 0 t.
Proof. intros H. cbn [count_from]. now rewrite H. Qed.

Lemma count_one_pos (b : byte) (s : bytes) :
  (0 < count_from [b] 0 s)%nat <-> existsb (Byte.eqb b) s = true.
Proof.
  induction s as [|c s IH]; [cbn; split; [lia|discriminate]|].
  rewrite count_one. cbn [existsb]. rewrite orb_true_iff, <- IH.
  destruct (Byte.eqb b c); split; intros H; try lia; auto;
    try (destruct H as [H|H]; [discriminate|lia]).
Qed.

Lemma byte_eqb_sym (a b : byte) : Byte.eqb a b = Byte.eqb b a.
Proof.
  destruct (Byte.eqb a b) eqn:E.
  - apply byte_dec_bl in E. subst. symmetry. now apply byte_dec_lb.
  - destruct (Byte.eqb b a) eqn:E'; [|reflexivity].
    apply byte_dec_bl in E'. subst. now rewrite (byte_dec_lb eq_refl) in E.
Qed.

(** Pairs never outnumber either kind of break, and they account for all
    of them exactly on the strings in which breaks only come in pairs. *)
Lemma count_pairs (n : nat) :
  forall s : bytes, (length s <= n)%nat ->
    let p := count_from [CR; LF] 0 s in
    let l := count_from [LF] 0 s in
    let c := count_from [CR] 0 s in
    (p <= l)%nat /\ (p <= c)%nat /\ ((l = p /\ c = p) <-> crlf_only s = true).
Proof.
  induction n as [|n IH]; intros s Hn.
  - destruct s; [|cbn in Hn; lia]. cbn. repeat split; auto.
  - destruct s as [|a s]; [cbn; repeat split; auto|].
    cbn [length] in Hn.
    destruct (starts_with [CR; LF] (a :: s)) eqn:E.
    + cbn [starts_with] in E. apply andb_prop in E as [Ea E].
      apply byte_dec_bl in Ea. subst a.
      destruct s as [|d s]; [discriminate|]. cbn [starts_with] in E.
      apply andb_prop in E as [Ed _]. apply byte_dec_bl in Ed. subst d.
      cbn [length] in Hn. destruct (IH s ltac:(lia)) as (H1 & H2 & H3).
      cbn zeta. rewrite count_pair_hit, !count_one.
      change (Byte.eqb LF CR) with false. change (Byte.eqb CR LF) with false.
      rewrite !(byte_dec_lb eq_refl).
      change (crlf_only (CR :: LF :: s)) with (crlf_only s).
      cbn zeta in H1, H2, H3. rewrite <- H3. lia.
    + destruct (IH s ltac:(lia)) as (H1 & H2 & H3). cbn zeta in *.
      rewrite (count_pair_miss _ _ E), !count_one.
      cbn [starts_with] in E. cbn [crlf_only].
      rewrite (byte_eqb_sym a CR), (byte_eqb_sym a LF).
      destruct (Byte.eqb CR a) eqn:Ea.
      * apply byte_dec_bl in Ea. subst a.
        change (Byte.eqb LF CR) with false. cbn [andb] in E.
        split; [lia|]. split; [lia|].
        destruct s as [|d s]; [split; [intros [_ Hc]; cbn in *; lia|discriminate]|].
        rewrite andb_true_r in E. rewrite (byte_eqb_sym d LF), E. cbn [andb].
        split; [lia|discriminate].
      * destruct (Byte.eqb LF a) eqn:El; cbn [negb andb].
        -- split; [lia|]. split; [lia|]. split; [lia|discriminate].
        -- rewrite <- H3. split; [lia|]. split; [lia|]. lia.
Qed.

Lemma has_line_break_split (s : bytes) :
  has_line_break s = existsb (Byte.eqb CR) s || existsb (Byte.eqb LF) s.
Proof.
  induction s as [|c s IH]; [reflexivity|].
  unfold has_line_break in *. cbn [existsb]. rewrite IH. unfold is_break.
  rewrite (byte_eqb_sym c CR), (byte_eqb_sym c LF).
  destruct (Byte.eqb CR c), (Byte.eqb LF c), (existsb (Byte.eqb CR) s); reflexivity.
Qed.

(** What the three counts of [detect_line_ending] say about the content. *)
Lemma line_ending_of_spec (s : bytes) :
  (line_ending_of s = "crlf" <-> crlf_only s = true /\ has_line_break s = true)
  /\ (line_ending_of s = "lf"
      <-> existsb (Byte.eqb LF) s = true /\ existsb (Byte.eqb CR) s = false)
  /\ (line_ending_of s = "cr"
      <-> existsb (Byte.eqb CR) s = true /\ existsb (Byte.eqb LF) s = false)
  /\ (has_line_break s = false -> line_ending_of s = "mixed").
Proof.
  destruct (count_pairs (length s) s (le_n _)) as (H1 & H2 & H3). cbn zeta in *.
  pose proof (count_one_pos LF s) as Hl. pose proof (count_one_pos CR s) as Hc.
  rewrite has_line_break_split.
  unfold line_ending_of, bytes_count.
  set (p := count_from [CR; LF] 0 s) in *.
  set (l := count_from [LF] 0 s) in *.
  set (c := count_from [CR] 0 s) in *.
  destruct (existsb (Byte.eqb LF) s), (existsb (Byte.eqb CR) s), (crlf_only s);
    destruct (0 <? Z.of_nat p) eqn:E1;
    destruct (Z.of_nat l - Z.of_nat p =? 0) eqn:E2;
    destruct (Z.of_nat c - Z.of_nat p =? 0) eqn:E3;
    destruct (0 <? Z.of_nat l - Z.of_nat p) eqn:E4;
    destruct (Z.of_nat p =? 0) eqn:E5;
    destruct (0 <? Z.of_nat c - Z.of_nat p) eqn:E6;
    cbn [andb orb];
    rewrite ?Z.ltb_lt, ?Z.ltb_ge, ?Z.eqb_eq, ?Z.eqb_neq in *;
    try (exfalso; intuition (try discriminate; lia));
    intuition (try discriminate; try reflexivity; try lia).
Qed.

(** X6.  [detect_line_ending] never raises and changes nothing.  On a file
    it can read it answers ["crlf"] exactly when the content has line
    breaks and they all are CR LF pairs, ["lf"] exactly when it has a line
    feed and no carriage return, ["cr"] exactly when it has a carriage
    return and no line feed; a content without any line break is
    ["mixed"]. *)
Theorem detect_line_ending_verdict (fp : side * string) (r : runner) (f : file) :
  ep_files (endpoints r (fst fp)) !! snd fp = Some f ->
  snd fp ∉ ep_denied (endpoints r (fst fp)) ->
  exists v,
    detect_line_ending fp r = (Ret v, r)
    /\ (v = "crlf" <-> crlf_only (f_data f) = true /\ has_line_break (f_data f) = true)
    /\ (v = "lf" <-> existsb (Byte.eqb LF) (f_data f) = true
                     /\ existsb (Byte.eqb CR) (f_data f) = false)
    /\ (v = "cr" <-> existsb (Byte.eqb CR) (f_data f) = true
                     /\ existsb (Byte.eqb LF) (f_data f) = false)
    /\ (has_line_break (f_data f) = false -> v = "mixed").
Proof.
  intros Hf Hd. exists (line_ending_of (f_data f)). split.
  - unfold detect_line_ending, try_except. rewrite bind_run, (os_read_run _ _ _ f Hf Hd).
    reflexivity.
  - apply line_ending_of_spec.
Qed.

Lemma has_line_break_fold (s : bytes) :
  has_line_break (replace_from [CR; LF] [LF] 0 s) = has_line_break s.
Proof.
  induction s as [|c s IH]; [reflexivity|]. cbn [replace_from].
  destruct (starts_with [CR; LF] (c :: s)) eqn:E.
  - cbn [starts_with] in E. apply andb_prop in E as [Ec _].
    apply byte_dec_bl in Ec. subst c. reflexivity.
  - unfold has_line_break in *. cbn [existsb]. now rewrite IH.
Qed.

Lemma has_line_break_cr (s : bytes) :
  has_line_break (bytes_replace [CR] [LF] s) = has_line_break s.
Proof.
  rewrite replace_cr_map. unfold has_line_break.
  induction s as [|c s IH]; [reflexivity|].
  cbn [map existsb]. rewrite IH. f_equal.
  destruct (Byte.eqb CR c) eqn:E; [|reflexivity].
  apply byte_dec_bl in E. subst c. reflexivity.
Qed.

Lemma has_line_break_expand (s : bytes) :
  has_line_break (bytes_replace [LF] [CR; LF] s) = has_line_break s.
Proof.
  rewrite replace_lf_expand. unfold has_line_break.
  induction s as [|c s IH]; [reflexivity|].
  cbn [flat_map]. rewrite existsb_app, IH. cbn [existsb]. f_equal.
  destruct (Byte.eqb LF c) eqn:E; [|cbn; now rewrite orb_false_r].
  apply byte_dec_bl in E. subst c. reflexivity.
Qed.

Lemma has_line_break_normalize (x : bytes) (t : eol) :
  has_line_break (_normalize_bytes x t) = has_line_break x.
Proof.
  assert (H : has_line_break (bytes_replace [CR] [LF] (bytes_replace [CR; LF] [LF] x))
              = has_line_break x).
  { rewrite has_line_break_cr. apply has_line_break_fold. }
  destruct t; cbn [_normalize_bytes]; [exact H| |reflexivity].
  now rewrite has_line_break_expand.
Qed.

Lemma no_cr_existsb (s : bytes) : no_cr s -> existsb (Byte.eqb CR) s = false.
Proof.
  induction 1 as [|c s Hc _ IH]; [reflexivity|]. cbn [existsb].
  now rewrite (eqb_cr_false c Hc), IH.
Qed.

Lemma line_ending_of_normalized (x : bytes) (t : eol) :
  t <> Eol_keep ->
  line_ending_of (_normalize_bytes x t)
  = if has_line_break x
    then match t with Eol_crlf => "crlf" | _ => "lf" end
    else "mixed".
Proof.
  intros Hk.
  destruct (line_ending_of_spec (_normalize_bytes x t)) as (Hcrlf & Hlf & _ & Hmixed).
  rewrite has_line_break_normalize in Hcrlf, Hmixed.
  destruct (has_line_break x) eqn:Hb; [|now apply Hmixed].
  destruct t; [| |congruence].
  - apply Hlf.
    pose proof (replace_cr_no_cr (bytes_replace [CR; LF] [LF] x)) as Hn.
    fold (_normalize_bytes x Eol_lf) in Hn.
    pose proof (has_line_break_normalize x Eol_lf) as Hh.
    rewrite has_line_break_split, (no_cr_existsb _ Hn), Hb in Hh.
    split; [exact Hh|apply (no_cr_existsb _ Hn)].
  - apply Hcrlf. split; [|reflexivity].
    apply crlf_only_expand, replace_cr_no_cr.
Qed.

(** *** What a successful write leaves in the trees *)

Lemma os_store_ok (s : side) (p : string) (f : file) (r : runner) :
  p ∉ ep_denied (endpoints r s) ->
  exists r',
    os_store s p f r = (Ret tt, r')
    /\ ep_files (endpoints r' s) = <[p := f]> (ep_files (endpoints r s))
    /\ ep_files (endpoints r' (other s)) = ep_files (endpoints r (other s))
    /\ (forall s', same_setup (endpoints r s') (endpoints r' s'))
    /\ eol_normalize r' = eol_normalize r
    /\ clock r' = clock r /\ clock_reads r' = clock_reads r.
Proof.
  intros Hd. eexists. split.
  - unfold os_store, put_files, files_of, denied, emit, modify, bind, gets, ret.
    cbn beta. rewrite (bool_decide_eq_false_2 _ Hd). reflexivity.
  - destruct s; cbn; (split; [reflexivity|]); (split; [reflexivity|]);
      (split; [intros []; repeat split|]); repeat split.
Qed.

Lemma os_create_ok (s : side) (p : string) (d : bytes) (r : runner) :
  p ∉ ep_denied (endpoints r s) ->
  exists r',
    os_create s p d r = (Ret tt, r')
    /\ ep_files (endpoints r' s)
       = <[p := {| f_data := d; f_mtime := clock r (clock_reads r) |}]>
           (ep_files (endpoints r s))
    /\ ep_files (endpoints r' (other s)) = ep_files (endpoints r (other s))
    /\ (forall s', same_setup (endpoints r s') (endpoints r' s'))
    /\ eol_normalize r' = eol_normalize r
    /\ clock r' = clock r /\ clock_reads r' = S (clock_reads r).
Proof.
  intros Hd.
  destruct (os_store_ok s p {| f_data := d; f_mtime := clock r (clock_reads r) |}
              (set_clock_reads (S (clock_reads r)) r))
    as (r' & Hrun & H1 & H2 & H3 & H4 & H5 & H6); [now destruct s|].
  exists r'. split.
  - unfold os_create, denied, time_now. rewrite bind_run. unfold gets at 1.
    rewrite (bool_decide_eq_false_2 _ Hd), bind_run. exact Hrun.
  - repeat split; try assumption; try (now destruct s); apply H3.
Qed.

(** X7.  After a file was normalised in place, [detect_line_ending] reports
    the target convention, or ["mixed"] when the file has no line break
    at all. *)
Theorem detect_after_normalize
    (fp : side * string) (target : eol) (r : runner) (f : file) :
  target <> Eol_keep ->
  ep_files (endpoints r (fst fp)) !! snd fp = Some f ->
  snd fp ∉ ep_denied (endpoints r (fst fp)) ->
  let r' := snd (normalize_line_endings fp target true r) in
  fst (normalize_line_endings fp target true r) = Ret None
  /\ fst (detect_line_ending fp r')
     = Ret (if has_line_break (f_data f)
            then match target with Eol_crlf => "crlf" | _ => "lf" end
            else "mixed").
Proof.
  intros Hk Hf Hd.
  destruct (os_create_ok (fst fp) (snd fp) (_normalize_bytes (f_data f) target) r Hd)
    as (r1 & Hc & Hfiles & _ & Hsetup & _).
  assert (Hrun : normalize_line_endings fp target true r = (Ret None, r1)).
  { destruct target; [| |congruence];
      unfold normalize_line_endings, try_except;
      rewrite !bind_run, (os_read_run _ _ _ f Hf Hd);
      cbv beta iota zeta; rewrite ?bind_run;
      cbn [_normalize_bytes] in Hc; rewrite Hc; reflexivity. }
  rewrite Hrun. cbn [fst snd]. split; [reflexivity|].
  rewrite <- (line_ending_of_normalized (f_data f) target Hk).
  unfold detect_line_ending, try_except. rewrite bind_run.
  rewrite (os_read_run (fst fp) (snd fp) r1
             {| f_data := _normalize_bytes (f_data f) target;
                f_mtime := clock r (clock_reads r) |}); [reflexivity| |].
  - rewrite Hfiles. apply lookup_insert_eq.
  - destruct (Hsetup (fst fp)) as (_ & _ & _ & _ & _ & _ & Hden & _). now rewrite Hden.
Qed.

Lemma hash_ignores_line_endings_witness :
  fst (calculate_file_hash_normalized (A, "f.txt") Eol_lf equal_runner)
  = Ret (string_of_list_byte abc_lf)
  /\ fst (calculate_file_hash_normalized (A, "f.txt") Eol_lf crlf_runner)
     = Ret (string_of_list_byte abc_lf).
Proof.
  change (string_of_list_byte abc_lf)
    with (hexdigest (_normalize_bytes (f_data (text_file abc_lf)) Eol_lf)).
  apply (hash_ignores_line_endings (A, "f.txt") Eol_lf Eol_crlf equal_runner crlf_runner
           (text_file abc_lf) (text_file abc_crlf)).
  - discriminate.
  - apply (bool_decide_unpack _). vm_compute. exact I.
  - reflexivity.
  - apply (bool_decide_unpack _). vm_compute. exact I.
  - reflexivity.
  - apply (bool_decide_unpack _). vm_compute. exact I.
  - reflexivity.
Defined.

Lemma detect_line_ending_verdict_witness :
  exists v,
    detect_line_ending (A, "f.txt") crlf_runner = (Ret v, crlf_runner)
    /\ (v = "crlf" <-> crlf_only abc_crlf = true /\ has_line_break abc_crlf = true)
    /\ (v = "lf" <-> existsb (Byte.eqb LF) abc_crlf = true
                     /\ existsb (Byte.eqb CR) abc_crlf = false)
    /\ (v = "cr" <-> existsb (Byte.eqb CR) abc_crlf = true
                     /\ existsb (Byte.eqb LF) abc_crlf = false)
    /\ (has_line_break abc_crlf = false -> v = "mixed").
Proof.
  apply (detect_line_ending_verdict (A, "f.txt") crlf_runner (text_file abc_crlf)).
  - reflexivity.
  - apply (bool_decide_unpack _). vm_compute. exact I.
Defined.

Lemma detect_after_normalize_witness :
  fst (normalize_line_endings (A, "f.txt") Eol_lf true crlf_runner) = Ret None
  /\ fst (detect_line_ending (A, "f.txt")
            (snd (normalize_line_endings (A, "f.txt") Eol_lf true crlf_runner)))
     = Ret "lf".
Proof.
  apply (detect_after_normalize (A, "f.txt") Eol_lf crlf_runner (text_file abc_crlf)).
  - discriminate.
  - reflexivity.
  - apply (bool_decide_unpack _). vm_compute. exact I.
Defined.

(** ** What the file operations do to the trees *)

Lemma bind_gets {X Y} (f : runner -> X) (k : X -> M Y) (r : runner) :
  bind (gets f) k r = k (f r) r.
Proof. reflexivity. Qed.

Lemma bind_inv {X Y} (m : M X) (k : X -> M Y) (r : runner) (y : Y) (r' : runner) :
  bind m k r = (Ret y, r') ->
  exists x r1, m r = (Ret x, r1) /\ k x r1 = (Ret y, r').
Proof. unfold bind. destruct (m r) as [[x|e] r1]; [eauto|discriminate]. Qed.

Lemma try_raise_inv {X} (m : M X) (k : exn_kind) (f : exn -> string)
    (r : runner) (x : X) (r' : runner) :
  try_except m (fun e => raise k (f e)) r = (Ret x, r') -> m r = (Ret x, r').
Proof. unfold try_except. destruct (m r) as [[x0|e] r1]; [auto|discriminate]. Qed.

Lemma ensure_connected_inv (s : side) (r r' : runner) :
  ensure_connected s r = (Ret tt, r') ->
  r' = r /\ ep_online (endpoints r s) = true.
Proof.
  unfold ensure_connected. rewrite bind_gets.
  destruct (ep_online (endpoints r s)); [|discriminate].
  intros H. injection H as <-. auto.
Qed.

Lemma os_read_inv (s : side) (p : string) (r : runner) (f : file) (r' : runner) :
  os_read s p r = (Ret f, r') ->
  r' = r /\ ep_files (endpoints r s) !! p = Some f /\ (p ∉ ep_denied (endpoints r s)).
Proof.
  unfold os_read, files_of, denied. rewrite !bind_gets.
  destruct (ep_files (endpoints r s) !! p) as [f0|]; [|discriminate].
  destruct (bool_decide (p ∈ ep_denied (endpoints r s))) eqn:E; [discriminate|].
  apply bool_decide_eq_false in E. intros H. injection H as <- <-. auto.
Qed.

Lemma tree_change_refl (s : side) (r : runner) : tree_change s (fun fs => fs) r r.
Proof. repeat split. Qed.

Lemma os_store_inv (s : side) (p : string) (f : file) (r r' : runner) :
  os_store s p f r = (Ret tt, r') ->
  (p ∉ ep_denied (endpoints r s)) /\ tree_change s (insert p f) r r'.
Proof.
  unfold os_store, denied. rewrite bind_gets.
  destruct (bool_decide (p ∈ ep_denied (endpoints r s))) eqn:E; [discriminate|].
  apply bool_decide_eq_false in E. intros H. split; [exact E|].
  unfold put_files, files_of, emit, modify, bind, gets, ret in H.
  injection H as <-.
  destruct s; cbn; (split; [reflexivity|]); (split; [reflexivity|]);
    (split; [intros []; repeat split|reflexivity]).
Qed.

Lemma os_create_inv (s : side) (p : string) (d : bytes) (r r' : runner) :
  os_create s p d r = (Ret tt, r') ->
  (p ∉ ep_denied (endpoints r s))
  /\ tree_change s (insert p {| f_data := d; f_mtime := clock r (clock_reads r) |}) r r'.
Proof.
  unfold os_create, denied. rewrite bind_gets.
  destruct (bool_decide (p ∈ ep_denied (endpoints r s))) eqn:E; [discriminate|].
  apply bool_decide_eq_false in E. intros H. split; [exact E|].
  unfold time_now in H. rewrite bind_run in H.
  apply os_store_inv in H as [_ (H1 & H2 & H3 & H4)].
  split; [|split; [|split]].
  - rewrite H1. now destruct s.
  - rewrite H2. now destruct s.
  - intros s'. specialize (H3 s'). now destruct s'.
  - exact H4.
Qed.

(** What a change of tree leaves as it was. *)
Lemma tree_change_denied s g r r' s' :
  tree_change s g r r' -> ep_denied (endpoints r' s') = ep_denied (endpoints r s').
Proof. intros (_ & _ & H & _). now destruct (H s') as (_ & _ & _ & _ & _ & _ & ? & _). Qed.

Lemma tree_change_online s g r r' s' :
  tree_change s g r r' -> ep_online (endpoints r' s') = ep_online (endpoints r s').
Proof. intros (_ & _ & H & _). now destruct (H s') as (_ & _ & _ & _ & _ & _ & _ & ?). Qed.

Lemma tree_change_type s g r r' s' :
  tree_change s g r r' -> ep_type (endpoints r' s') = ep_type (endpoints r s').
Proof. intros (_ & _ & H & _). now destruct (H s') as (? & _). Qed.

Lemma tree_change_trash s g r r' s' :
  tree_change s g r r' -> trash_dir (endpoints r' s') = trash_dir (endpoints r s').
Proof. intros (_ & _ & H & _). now destruct (H s') as (_ & _ & _ & _ & ? & _). Qed.

Lemma tree_change_trans s g h r r1 r2 :
  tree_change s g r r1 -> tree_change s h r1 r2 ->
  tree_change s (fun fs => h (g fs)) r r2.
Proof.
  intros (H1 & H2 & H3 & H4) (G1 & G2 & G3 & G4).
  split; [now rewrite G1, H1|]. split; [now rewrite G2, H2|].
  split; [|now rewrite G4, H4].
  intros s'. eapply same_setup_trans; [apply H3|apply G3].
Qed.

Lemma os_read_cases (s : side) (p : string) (r : runner) :
  (exists f, os_read s p r = (Ret f, r)
             /\ ep_files (endpoints r s) !! p = Some f
             /\ (p ∉ ep_denied (endpoints r s)))
  \/ (exists e, os_read s p r = (Raise e, r)
                /\ (ep_files (endpoints r s) !! p = None
                    \/ p ∈ ep_denied (endpoints r s))).
Proof.
  unfold os_read, files_of, denied. rewrite !bind_gets.
  destruct (ep_files (endpoints r s) !! p) as [f|] eqn:Hf.
  - destruct (bool_decide (p ∈ ep_denied (endpoints r s))) eqn:E.
    + right. eexists. split; [reflexivity|]. right. now apply bool_decide_eq_true in E.
    + left. exists f. apply bool_decide_eq_false in E. auto.
  - right. eexists. split; [reflexivity|]. now left.
Qed.

Lemma os_create_cases (s : side) (p : string) (d : bytes) (r : runner) :
  (exists r', os_create s p d r = (Ret tt, r')
              /\ (p ∉ ep_denied (endpoints r s))
              /\ tree_change s
                   (insert p {| f_data := d; f_mtime := clock r (clock_reads r) |}) r r')
  \/ (exists e, os_create s p d r = (Raise e, r) /\ p ∈ ep_denied (endpoints r s)).
Proof.
  destruct (decide (p ∈ ep_denied (endpoints r s))) as [Hd|Hd].
  - right. unfold os_create, denied. rewrite bind_gets, (bool_decide_eq_true_2 _ Hd).
    eexists. split; [reflexivity|exact Hd].
  - left. destruct (os_create_ok s p d r Hd) as (r' & Hrun & _).
    exists r'. split; [exact Hrun|]. now apply os_create_inv.
Qed.

Lemma os_unlink_cases (s : side) (p : string) (r : runner) :
  (exists r', os_unlink s p r = (Ret tt, r')
              /\ is_Some (ep_files (endpoints r s) !! p)
              /\ (p ∉ ep_denied (endpoints r s))
              /\ tree_change s (delete p) r r')
  \/ (exists e, os_unlink s p r = (Raise e, r)
                /\ ((ep_files (endpoints r s) !! p = None
                     /\ exn_kind_of e = FileNotFoundError)
                    \/ (p ∈ ep_denied (endpoints r s)
                        /\ exn_kind_of e = PermissionError))).
Proof.
  unfold os_unlink, files_of, denied. rewrite !bind_gets.
  destruct (ep_files (endpoints r s) !! p) as [f|] eqn:Hf.
  - destruct (bool_decide (p ∈ ep_denied (endpoints r s))) eqn:E.
    + right. eexists. split; [reflexivity|]. right.
      split; [now apply bool_decide_eq_true in E|reflexivity].
    + left. eexists. split; [reflexivity|]. split; [eauto|].
      split; [now apply bool_decide_eq_false in E|].
      destruct s; cbn; (split; [reflexivity|]); (split; [reflexivity|]);
        (split; [intros []; repeat split|reflexivity]).
  - right. eexists. split; [reflexivity|]. left. auto.
Qed.

Lemma os_rename_cases (s : side) (p q : string) (r : runner) :
  (exists f r', os_rename s p q r = (Ret tt, r')
                /\ ep_files (endpoints r s) !! p = Some f
                /\ (p ∉ ep_denied (endpoints r s))
                /\ (q ∉ ep_denied (endpoints r s))
                /\ tree_change s (fun fs => <[q := f]> (delete p fs)) r r')
  \/ (exists e, os_rename s p q r = (Raise e, r)).
Proof.
  unfold os_rename.
  destruct (os_read_cases s p r) as [(f & Hr & Hf & Hd)|(e & Hr & _)].
  - rewrite bind_run, Hr. unfold denied. rewrite bind_gets.
    destruct (bool_decide (q ∈ ep_denied (endpoints r s))) eqn:E.
    + right. eexists. reflexivity.
    + left. exists f. eexists. split; [reflexivity|]. split; [exact Hf|].
      split; [exact Hd|]. split; [now apply bool_decide_eq_false in E|].
      destruct s; cbn; (split; [reflexivity|]); (split; [reflexivity|]);
        (split; [intros []; repeat split|reflexivity]).
  - right. exists e. now rewrite bind_run, Hr.
Qed.

Lemma ensure_connected_cases (s : side) (r : runner) :
  (ensure_connected s r = (Ret tt, r) /\ ep_online (endpoints r s) = true)
  \/ (exists e, ensure_connected s r = (Raise e, r)
                /\ ep_online (endpoints r s) = false
                /\ exn_kind_of e = ConnectionError).
Proof.
  unfold ensure_connected. rewrite bind_gets.
  destruct (ep_online (endpoints r s)); [left; auto|].
  right. eexists. split; [reflexivity|]. auto.
Qed.

(** *** Reading and writing through an endpoint *)

Lemma read_bytes_inv (s : side) (p : string) (r : runner) (d : bytes) (r' : runner) :
  read_bytes s p r = (Ret d, r') ->
  r' = r
  /\ exists f, ep_files (endpoints r s) !! p = Some f /\ d = f_data f
               /\ (p ∉ ep_denied (endpoints r s))
               /\ (ep_type (endpoints r s) = Ssh -> ep_online (endpoints r s) = true).
Proof.
  unfold read_bytes, kind_of. rewrite bind_gets.
  destruct (ep_type (endpoints r s)) eqn:K.
  - unfold LocalEndpoint_read_bytes. intros H.
    apply bind_inv in H as (f & r1 & Hr & Hret).
    apply os_read_inv in Hr as (-> & Hf & Hd).
    injection Hret as <- <-. split; [reflexivity|].
    exists f. repeat split; auto. discriminate.
  - unfold SshEndpoint_read_bytes, SSHTransfer_read_file_bytes. intros H.
    apply bind_inv in H as ([] & r1 & Hc & H).
    apply ensure_connected_inv in Hc as (-> & Hon).
    apply bind_inv in H as (f & r1 & Hr & Hret).
    apply os_read_inv in Hr as (-> & Hf & Hd).
    injection Hret as <- <-. split; [reflexivity|].
    exists f. repeat split; auto.
Qed.

Lemma write_bytes_inv (s : side) (p : string) (d : bytes) (r r' : runner) :
  write_bytes s p d r = (Ret tt, r') ->
  (p ∉ ep_denied (endpoints r s))
  /\ (ep_type (endpoints r s) = Ssh -> ep_online (endpoints r s) = true)
  /\ tree_change s (insert p {| f_data := d; f_mtime := clock r (clock_reads r) |}) r r'.
Proof.
  unfold write_bytes, kind_of. rewrite bind_gets.
  destruct (ep_type (endpoints r s)) eqn:K.
  - unfold LocalEndpoint_write_bytes. intros H.
    apply os_create_inv in H as (Hd & Htc). repeat split; auto; try apply Htc.
    discriminate.
  - unfold SshEndpoint_write_bytes, SSHTransfer_write_file_bytes. intros H.
    apply bind_inv in H as ([] & r1 & Hc & H).
    apply ensure_connected_inv in Hc as (-> & Hon).
    apply os_create_inv in H as (Hd & Htc). repeat split; auto; apply Htc.
Qed.

(** ** Copies and hashes *)

Lemma run_eq {X} (m : M X) (r : runner) (x : X) :
  fst (m r) = Ret x -> m r = (Ret x, snd (m r)).
Proof. destruct (m r) as [o r']. cbn. now intros ->. Qed.

(** Runs a computation on a symbolic runner: the scrutinees that stand in
    the way are split, each equation found is used again. *)
Ltac run_cases p :=
  repeat (cbn;
    first
      [ match goal with
        | H : ?x = _ |- context [?x] => rewrite H
        end
      | match goal with
        | |- context [ep_type ?e] => destruct (ep_type e) eqn:?
        | |- context [ep_files ?e !! p] => destruct (ep_files e !! p) eqn:?
        | |- context [bool_decide (p ∈ ?d)] => destruct (bool_decide (p ∈ d)) eqn:?
        | |- context [ep_online ?e] => destruct (ep_online e) eqn:?
        | |- context [eol_normalize ?x] => destruct (eol_normalize x) eqn:?
        | |- context [_is_text_path p] => destruct (_is_text_path p) eqn:?
        end ]).

Section Copies.
Context {host : Host}.

Lemma compute_hash_run (s : side) (p : string) (r : runner) :
  _compute_hash s p r
  = (Ret ((fun f => hexdigest (delivered (eol_normalize r) p (f_data f)))
            <$> readable r s p),
     set_trace (trace r ++ [EvHash s p]) r).
Proof.
  unfold _compute_hash, readable, delivered, emit, modify, try_except, kind_of,
    _hash_file, _abs_path, read_bytes, SshEndpoint_read_bytes,
    SSHTransfer_read_file_bytes, ensure_connected, os_exists, os_read, files_of,
    denied, bind, gets, ret, raise.
  destruct s; run_cases p; reflexivity.
Qed.


(** What a copy that returns has found and done. *)
Lemma copy_between_inv (w : side) (p : string) (r r' : runner) :
  _copy_between w (other w) p r = (Ret tt, r') ->
  exists f f',
    readable r w p = Some f
    /\ (p ∉ ep_denied (endpoints r (other w)))
    /\ (ep_type (endpoints r (other w)) = Ssh -> ep_online (endpoints r (other w)) = true)
    /\ tree_change (other w) (insert p f') r r'
    /\ f_data f' = delivered (eol_normalize r) p (f_data f)
    /\ (ep_type (endpoints r w) = Local -> ep_type (endpoints r (other w)) = Local ->
        eol_normalize r = Eol_keep \/ _is_text_path p = false -> f' = f).
Proof.
  set (l := other w).
  assert (Hreadable : forall f,
            ep_files (endpoints r w) !! p = Some f ->
            p ∉ ep_denied (endpoints r w) ->
            (ep_type (endpoints r w) = Ssh -> ep_online (endpoints r w) = true) ->
            readable r w p = Some f).
  { intros f Hf Hd Ho. unfold readable.
    rewrite Hf, (bool_decide_eq_false_2 _ Hd).
    destruct (ep_type (endpoints r w)); [reflexivity|]. now rewrite Ho. }
  unfold _copy_between, kind_of. rewrite !bind_gets. cbv beta zeta.
  unfold delivered.
  destruct (ep_type (endpoints r w)) eqn:Kw, (ep_type (endpoints r l)) eqn:Kl;
    destruct (eol_normalize r) eqn:He; try destruct (_is_text_path p) eqn:Ht;
    cbn [negb]; intros H.
  all: try (apply bind_inv in H as (content & r1 & Hr & Hw);
            apply read_bytes_inv in Hr as (-> & f & Hf & -> & Hd & Ho);
            apply write_bytes_inv in Hw as (Hdl & Hol & Htc);
            rewrite ?Kl in Hol;
            eexists f, _;
            split; [apply Hreadable; auto; intros;
                    first [congruence | apply Ho; assumption]|];
            split; [exact Hdl|]; split; [exact Hol|]; split; [exact Htc|];
            split; [reflexivity|]; intros ? ? [?|?]; congruence).
  all: try (unfold LocalEndpoint_copy_file, _abs_path in H; cbn [fst snd] in H;
            apply bind_inv in H as (f & r1 & Hr & Hs);
            apply os_read_inv in Hr as (-> & Hf & Hd);
            apply os_store_inv in Hs as (Hdl & Htc);
            exists f, f; split; [apply Hreadable; auto; intros; congruence|];
            split; [exact Hdl|]; split; [intros; congruence|]; split; [exact Htc|];
            split; reflexivity).
  all: try (unfold SshEndpoint_upload_file, SSHTransfer_upload_file, _abs_path in H;
            cbn [fst snd] in H;
            apply bind_inv in H as ([] & r1 & Hc & H);
            apply ensure_connected_inv in Hc as (-> & Hon);
            apply try_raise_inv in H;
            apply bind_inv in H as (f & r1 & Hr & Hs);
            apply os_read_inv in Hr as (-> & Hf & Hd);
            apply os_create_inv in Hs as (Hdl & Htc);
            eexists f, _; split; [apply Hreadable; auto; intros; congruence|];
            split; [exact Hdl|]; split; [auto|]; split; [exact Htc|];
            split; [reflexivity|]; intros; congruence).
  all: try (unfold SshEndpoint_download_file, SSHTransfer_download_file, _abs_path in H;
            cbn [fst snd] in H;
            apply bind_inv in H as ([] & r1 & Hc & H);
            apply ensure_connected_inv in Hc as (-> & Hon);
            apply bind_inv in H as (f & r1 & Hr & Hs);
            apply os_read_inv in Hr as (-> & Hf & Hd);
            apply os_create_inv in Hs as (Hdl & Htc);
            eexists f, _; split; [apply Hreadable; auto|];
            split; [exact Hdl|]; split; [intros; congruence|]; split; [exact Htc|];
            split; [reflexivity|]; intros; congruence).
Qed.


Lemma readable_Some (r : runner) (s : side) (p : string) (f : file) :
  readable r s p = Some f <->
  ep_files (endpoints r s) !! p = Some f
  /\ (p ∉ ep_denied (endpoints r s))
  /\ (ep_type (endpoints r s) = Ssh -> ep_online (endpoints r s) = true).
Proof.
  unfold readable.
  destruct (ep_files (endpoints r s) !! p) as [f0|];
    [|split; [discriminate|intros [? _]; discriminate]].
  destruct (bool_decide (p ∈ ep_denied (endpoints r s))) eqn:E.
  - apply bool_decide_eq_true in E.
    split; [discriminate|]. intros (_ & Hd & _). contradiction.
  - apply bool_decide_eq_false in E.
    destruct (ep_type (endpoints r s)).
    + split; [intros H; repeat split; auto; discriminate|]. now intros (? & _).
    + destruct (ep_online (endpoints r s)).
      * split; [intros H; repeat split; auto|]. now intros (? & _).
      * split; [discriminate|]. intros (_ & _ & H). specialize (H eq_refl). discriminate.
Qed.

Lemma read_bytes_run (s : side) (p : string) (r : runner) (f : file) :
  readable r s p = Some f -> read_bytes s p r = (Ret (f_data f), r).
Proof.
  unfold readable, read_bytes, kind_of, LocalEndpoint_read_bytes,
    SshEndpoint_read_bytes, SSHTransfer_read_file_bytes, ensure_connected, os_read,
    files_of, denied, bind, gets, ret, raise.
  destruct s; run_cases p; intros H; first [discriminate H | now injection H as ->].
Qed.

Lemma get_meta_run (s : side) (p : string) (r : runner) (f : file) :
  ep_files (endpoints r s) !! p = Some f ->
  (ep_type (endpoints r s) = Ssh -> ep_online (endpoints r s) = true) ->
  get_meta s p r = (Ret (Some (meta_of_file f)), r).
Proof.
  intros Hf Ho.
  unfold get_meta, kind_of, LocalEndpoint_get_meta, SshEndpoint_get_meta,
    SSHTransfer_stat, ensure_connected, try_except, files_of, bind, gets, ret, raise.
  destruct (ep_type (endpoints r s)) eqn:K; cbn; rewrite ?Hf, ?(Ho eq_refl); cbn;
    rewrite ?Hf; reflexivity.
Qed.

Lemma normalize_twice_same (x : bytes) (t : eol) :
  _normalize_bytes (_normalize_bytes x t) t = _normalize_bytes x t.
Proof.
  pose proof (normalize_lf_twice x t) as H.
  destruct t; [exact H| |reflexivity].
  cbn [_normalize_bytes] in *. now rewrite H.
Qed.

Lemma delivered_twice (t : eol) (p : string) (d : bytes) :
  delivered t p (delivered t p d) = delivered t p d.
Proof.
  unfold delivered. destruct t; [| |reflexivity];
    destruct (_is_text_path p); auto using normalize_twice_same.
Qed.



(** X10.  After a copy that returned, the engine computes one
    and the same hash for the path on the two sides. *)
Theorem copy_makes_hashes_agree (w : side) (p : string) (r r' : runner) :
  _copy_between w (other w) p r = (Ret tt, r') ->
  exists h,
    fst (_compute_hash w p r') = Ret (Some h)
    /\ fst (_compute_hash (other w) p r') = Ret (Some h).
Proof.
  intros H.
  apply copy_between_inv in H as (f & f' & Hr & Hdl & Hol & Htc & Hdata & _).
  apply readable_Some in Hr as (Hf & Hd & Ho).
  assert (Hw : readable r' w p = Some f).
  { apply readable_Some.
    rewrite (tree_change_denied _ _ _ _ w Htc), (tree_change_type _ _ _ _ w Htc),
      (tree_change_online _ _ _ _ w Htc).
    destruct Htc as (_ & H2 & _). split; [|auto].
    replace (ep_files (endpoints r' w)) with (ep_files (endpoints r w));
      [exact Hf|]. now destruct w. }
  assert (Hl : readable r' (other w) p = Some f').
  { apply readable_Some.
    rewrite (tree_change_denied _ _ _ _ (other w) Htc),
      (tree_change_type _ _ _ _ (other w) Htc),
      (tree_change_online _ _ _ _ (other w) Htc).
    destruct Htc as (H1 & _). rewrite H1, lookup_insert_eq. auto. }
  exists (hexdigest (delivered (eol_normalize r) p (f_data f))).
  rewrite !compute_hash_run, Hw, Hl. cbn [fst fmap option_fmap option_map].
  destruct Htc as (_ & _ & _ & He). rewrite He, Hdata, delivered_twice. auto.
Qed.

(** X11.  What [write_bytes] has written, [read_bytes] reads back, on
    a local and on a remote endpoint alike, and [get_meta] reports its
    length and the time of the write. *)
Theorem write_then_read (s : side) (p : string) (d : bytes) (r r' : runner) :
  write_bytes s p d r = (Ret tt, r') ->
  read_bytes s p r' = (Ret d, r')
  /\ get_meta s p r'
     = (Ret (Some {| size := Some (Z.of_nat (length d));
                     mtime := Some (clock r (clock_reads r));
                     hash := None |}), r').
Proof.
  intros H. apply write_bytes_inv in H as (Hd & Ho & Htc).
  pose proof (tree_change_denied _ _ _ _ s Htc) as Hden.
  pose proof (tree_change_type _ _ _ _ s Htc) as Hty.
  pose proof (tree_change_online _ _ _ _ s Htc) as Hon.
  destruct Htc as (H1 & _).
  set (f := {| f_data := d; f_mtime := clock r (clock_reads r) |}) in *.
  assert (Hf : ep_files (endpoints r' s) !! p = Some f)
    by (rewrite H1; apply lookup_insert_eq).
  split.
  - apply (read_bytes_run s p r' f). apply readable_Some.
    rewrite Hden, Hty, Hon. auto.
  - apply (get_meta_run s p r' f Hf). now rewrite Hty, Hon.
Qed.

End Copies.


Lemma copy_makes_hashes_agree_witness :
  let r' := snd (_copy_between A B "f.txt" crlf_runner) in
  exists h,
    fst (_compute_hash A "f.txt" r') = Ret (Some h)
    /\ fst (_compute_hash B "f.txt" r') = Ret (Some h).
Proof.
  apply (copy_makes_hashes_agree A "f.txt" crlf_runner).
  apply run_eq. vm_compute. reflexivity.
Defined.

Lemma write_then_read_witness :
  let r' := snd (write_bytes B "g.txt" abc_lf equal_runner) in
  read_bytes B "g.txt" r' = (Ret abc_lf, r')
  /\ get_meta B "g.txt" r'
     = (Ret (Some {| size := Some 4;
                     mtime := Some (clock equal_runner (clock_reads equal_runner));
                     hash := None |}), r').
Proof.
  apply (write_then_read B "g.txt" abc_lf equal_runner).
  apply run_eq. vm_compute. reflexivity.
Defined.


(** ** Moving to the trash *)

(** Runs a computation that works on the two paths [p] and [q] of a
    symbolic tree. *)
Ltac run_paths p q :=
  repeat (cbn;
    first
      [ match goal with
        | H : ?x = _ |- context [?x] => rewrite H
        end
      | rewrite lookup_insert_eq
      | rewrite lookup_delete_eq
      | rewrite lookup_insert_ne by congruence
      | rewrite lookup_delete_ne by congruence
      | match goal with
        | |- context [ep_type (?pr ?x)] => is_var x; destruct (ep_type (pr x)) eqn:?
        | |- context [ep_online (?pr ?x)] => is_var x; destruct (ep_online (pr x)) eqn:?
        | |- context [ep_files (?pr ?x) !! p] =>
            is_var x; destruct (ep_files (pr x) !! p) eqn:?
        | |- context [ep_files (?pr ?x) !! q] =>
            is_var x; destruct (ep_files (pr x) !! q) eqn:?
        | |- context [bool_decide (p ∈ ep_denied (?pr ?x))] =>
            is_var x; destruct (bool_decide (p ∈ ep_denied (pr x))) eqn:?
        | |- context [bool_decide (q ∈ ep_denied (?pr ?x))] =>
            is_var x; destruct (bool_decide (q ∈ ep_denied (pr x))) eqn:?
        end ]).

Lemma local_trash_keeps (s : side) (p dst : string) (r : runner) (f : file) :
  dst <> p ->
  ep_files (endpoints r s) !! p = Some f ->
  let res := os_rename s p dst r in
  data_kept s p dst f (snd res)
  /\ elsewhere_same s p dst r (snd res)
  /\ (fst res = Ret tt ->
      ep_files (endpoints (snd res) s) !! p = None
      /\ ep_files (endpoints (snd res) s) !! dst = Some f).
Proof.
  intros Hne Hf.
  unfold data_kept, elsewhere_same, os_rename, os_read, files_of, denied, put_files,
    emit, modify, bind, gets, ret, raise.
  destruct s; cbn in Hf; run_paths p dst.
  all: repeat split; auto; try discriminate; try (intros; run_paths p dst; reflexivity).
  all: try (right; split; [reflexivity|]; eexists; split; [reflexivity|reflexivity]).
Qed.

Lemma try_run {X} (m : M X) (h : exn -> M X) (r : runner) :
  try_except m h r = match m r with
                     | (Ret x, r1) => (Ret x, r1)
                     | (Raise e, r1) => h e r1
                     end.
Proof. reflexivity. Qed.

Lemma ssh_read_cases (s : side) (p : string) (r : runner) :
  (exists f, SshEndpoint_read_bytes s p r = (Ret (f_data f), r)
             /\ ep_files (endpoints r s) !! p = Some f)
  \/ (exists e, SshEndpoint_read_bytes s p r = (Raise e, r)).
Proof.
  unfold SshEndpoint_read_bytes, SSHTransfer_read_file_bytes.
  destruct (ensure_connected_cases s r) as [[Hc _]|(e & Hc & _)];
    rewrite bind_run, Hc; [|right; eauto].
  destruct (os_read_cases s p r) as [(f & Hr & Hf & _)|(e & Hr & _)];
    rewrite bind_run, Hr; [left|right]; eauto.
Qed.

Lemma ssh_write_cases (s : side) (q : string) (d : bytes) (r : runner) :
  (exists r', SshEndpoint_write_bytes s q d r = (Ret tt, r')
              /\ tree_change s
                   (insert q {| f_data := d; f_mtime := clock r (clock_reads r) |}) r r')
  \/ (exists e, SshEndpoint_write_bytes s q d r = (Raise e, r)).
Proof.
  unfold SshEndpoint_write_bytes, SSHTransfer_write_file_bytes.
  destruct (ensure_connected_cases s r) as [[Hc _]|(e & Hc & _)];
    rewrite bind_run, Hc; [|right; eauto].
  destruct (os_create_cases s q d r) as [(r' & Hr & _ & Htc)|(e & Hr & _)];
    [left|right]; eauto.
Qed.

Lemma ssh_delete_cases (s : side) (p : string) (r : runner) :
  (exists r', SSHTransfer_delete_file s p r = (Ret tt, r')
              /\ (tree_change s (delete p) r r'
                  \/ (r' = r /\ ep_files (endpoints r s) !! p = None)))
  \/ (exists e, SSHTransfer_delete_file s p r = (Raise e, r)).
Proof.
  unfold SSHTransfer_delete_file.
  destruct (ensure_connected_cases s r) as [[Hc _]|(e & Hc & _)];
    rewrite bind_run, Hc; [|right; eauto].
  unfold try_except.
  destruct (os_unlink_cases s p r) as [(r' & Hr & _ & _ & Htc)|(e & Hr & He)];
    rewrite Hr; [left; eauto|].
  destruct He as [[Hf ->]|[_ ->]]; [left; eauto|right; eauto].
Qed.

(** What [move_file] does when the two paths differ: it moves the file,
    or it raises and leaves the source where it was (a file that was at
    the destination may be gone). *)
Lemma ssh_move_file_cases (s : side) (p dst : string) (r : runner) :
  dst <> p ->
  (exists f r', SSHTransfer_move_file s p dst r = (Ret tt, r')
                /\ ep_files (endpoints r s) !! p = Some f
                /\ exists g, tree_change s g r r'
                             /\ (forall fs, g fs !! p = None)
                             /\ (forall fs, g fs !! dst = Some f)
                             /\ (forall fs q, q <> p -> q <> dst -> g fs !! q = fs !! q))
  \/ (exists e r', SSHTransfer_move_file s p dst r = (Raise e, r')
                   /\ exists g, tree_change s g r r'
                                /\ (forall fs, g fs !! p = fs !! p)
                                /\ (forall fs q, q <> dst -> g fs !! q = fs !! q)).
Proof.
  intros Hne. unfold SSHTransfer_move_file.
  destruct (ensure_connected_cases s r) as [[Hc _]|(e & Hc & _)];
    rewrite bind_run, Hc; cbv beta iota.
  2:{ right. exists e, r. split; [reflexivity|].
      exists (fun fs => fs). split; [apply tree_change_refl|]. auto. }
  rewrite try_run, bind_run, try_run.
  destruct (os_unlink_cases s dst r) as [(r1 & Hu & _ & _ & Htc1)|(e & Hu & _)];
    rewrite Hu; cbv beta iota.
  - destruct (os_rename_cases s p dst r1) as [(f & r2 & Hm & Hf & _ & _ & Htc2)|(e & Hm)];
      rewrite Hm; cbv beta iota.
    + left. exists f, r2. split; [reflexivity|].
      pose proof Htc1 as (F1 & _). rewrite F1, lookup_delete_ne in Hf by congruence.
      split; [exact Hf|].
      exists (fun fs => <[dst := f]> (delete p (delete dst fs))).
      split; [apply (tree_change_trans _ _ _ _ _ _ Htc1 Htc2)|].
      split; [intros fs; now rewrite lookup_insert_ne, lookup_delete_eq by congruence|].
      split; [intros fs; now rewrite lookup_insert_eq|].
      intros fs q H1 H2.
      now rewrite lookup_insert_ne, !lookup_delete_ne by congruence.
    + right. eexists _, r1. split; [reflexivity|].
      exists (delete dst). split; [exact Htc1|].
      split; intros; now rewrite lookup_delete_ne by congruence.
  - change (ret () r) with (@Ret unit (), r). cbv beta iota.
    destruct (os_rename_cases s p dst r) as [(f & r2 & Hm & Hf & _ & _ & Htc2)|(e' & Hm)];
      rewrite Hm; cbv beta iota.
    + left. exists f, r2. split; [reflexivity|]. split; [exact Hf|].
      exists (fun fs => <[dst := f]> (delete p fs)). split; [exact Htc2|].
      split; [intros fs; now rewrite lookup_insert_ne, lookup_delete_eq by congruence|].
      split; [intros fs; now rewrite lookup_insert_eq|].
      intros fs q H1 H2.
      now rewrite lookup_insert_ne, !lookup_delete_ne by congruence.
    + right. eexists _, r. split; [reflexivity|].
      exists (fun fs => fs). split; [apply tree_change_refl|]. auto.
Qed.

Lemma length_append (a b : string) :
  String.length (a +:+ b) = (String.length a + String.length b)%nat.
Proof.
  induction a as [|c a IH]; [reflexivity|].
  change (String c a +:+ b) with (String c (a +:+ b)).
  cbn [String.length]. now rewrite IH.
Qed.

Lemma stamped_path_neq (dir ts p : string) : stamped_path dir ts p <> p.
Proof.
  intros H. apply (f_equal String.length) in H. unfold stamped_path in H.
  rewrite !length_append in H. cbn in H. lia.
Qed.

Lemma ssh_trash_keeps (s : side) (p ts : string) (r : runner) (f : file) :
  ep_files (endpoints r s) !! p = Some f ->
  let res := SshEndpoint_move_to_trash s p ts r in
  let dst := stamped_path (trash_dir (endpoints r s)) ts p in
  data_kept s p dst f (snd res)
  /\ elsewhere_same s p dst r (snd res)
  /\ fst res = Ret tt.
Proof.
  intros Hf. cbv zeta. unfold SshEndpoint_move_to_trash. rewrite bind_gets.
  set (dst := stamped_path (trash_dir (endpoints r s)) ts p).
  assert (Hne : dst <> p) by apply stamped_path_neq.
  unfold data_kept, elsewhere_same. rewrite try_run.
  destruct (ssh_move_file_cases s p dst r Hne)
    as [(f0 & r1 & Hm & Hf0 & g & (F1 & O1 & _) & Gp & Gd & Gq)
       |(e & r1 & Hm & g & (F1 & O1 & _) & Gp & Gq)];
    rewrite Hm; cbv beta iota.
  { rewrite Hf in Hf0. injection Hf0 as <-. cbn [fst snd].
    split; [right; rewrite F1, Gp, Gd; eauto|].
    split; [|reflexivity]. split; [exact O1|].
    intros q H1 H2. now rewrite F1, Gq. }
  assert (Hp1 : ep_files (endpoints r1 s) !! p = Some f) by now rewrite F1, Gp.
  assert (Hq1 : forall q, q <> p -> q <> dst ->
                  ep_files (endpoints r1 s) !! q = ep_files (endpoints r s) !! q)
    by (intros q H1 H2; now rewrite F1, Gq).
  rewrite try_run, bind_run.
  destruct (ssh_read_cases s p r1) as [(f1 & Hr & Hf1)|(e1 & Hr)];
    rewrite Hr; cbv beta iota; cbn [fst snd ret]; [|auto].
  rewrite Hp1 in Hf1. injection Hf1 as <-.
  rewrite bind_run.
  destruct (ssh_write_cases s dst (f_data f) r1) as [(r2 & Hw & (F2 & O2 & _))|(e2 & Hw)];
    rewrite Hw; cbv beta iota; cbn [fst snd ret]; [|auto].
  assert (Hp2 : ep_files (endpoints r2 s) !! p = Some f)
    by (rewrite F2, lookup_insert_ne by congruence; exact Hp1).
  assert (Hq2 : forall q, q <> p -> q <> dst ->
                  ep_files (endpoints r2 s) !! q = ep_files (endpoints r s) !! q)
    by (intros q H1 H2; rewrite F2, lookup_insert_ne by congruence; now apply Hq1).
  destruct (ssh_delete_cases s p r2)
    as [(r3 & Hd & [(F3 & O3 & _)|[-> Hnone]])|(e3 & Hd)];
    rewrite Hd; cbv beta iota; cbn [fst snd ret].
  - split; [right|split; [split|reflexivity]].
    + rewrite F3, lookup_delete_eq. split; [reflexivity|].
      rewrite lookup_delete_ne, F2, lookup_insert_eq by congruence. eauto.
    + now rewrite O3, O2.
    + intros q H1 H2. rewrite F3, lookup_delete_ne by congruence. now apply Hq2.
  - congruence.
  - split; [left; exact Hp2|]. split; [|reflexivity].
    split; [now rewrite O2|exact Hq2].
Qed.



(** X13.  [SSHTransfer.move_file] between two different paths:
    when it returns, the file that was at the source is at the destination
    and the source is gone; when it raises, the source is as it was.  No
    third path and nothing on the other side changes.  The destination is
    removed before the rename: when the source does not exist, a
    destination that the server lets remove is lost and the call raises. *)
Theorem ssh_move_file_moves (s : side) (src dst : string) (r : runner) :
  dst <> src ->
  let res := SSHTransfer_move_file s src dst r in
  let fs := ep_files (endpoints r s) in
  let fs' := ep_files (endpoints (snd res) s) in
  (fst res = Ret tt ->
     exists f, fs !! src = Some f /\ fs' !! src = None /\ fs' !! dst = Some f)
  /\ ((exists e, fst res = Raise e) -> fs' !! src = fs !! src)
  /\ (forall q, q <> src -> q <> dst -> fs' !! q = fs !! q)
  /\ ep_files (endpoints (snd res) (other s)) = ep_files (endpoints r (other s))
  /\ (fs !! src = None -> is_Some (fs !! dst) ->
      ep_online (endpoints r s) = true -> dst ∉ ep_denied (endpoints r s) ->
      (exists e, fst res = Raise e) /\ fs' !! dst = None).
Proof.
  intros Hne. cbv zeta.
  split; [|split; [|split; [|split]]].
  - destruct (ssh_move_file_cases s src dst r Hne)
      as [(f & r' & Hm & Hf & g & (F & _) & Gp & Gd & _)|(e & r' & Hm & _)];
      rewrite Hm; cbn [fst snd]; [|discriminate].
    intros _. exists f. now rewrite F, Gp, Gd.
  - destruct (ssh_move_file_cases s src dst r Hne)
      as [(f & r' & Hm & _)|(e & r' & Hm & g & (F & _) & Gp & _)];
      rewrite Hm; cbn [fst snd]; [intros [e He]; discriminate|].
    intros _. now rewrite F, Gp.
  - intros q H1 H2.
    destruct (ssh_move_file_cases s src dst r Hne)
      as [(f & r' & Hm & _ & g & (F & _) & _ & _ & Gq)|(e & r' & Hm & g & (F & _) & _ & Gq)];
      rewrite Hm; cbn [fst snd]; rewrite F; now apply Gq.
  - destruct (ssh_move_file_cases s src dst r Hne)
      as [(f & r' & Hm & _ & g & (_ & O & _) & _)|(e & r' & Hm & g & (_ & O & _) & _)];
      rewrite Hm; exact O.
  - intros Hsrc [g Hdst] Hon Hden.
    unfold SSHTransfer_move_file, ensure_connected, try_except, os_rename, os_unlink,
      os_read, files_of, denied, put_files, emit, modify, bind, gets, ret, raise.
    apply (bool_decide_eq_false_2 _) in Hden.
    destruct s; cbn in Hsrc, Hdst, Hon, Hden; run_paths src dst; eauto.
Qed.

Lemma ssh_move_file_moves_witness :
  let r := sample_runner (sample_endpoint Local ∅)
             (sample_endpoint Ssh {[ "old.txt" := text_file abc_lf ]}) ∅ in
  let res := SSHTransfer_move_file B "new.txt" "old.txt" r in
  (exists e, fst res = Raise e) /\ ep_files (endpoints (snd res) B) !! "old.txt" = None.
Proof.
  intros r res.
  destruct (ssh_move_file_moves B "new.txt" "old.txt" r) as (_ & _ & _ & _ & H);
    [discriminate|].
  apply H; [reflexivity | eexists; reflexivity | reflexivity |].
  apply (bool_decide_unpack _). vm_compute. exact I.
Defined.

(** ** Backups *)

Lemma local_backup_run (s : side) (p dst : string) (r : runner) :
  dst <> p ->
  let res := (f <- os_read s p;; os_store s dst f) r in
  (forall q, q <> dst ->
     ep_files (endpoints (snd res) s) !! q = ep_files (endpoints r s) !! q)
  /\ ep_files (endpoints (snd res) (other s)) = ep_files (endpoints r (other s))
  /\ (forall f, ep_files (endpoints r s) !! p = Some f -> fst res = Ret tt ->
        ep_files (endpoints (snd res) s) !! dst = Some f).
Proof.
  intros Hne.
  unfold os_store, os_read, files_of, denied, put_files, emit, modify, bind, gets,
    ret, raise.
  destruct s; run_paths p dst;
    (split; [intros q Hq; run_paths p dst; reflexivity|]);
    (split; [reflexivity|]); intros ? H0 H1;
    first [discriminate | injection H0 as <-; run_paths p dst; reflexivity].
Qed.

Lemma ssh_backup_run (s : side) (p dst : string) (r : runner) :
  dst <> p ->
  let res :=
    try_except
      (data <- SshEndpoint_read_bytes s p;; SshEndpoint_write_bytes s dst data)
      (fun _ => ret tt) r in
  (forall q, q <> dst ->
     ep_files (endpoints (snd res) s) !! q = ep_files (endpoints r s) !! q)
  /\ ep_files (endpoints (snd res) (other s)) = ep_files (endpoints r (other s))
  /\ fst res = Ret tt
  /\ (forall f, ep_files (endpoints r s) !! p = Some f ->
        ep_online (endpoints r s) = true ->
        p ∉ ep_denied (endpoints r s) -> dst ∉ ep_denied (endpoints r s) ->
        exists f', ep_files (endpoints (snd res) s) !! dst = Some f'
                   /\ f_data f' = f_data f).
Proof.
  intros Hne. cbv zeta. rewrite try_run, bind_run.
  destruct (ssh_read_cases s p r) as [(f & Hr & Hf)|(e & Hr)]; rewrite Hr; cbv beta iota.
  - destruct (ssh_write_cases s dst (f_data f) r) as [(r' & Hw & (F & O & _))|(e & Hw)];
      rewrite Hw; cbv beta iota; cbn [fst snd ret].
    + split; [intros q Hq; now rewrite F, lookup_insert_ne by congruence|].
      split; [exact O|]. split; [reflexivity|].
      intros f0 Hf0 _ _ _. rewrite Hf in Hf0. injection Hf0 as <-.
      rewrite F, lookup_insert_eq. eauto.
    + split; [auto|]. split; [reflexivity|]. split; [reflexivity|].
      intros f0 Hf0 Hon Hp Hd. exfalso.
      unfold SshEndpoint_write_bytes, SSHTransfer_write_file_bytes, ensure_connected in Hw.
      rewrite bind_run, bind_gets, Hon in Hw. cbv beta iota in Hw.
      destruct (os_create_ok s dst (f_data f) r Hd) as (r' & Hc & _).
      unfold ret in Hw. cbv beta iota in Hw. rewrite Hc in Hw. discriminate.
  - cbn [fst snd ret]. split; [auto|]. split; [reflexivity|]. split; [reflexivity|].
    intros f0 Hf0 Hon Hp Hd. exfalso.
    unfold SshEndpoint_read_bytes, SSHTransfer_read_file_bytes, ensure_connected in Hr.
    rewrite bind_run, bind_gets, Hon in Hr. unfold ret in Hr. cbv beta iota in Hr.
    rewrite bind_run, (os_read_run s p r f0 Hf0 Hp) in Hr. discriminate.
Qed.



(** ** What touches the trees, and what does not *)

#[local] Instance same_trees_preorder : PreOrder same_trees.
Proof.
  split.
  - intros r. split; reflexivity.
  - intros a b c [H1 H2] [H3 H4]. split; congruence.
Qed.

#[local] Instance same_trees_on_trees : OnTrees same_trees.
Proof. intros r r' Ha Hb. split; assumption. Qed.

Lemma same_trees_endpoints (r r' : runner) (s : side) :
  same_trees r r' -> endpoints r' s = endpoints r s.
Proof. intros [Ha Hb]. now destruct s. Qed.

#[local] Instance touches_only_preorder l allowed : PreOrder (touches_only l allowed).
Proof.
  split.
  - intros r. split; [intros s; apply same_setup_refl|]. split; [reflexivity|auto].
  - intros a b c (H1 & H2 & H3) (G1 & G2 & G3).
    split; [intros s; eapply same_setup_trans; [apply H1|apply G1]|].
    split; [congruence|]. intros q Hq. now rewrite G3, H3.
Qed.

#[local] Instance touches_only_on_trees l allowed : OnTrees (touches_only l allowed).
Proof.
  intros r r' Ha Hb.
  assert (He : forall s, endpoints r' s = endpoints r s) by (intros []; assumption).
  split; [intros s; rewrite He; apply same_setup_refl|].
  split; [now rewrite He|]. intros q _. now rewrite He.
Qed.

Lemma touches_only_weaken l (allowed allowed' : string -> Prop) r r' :
  (forall q, allowed q -> allowed' q) ->
  touches_only l allowed r r' -> touches_only l allowed' r r'.
Proof. intros Hsub (H1 & H2 & H3). repeat split; auto; apply H1. Qed.

(** *** Computations that leave the endpoints alone *)

Section Silent.
Context {host : Host} (R : relation runner) `{!PreOrder R} `{!OnTrees R}.

Lemma silent_modify (f : runner -> runner) :
  (forall r, ep_a (f r) = ep_a r) -> (forall r, ep_b (f r) = ep_b r) ->
  respects R (modify f).
Proof. intros Ha Hb r. apply on_trees; [apply Ha|apply Hb]. Qed.

Lemma silent_time_now : respects R time_now.
Proof. intros r. now apply on_trees. Qed.

Lemma silent_emit e : respects R (emit e).
Proof. unfold emit. now apply silent_modify. Qed.

Hint Resolve silent_time_now silent_emit : respects.

Lemma silent_os_read s p : respects R (os_read s p).
Proof. unfold os_read, files_of, denied. respects_auto. Qed.

Lemma silent_os_exists s p : respects R (os_exists s p).
Proof. unfold os_exists, files_of. respects_auto. Qed.

Lemma silent_ensure_connected s : respects R (ensure_connected s).
Proof. unfold ensure_connected. respects_auto. Qed.

Hint Resolve silent_os_read silent_os_exists silent_ensure_connected : respects.

Lemma silent_read_bytes s p : respects R (read_bytes s p).
Proof.
  unfold read_bytes, kind_of, LocalEndpoint_read_bytes, SshEndpoint_read_bytes,
    SSHTransfer_read_file_bytes.
  respects_auto.
Qed.

Lemma silent_get_meta s p : respects R (get_meta s p).
Proof.
  unfold get_meta, kind_of, LocalEndpoint_get_meta, SshEndpoint_get_meta,
    SSHTransfer_stat, files_of.
  respects_auto.
Qed.

Hint Resolve silent_read_bytes silent_get_meta : respects.

Lemma silent_compute_hash s p : respects R (_compute_hash s p).
Proof. unfold _compute_hash, kind_of, _hash_file, _abs_path. respects_auto. Qed.

Lemma silent_set_cache (g : runner -> gmap string file_state) :
  respects R (modify (fun r => set_cache (g r) r)).
Proof. now apply silent_modify. Qed.

Lemma silent_set_table (g : runner -> gmap string file_state) :
  respects R (modify (fun r => set_table (g r) r)).
Proof. now apply silent_modify. Qed.

Lemma silent_set_logs (g : runner -> list sync_log) :
  respects R (modify (fun r => set_logs (g r) r)).
Proof. now apply silent_modify. Qed.

Lemma silent_set_queue (g : runner -> list string) b :
  respects R (modify (fun r => set_queue (g r) b r)).
Proof. now apply silent_modify. Qed.

Lemma silent_set_suppress s (g : runner -> gmap string Z) :
  respects R (modify (fun r => set_suppress s (g r) r)).
Proof. now apply silent_modify. Qed.

Hint Resolve silent_compute_hash silent_set_cache silent_set_table silent_set_logs
  silent_set_queue silent_set_suppress : respects.

Lemma silent_store_row p st : respects R (store_row p st).
Proof. unfold store_row, _save_state. respects_auto. Qed.

Lemma silent_assign_in_place p cached st : respects R (assign_in_place p cached st).
Proof. unfold assign_in_place. respects_auto. Qed.

Lemma silent_create_log l : respects R (create_log l).
Proof. unfold create_log. respects_auto. Qed.

Lemma silent_reconcile p : respects R (_reconcile p).
Proof. unfold _reconcile. respects_auto. Qed.

Lemma silent_mark_suppressed s p : respects R (_mark_suppressed s p).
Proof. unfold _mark_suppressed. respects_auto. Qed.

Lemma silent_is_suppressed s p : respects R (_is_suppressed s p).
Proof. unfold _is_suppressed. respects_auto. Qed.

Hint Resolve silent_store_row silent_assign_in_place silent_create_log silent_reconcile
  silent_mark_suppressed silent_is_suppressed : respects.

Lemma silent_iter_files s : respects R (iter_files s).
Proof.
  unfold iter_files, kind_of, LocalEndpoint_iter_files, SshEndpoint_iter_files,
    SSHTransfer_iter_files, files_of.
  respects_auto.
Qed.

Lemma silent_handle_meta_change s p m d t b :
  respects R (_handle_meta_change s p m d t b).
Proof. unfold _handle_meta_change, kind_of. respects_auto. Qed.

Hint Resolve silent_iter_files silent_handle_meta_change : respects.

Lemma silent_on_local_event s ev src dest : respects R (_on_local_event s ev src dest).
Proof. unfold _on_local_event. respects_auto. Qed.

Lemma silent_on_remote_event s ev p : respects R (_on_remote_event s ev p).
Proof. unfold _on_remote_event. respects_auto. Qed.

Lemma silent_scan_present s now items :
  forall n seen b, respects R (scan_present s now items n seen b).
Proof.
  induction items as [|[p m] items IH]; intros n seen b; cbn [scan_present];
    respects_auto.
Qed.

Lemma silent_scan_missing s now snap missing :
  forall b, respects R (scan_missing s now snap missing b).
Proof.
  induction missing as [|p missing IH]; intros b; cbn [scan_missing];
    respects_auto.
Qed.

Hint Resolve silent_scan_present silent_scan_missing : respects.

Lemma silent_scan_endpoint s : respects R (_scan_endpoint s).
Proof. unfold _scan_endpoint. respects_auto. Qed.

Lemma silent_restat_loser l p : respects R (restat_loser l p).
Proof. unfold restat_loser. respects_auto. Qed.

End Silent.

(** X15.  Watching and scanning only read the
    trees: a local watcher event, a remote watcher event, a scan of an
    endpoint and the recording of one observation leave the files and the
    configuration of both endpoints exactly as they were, whatever they
    do to the cache, the store, the queue and the suppression marks. *)
Theorem observing_keeps_trees {host : Host} (r : runner) (s t : side) :
  (forall (ev : change) (src dest : string),
     endpoints (snd (_on_local_event s ev src dest r)) t = endpoints r t)
  /\ (forall (ev : change) (p : string),
        endpoints (snd (_on_remote_event s ev p r)) t = endpoints r t)
  /\ endpoints (snd (_scan_endpoint s r)) t = endpoints r t
  /\ (forall (p : string) (m : option meta) (deleted : bool) (seen_at : Z)
        (budget : option Z),
        endpoints (snd (_handle_meta_change s p m deleted seen_at budget r)) t
        = endpoints r t).
Proof.
  repeat split; intros; apply same_trees_endpoints.
  - apply (silent_on_local_event same_trees).
  - apply (silent_on_remote_event same_trees).
  - apply (silent_scan_endpoint same_trees).
  - apply (silent_handle_meta_change same_trees).
Qed.

(** The computations above, as leaves of a larger one. *)
Ltac silent_leaf :=
  first [ apply silent_time_now | apply silent_emit | apply silent_os_read
        | apply silent_os_exists | apply silent_ensure_connected
        | apply silent_read_bytes | apply silent_get_meta
        | apply silent_compute_hash | apply silent_store_row
        | apply silent_create_log | apply silent_mark_suppressed
        | apply silent_restat_loser ]; try apply _.

(** *** Computations that write to one tree *)

Section Touches.
Context {host : Host} (l : side) (allowed : string -> Prop).


Lemma touches_put (r : runner) (fs : gmap string file) :
  (forall q, ~ allowed q -> fs !! q = ep_files (endpoints r l) !! q) ->
  (touches_only l allowed) r (set_endpoint l (set_files fs (endpoints r l)) r).
Proof.
  intros H. unfold touches_only.
  destruct l; cbn; (split; [intros []; cbn; repeat split|]);
    (split; [reflexivity|exact H]).
Qed.

Lemma touches_os_store p f : allowed p -> respects (touches_only l allowed) (os_store l p f).
Proof.
  intros Hp r. unfold os_store, denied, files_of, put_files.
  rewrite bind_gets. destruct (bool_decide _); [cbn; reflexivity|].
  rewrite bind_gets, bind_run. unfold modify at 1. cbv beta iota.
  etransitivity; [|apply (silent_emit (touches_only l allowed))].
  apply touches_put. intros q Hq. apply lookup_insert_ne. congruence.
Qed.

Lemma touches_os_create p d : allowed p -> respects (touches_only l allowed) (os_create l p d).
Proof.
  intros Hp. unfold os_create, denied.
  pose proof (touches_os_store p) as Hs.
  pose proof (silent_time_now (touches_only l allowed)) as Ht.
  respects_auto.
Qed.

Lemma touches_os_unlink p : allowed p -> respects (touches_only l allowed) (os_unlink l p).
Proof.
  intros Hp r. unfold os_unlink, denied, files_of, put_files.
  rewrite !bind_gets. destruct (_ !! p); [|cbn; reflexivity].
  destruct (bool_decide _); [cbn; reflexivity|].
  rewrite bind_run. unfold modify at 1. cbv beta iota.
  etransitivity; [|apply (silent_emit (touches_only l allowed))].
  apply touches_put. intros q Hq. apply lookup_delete_ne. congruence.
Qed.

Lemma touches_os_rename p q : allowed p -> allowed q -> respects (touches_only l allowed) (os_rename l p q).
Proof.
  intros Hp Hq r. unfold os_rename.
  destruct (os_read_cases l p r) as [(f & Hr & _)|(e & Hr & _)];
    rewrite bind_run, Hr; cbv beta iota; [|reflexivity].
  unfold denied, files_of, put_files.
  rewrite bind_gets. destruct (bool_decide _); [cbn; reflexivity|].
  rewrite bind_gets, bind_run. unfold modify at 1. cbv beta iota.
  pose proof (respects_bind (touches_only l allowed) _ _ (silent_emit (touches_only l allowed) (EvRemove l p))
                (fun _ => silent_emit (touches_only l allowed) (EvWrite l q))) as He.
  etransitivity; [|apply He].
  apply touches_put. intros x Hx.
  rewrite lookup_insert_ne by congruence. apply lookup_delete_ne. congruence.
Qed.

Hint Extern 1 (respects _ _) => silent_leaf : respects.
Hint Resolve touches_os_store touches_os_create touches_os_unlink touches_os_rename
  : respects.

Lemma touches_write_bytes p d : allowed p -> respects (touches_only l allowed) (write_bytes l p d).
Proof.
  intros Hp.
  unfold write_bytes, kind_of, LocalEndpoint_write_bytes, SshEndpoint_write_bytes,
    SSHTransfer_write_file_bytes.
  respects_auto.
Qed.

Lemma touches_delete_file p : allowed p -> respects (touches_only l allowed) (SSHTransfer_delete_file l p).
Proof. intros Hp. unfold SSHTransfer_delete_file. respects_auto. Qed.

Lemma touches_move_file p q :
  allowed p -> allowed q -> respects (touches_only l allowed) (SSHTransfer_move_file l p q).
Proof. intros Hp Hq. unfold SSHTransfer_move_file. respects_auto. Qed.

Hint Resolve touches_write_bytes touches_delete_file touches_move_file : respects.

Lemma touches_copy_between w p : allowed p -> respects (touches_only l allowed) (_copy_between w l p).
Proof.
  intros Hp.
  unfold _copy_between, kind_of, LocalEndpoint_copy_file, SshEndpoint_upload_file,
    SshEndpoint_download_file, SSHTransfer_upload_file, SSHTransfer_download_file,
    _abs_path.
  cbn [fst snd].
  respects_auto.
Qed.

Lemma touches_ssh_write p d :
  allowed p -> respects (touches_only l allowed) (SshEndpoint_write_bytes l p d).
Proof.
  intros Hp. unfold SshEndpoint_write_bytes, SSHTransfer_write_file_bytes.
  respects_auto.
Qed.

Hint Resolve touches_ssh_write : respects.

Lemma touches_ssh_trash p dst :
  allowed p -> allowed dst ->
  respects (touches_only l allowed)
    (try_except (SSHTransfer_move_file l p dst)
       (fun _ =>
          try_except
            (data <- SshEndpoint_read_bytes l p;;
             SshEndpoint_write_bytes l dst data;;;
             SSHTransfer_delete_file l p)
            (fun _ => ret tt))).
Proof.
  intros Hp Hq. unfold SshEndpoint_read_bytes, SSHTransfer_read_file_bytes.
  respects_auto.
Qed.

Lemma touches_ssh_backup p dst :
  allowed dst ->
  respects (touches_only l allowed)
    (try_except
       (data <- SshEndpoint_read_bytes l p;;
        SshEndpoint_write_bytes l dst data)
       (fun _ => ret tt)).
Proof.
  intros Hq. unfold SshEndpoint_read_bytes, SSHTransfer_read_file_bytes.
  respects_auto.
Qed.

Lemma touches_local_backup p dst :
  allowed dst ->
  respects (touches_only l allowed) (f <- os_read l p;; os_store l dst f).
Proof. intros Hq. respects_auto. Qed.

End Touches.

Section SyncFrame.
Context {host : Host}.

Lemma os_exists_run (s : side) (p : string) (r : runner) :
  os_exists s p r = (Ret (has_key (ep_files (endpoints r s) !! p)), r).
Proof. reflexivity. Qed.

Lemma touches_move_to_trash (l : side) (p ts : string) (r : runner) :
  touches_only l (sync_paths r l p ts) r (snd (move_to_trash l p ts r)).
Proof.
  assert (Hp : sync_paths r l p ts p) by (left; reflexivity).
  assert (Hq : sync_paths r l p ts (stamped_path (trash_dir (endpoints r l)) ts p))
    by (right; left; reflexivity).
  unfold move_to_trash, kind_of. rewrite bind_gets.
  destruct (ep_type (endpoints r l)).
  - unfold LocalEndpoint_move_to_trash. rewrite bind_run, os_exists_run.
    cbv beta iota. destruct (negb _); [unfold ret; cbn [snd]; reflexivity|].
    rewrite bind_gets. now apply touches_os_rename.
  - unfold SshEndpoint_move_to_trash. rewrite bind_gets.
    now apply touches_ssh_trash.
Qed.

Lemma touches_backup_file (l : side) (p ts : string) (r : runner) :
  touches_only l (sync_paths r l p ts) r (snd (backup_file l p ts r)).
Proof.
  assert (Hq : sync_paths r l p ts (stamped_path (backup_dir (endpoints r l)) ts p))
    by (right; right; reflexivity).
  unfold backup_file, kind_of. rewrite bind_gets.
  destruct (ep_type (endpoints r l)).
  - unfold LocalEndpoint_backup_file. rewrite bind_run, os_exists_run.
    cbv beta iota. destruct (negb _); [unfold ret; cbn [snd]; reflexivity|].
    rewrite bind_gets. now apply touches_local_backup.
  - unfold SshEndpoint_backup_file. rewrite bind_gets.
    now apply touches_ssh_backup.
Qed.

(** The paths a sync may write are the same after any step that keeps the
    configuration. *)
Lemma sync_paths_same (l : side) (p ts : string) (r r1 : runner) (q : string) :
  same_setup (endpoints r l) (endpoints r1 l) ->
  sync_paths r1 l p ts q -> sync_paths r l p ts q.
Proof.
  intros (_ & _ & _ & _ & Ht & Hb & _). unfold sync_paths. now rewrite Ht, Hb.
Qed.

Lemma touches_sync_side_transfer (w l : side) (p ts : string) (state : file_state)
    (r : runner) :
  touches_only l (sync_paths r l p ts) r (snd (sync_side_transfer w l p ts state r)).
Proof.
  assert (Hp : sync_paths r l p ts p) by (left; reflexivity).
  pose proof (touches_copy_between l _ w p Hp) as Hc.
  pose proof (silent_mark_suppressed (touches_only l (sync_paths r l p ts)) l p) as Hm.
  pose proof (silent_restat_loser (touches_only l (sync_paths r l p ts)) l p) as Hr.
  unfold sync_side_transfer.
  destruct (side_deleted w state).
  - destruct (negb (side_deleted l state) && meta_truthy (side_meta l state));
      cbn [when]; [|cbn; reflexivity].
    rewrite !bind_run.
    pose proof (touches_move_to_trash l p ts r) as Ht.
    destruct (move_to_trash l p ts r) as [[[]|e] r1]; cbn [snd] in Ht |- *;
      [|exact Ht].
    etransitivity; [exact Ht|].
    pose proof (Hm r1) as Hm1.
    destruct (_mark_suppressed l p r1) as [[[]|e] r2]; cbn [snd] in Hm1 |- *;
      exact Hm1.
  - assert (Hrest : respects (touches_only l (sync_paths r l p ts))
              (_copy_between w l p;;; _mark_suppressed l p;;; restat_loser l p))
      by respects_auto.
    rewrite bind_run.
    destruct (meta_truthy (side_meta l state) && negb (side_deleted l state));
      cbn [when]; [|apply Hrest].
    destruct (_meta_changed (side_meta l state) (Some (side_meta w state)));
      cbn [when]; [|apply Hrest].
    pose proof (touches_backup_file l p ts r) as Hb.
    destruct (backup_file l p ts r) as [[[]|e] r1]; cbn [snd] in Hb |- *;
      [|exact Hb].
    etransitivity; [exact Hb|]. apply Hrest.
Qed.

End SyncFrame.

Lemma touches_sync_side {host : Host} (w l : side) (p : string) (st : option stats)
    (r : runner) :
  touches_only l (sync_paths r l p (strftime (clock r (clock_reads r)))) r
    (snd (_sync_side w l p st r)).
Proof.
  set (ts := strftime (clock r (clock_reads r))).
  set (T := touches_only l (sync_paths r l p ts)).
  assert (H0 : T r (at_transfer w l p r)) by (apply on_trees; reflexivity).
  assert (H1 : T (at_transfer w l p r)
                 (snd (sync_side_transfer w l p ts
                         (default zero_state (_state_cache r !! p))
                         (at_transfer w l p r)))).
  { eapply touches_only_weaken; [|apply touches_sync_side_transfer].
    intros q. apply sync_paths_same. destruct H0 as (H0 & _). apply H0. }
  rewrite sync_side_unfold. cbv zeta. fold ts.
  destruct (sync_side_transfer w l p ts _ _) as [[fresh|e] r1]; cbn [snd] in H1.
  - etransitivity; [exact H0|]. etransitivity; [exact H1|].
    assert (Hrest : forall row lg (x : option stats),
              respects T (store_row p row;;; create_log lg;;; ret x)).
    { intros. subst T. respects_auto. }
    apply Hrest.
  - cbn [snd]. etransitivity; [exact H0|]. etransitivity; [exact H1|].
    apply on_trees; reflexivity.
Qed.

